(** * ImageDownloader: the download loop and the PDF compiler

    A shallow embedding of [download_and_create_pdf.py].  The class
    [ImageDownloader] has three methods: [download_images] (a [while] loop
    driven by a counter of 404 answers), [get_existing_images] (a sorted
    directory scan) and [create_pdf] (a per-image pipeline followed by one
    write).  The network, the image library and the file system are the
    environment: the answers of the server are a sequence indexed by the
    number of the request, the directory is a finite map from file names to
    contents, image operations are recorded as the calls the code makes, and
    each call of the operating system that can fail outside a [try] (making
    the directory, writing a downloaded file, saving the PDF and reading its
    size) returns or raises as the environment decides. *)

From Stdlib Require Import ZArith Lia Ascii String List QArith Qround Qabs Lqa.
From Stdlib Require Import SpecFloat.
From stdpp Require Import gmap strings list sorting.

Local Open Scope Z_scope.

(** ** Python values *)

(** Exceptions the modelled code can meet. *)
Inductive Exn : Type :=
| FormatError        (* KeyError, IndexError, ValueError of str.format *)
| ZeroDivisionError
| OverflowError
| ValueError
| DecodeError        (* what Image.open raises on a file it cannot read *)
| OSError (errno : Z).  (* what open, write, mkdir, save and stat raise *)

Inductive Result (A : Type) : Type :=
| Ok (a : A)
| Raise (e : Exn).
Arguments Ok {A} a.
Arguments Raise {A} e.

(** The error monad of [try] and [raise]; [x ← r; k] is stdpp's notation. *)
Global Instance Result_ret : MRet Result := fun A a => Ok a.
Global Instance Result_bind : MBind Result := fun A B k r =>
  match r with
  | Ok a => k a
  | Raise e => Raise e
  end.

(** A [pathlib.Path] below the output directory: [output_dir / name]. *)
Record Path : Type := mkPath { parent : string; name : string }.

Global Instance Path_eq_dec : EqDecision Path.
Proof. solve_decision. Defined.

(** Paths compare by their parts, the directory first. *)
Definition path_le (p q : Path) : Prop :=
  (String.le (parent p) (parent q) /\ parent p <> parent q) \/
  (parent p = parent q /\ String.le (name p) (name q)).

Global Instance path_le_dec : RelDecision path_le.
Proof. intros p q. unfold path_le. apply _. Defined.

(** [Path.glob("*.jp2")] keeps the names that end in [.jp2]. *)
Definition ends_with (suffix s : string) : bool :=
  let n := String.length s in
  let k := String.length suffix in
  (k <=? n)%nat && String.eqb (substring (n - k) k s) suffix.

Definition glob_jp2 (n : string) : bool := ends_with ".jp2" n.

(** ** Decimal formatting: [f"{current:06d}"] *)

Definition digit_char (d : Z) : ascii := ascii_of_nat (48 + Z.to_nat d).
Arguments digit_char : simpl never.

(** [str(n)] for [0 <= n]: the digits without leading zeros. *)
Fixpoint decimal_digits (fuel : nat) (n : Z) : string :=
  match fuel with
  | O => ""
  | S f =>
      if n <? 10 then String (digit_char n) ""
      else decimal_digits f (n / 10) +:+ String (digit_char (n mod 10)) ""
  end.

Definition str_nonneg (n : Z) : string :=
  decimal_digits (S (Z.to_nat (Z.log2 n))) n.

Fixpoint zeros (k : nat) : string :=
  match k with
  | O => ""
  | S k' => String "0" (zeros k')
  end.

(** Left padding with ["0"] up to a minimum width; longer strings are kept. *)
Definition zfill (width : nat) (s : string) : string :=
  zeros (width - String.length s) +:+ s.

(** The format spec [06d]: sign first, then zeros, six characters at least. *)
Definition format_06d (n : Z) : string :=
  if n <? 0 then String "-" (zfill 5 (str_nonneg (- n)))
  else zfill 6 (str_nonneg n).

(** Exactly [k] decimal digits of [n], the low one last. *)
Fixpoint fixed_digits (k : nat) (n : Z) : string :=
  match k with
  | O => ""
  | S k' => fixed_digits k' (n / 10) +:+ String (digit_char (n mod 10)) ""
  end.

(** *** Reading the index back from a file name *)

Definition digit_value (c : ascii) : option Z :=
  let n := Z.of_nat (nat_of_ascii c) in
  if (48 <=? n) && (n <=? 57) then Some (n - 48) else None.

Fixpoint parse_digits (acc : Z) (s : string) : option Z :=
  match s with
  | EmptyString => Some acc
  | String c s' =>
      match digit_value c with
      | Some d => parse_digits (10 * acc + d) s'
      | None => None
      end
  end.

(** A decimal number with an optional minus sign in front. *)
Definition parse_int (s : string) : option Z :=
  match parse_digits 0 s with
  | Some v => Some v
  | None =>
      match s with
      | String c s' => if Ascii.eqb c "-" then Z.opp <$> parse_digits 0 s' else None
      | EmptyString => None
      end
  end.

(** The numeric index encoded in a file name [image_<number>.jp2]. *)
Definition index_of (p : Path) : option Z :=
  let n := name p in
  if String.eqb (substring 0 6 n) "image_" && ends_with ".jp2" n
  then parse_int (substring 6 (String.length n - 10) n)
  else None.

(** ** Python floats

    A float is a binary64 number: a rational with a significand of 53 bits
    (of fewer bits below [2 ^ -1022]), an infinity or a NaN.  Every operation
    computes the exact result and rounds it to the nearest float, ties to
    even; a result that rounds to [2 ^ 1024] or beyond overflows.  The sign of
    a zero is not kept: no operation below tells [0.0] from [-0.0]. *)

Inductive float : Type :=
| Finite (x : Q)
| Infinite (negative : bool)
| NaN.

(** The integer nearest to [num / den], ties to even, for [0 < den]. *)
Definition rne_div (num den : Z) : Z :=
  let d := num / den in
  let r := num mod den in
  match 2 * r ?= den with
  | Lt => d
  | Gt => d + 1
  | Eq => if Z.even d then d else d + 1
  end.

(** [2 ^ k <= p / q], for [0 < q] and any sign of [k]. *)
Definition pow2_le (k p q : Z) : bool :=
  q * 2 ^ Z.max k 0 <=? p * 2 ^ Z.max (- k) 0.

(** The [k] with [2 ^ k <= p / q < 2 ^ (k + 1)], for [0 < p] and [0 < q]. *)
Definition binade (p q : Z) : Z :=
  let k := Z.log2 p - Z.log2 q in
  if pow2_le k p q then k else k - 1.

Definition round_pos (p q : Z) : Q :=
  let e := binade p q - 52 in
  let mant := rne_div (p * 2 ^ Z.max (- e) 0) (q * 2 ^ Z.max e 0) in
  Qmake (mant * 2 ^ Z.max e 0) (Z.to_pos (2 ^ Z.max (- e) 0)).

(** Rounding to a significand of 53 bits, whatever the exponent. *)
Definition fl (x : Q) : Q :=
  match Qnum x with
  | 0 => 0%Q
  | Zpos p => round_pos (Zpos p) (Zpos (Qden x))
  | Zneg p => Qopp (round_pos (Zpos p) (Zpos (Qden x)))
  end.

Arguments fl : simpl never.

(** The smallest normal number [2 ^ -1022] and the first power of two beyond
    the largest float, [2 ^ 1024]. *)
Definition min_normal : Q := 1 # (2 ^ 1022).
Definition overflow_threshold : Q := inject_Z (2 ^ 1024).

(** Below [min_normal] the floats are the multiples of [2 ^ -1074]. *)
Definition round_subnormal (x : Q) : Q :=
  Qmake (rne_div (Qnum x * 2 ^ 1074) (QDen x)) (2 ^ 1074).

(** Rounding of an exact result to a float, kept in lowest terms. *)
Definition round64 (x : Q) : float :=
  if Qle_bool min_normal (Qabs x) then
    if Qle_bool overflow_threshold (Qabs (fl x)) then Infinite (Qnum x <? 0)
    else Finite (Qred (fl x))
  else Finite (Qred (round_subnormal x)).

Arguments round64 : simpl never.

(** [float(n)], as the mixed operations below convert their integer operand:
    OverflowError for an integer beyond the floats. *)
Definition float_of_int (n : Z) : Result float :=
  match round64 (inject_Z n) with
  | Infinite _ => Raise OverflowError
  | x => Ok x
  end.

(** [a / b] on integers: the correctly rounded quotient. *)
Definition int_truediv (a b : Z) : Result float :=
  if b =? 0 then Raise ZeroDivisionError
  else match round64 (inject_Z a / inject_Z b)%Q with
       | Infinite _ => Raise OverflowError
       | x => Ok x
       end.

(** [x * y], [x - y] and [x / y] on floats; only the division raises. *)
Definition float_mul (x y : float) : float :=
  match x, y with
  | Finite a, Finite b => round64 (a * b)%Q
  | Finite a, Infinite s | Infinite s, Finite a =>
      if Qeq_bool a 0 then NaN else Infinite (xorb s (Qnum a <? 0))
  | Infinite s, Infinite t => Infinite (xorb s t)
  | _, _ => NaN
  end.

Definition float_sub (x y : float) : float :=
  match x, y with
  | Finite a, Finite b => round64 (a - b)%Q
  | Finite _, Infinite s => Infinite (negb s)
  | Infinite s, Finite _ => Infinite s
  | Infinite s, Infinite t => if Bool.eqb s t then NaN else Infinite s
  | _, _ => NaN
  end.

Definition float_truediv (x y : float) : Result float :=
  match y with
  | Finite b =>
      if Qeq_bool b 0 then Raise ZeroDivisionError
      else match x with
           | Finite a => Ok (round64 (a / b)%Q)
           | Infinite s => Ok (Infinite (xorb s (Qnum b <? 0)))
           | NaN => Ok NaN
           end
  | Infinite _ =>
      match x with
      | Finite _ => Ok (Finite 0)
      | _ => Ok NaN
      end
  | NaN => Ok NaN
  end.

(** [a / b] with a float on the left and an integer on the right. *)
Definition float_truediv_int (x : float) (b : Z) : Result float :=
  y ← float_of_int b; float_truediv x y.

(** [n * x] with an integer on the left. *)
Definition int_mul_float (n : Z) (x : float) : Result float :=
  y ← float_of_int n; Ok (float_mul y x).

Definition float_mul_int (x : float) (n : Z) : Result float :=
  y ← float_of_int n; Ok (float_mul x y).

(** [n - x] with an integer on the left. *)
Definition int_sub_float (n : Z) (x : float) : Result float :=
  y ← float_of_int n; Ok (float_sub y x).

(** [x < y]; false when an operand is a NaN. *)
Definition float_lt (x y : float) : bool :=
  match x, y with
  | Finite a, Finite b => negb (Qle_bool b a)
  | Finite _, Infinite s => negb s
  | Infinite s, Finite _ => s
  | Infinite s, Infinite t => s && negb t
  | _, _ => false
  end.

(** [min(x, y)]: the second argument only when it is strictly smaller. *)
Definition float_min (x y : float) : float :=
  if float_lt y x then y else x.

(** Truncation toward zero. *)
Definition Qtrunc (x : Q) : Z := Z.quot (Qnum x) (Zpos (Qden x)).

(** [int(x)]. *)
Definition int_of_float (x : float) : Result Z :=
  match x with
  | Finite q => Ok (Qtrunc q)
  | Infinite _ => Raise OverflowError
  | NaN => Raise ValueError
  end.

(** [round(x)]: the nearest integer, ties to even. *)
Definition round_nearest (x : float) : Result Z :=
  match x with
  | Finite q => Ok (rne_div (Qnum q) (QDen q))
  | Infinite _ => Raise OverflowError
  | NaN => Raise ValueError
  end.

(** The smaller of two rationals, the first one when they are equal. *)
Definition Qmin_first (a b : Q) : Q := if Qle_bool a b then a else b.

(** The factors [1 - 2 ^ -53] and [1 + 2 ^ -53] between which one rounding
    keeps a positive normal number. *)
Definition round_down_factor : Q := 9007199254740991 # 9007199254740992.
Definition round_up_factor : Q := 9007199254740993 # 9007199254740992.

(** *** Comparison with the IEEE 754 operations of the Standard Library *)

(** The float a binary64 number of [SpecFloat] stands for. *)
Definition float_of_spec (f : spec_float) : float :=
  match f with
  | S754_zero _ => Finite 0
  | S754_infinity s => Infinite s
  | S754_nan => NaN
  | S754_finite s m e =>
      let v := Qmake (Zpos m * 2 ^ Z.max e 0) (Z.to_pos (2 ^ Z.max (- e) 0)) in
      Finite (if s then Qopp v else v)
  end.

Definition float_eqb (x y : float) : bool :=
  match x, y with
  | Finite a, Finite b => Qeq_bool a b
  | Infinite s, Infinite t => Bool.eqb s t
  | NaN, NaN => true
  | _, _ => false
  end.

Definition binary64_of_int (n : Z) : spec_float := binary_normalize 53 1024 n 0 false.

(** The quotients and products of [new_size] for one image, computed with
    [SFdiv] and [SFmul] and with the operations above, are the same numbers. *)
Definition agrees_with_binary64 (w h m : Z) : bool :=
  let a := SFdiv 53 1024 (binary64_of_int m) (binary64_of_int w) in
  let b := SFdiv 53 1024 (binary64_of_int m) (binary64_of_int h) in
  let a' := round64 (inject_Z m / inject_Z w) in
  let b' := round64 (inject_Z m / inject_Z h) in
  float_eqb (float_of_spec a) a' &&
  float_eqb (float_of_spec b) b' &&
  float_eqb (float_of_spec (SFmul 53 1024 (binary64_of_int w) a))
            (float_mul (round64 (inject_Z w)) a') &&
  float_eqb (float_of_spec (SFmul 53 1024 (binary64_of_int h) b))
            (float_mul (round64 (inject_Z h)) b').

(** The product and the quotient of two quotients of small integers, which
    reach the subnormal numbers and the overflow, computed both ways. *)
Definition extremes_agree_with_binary64 (p q r t : Z) : bool :=
  let x := SFdiv 53 1024 (binary64_of_int p) (binary64_of_int q) in
  let y := SFdiv 53 1024 (binary64_of_int r) (binary64_of_int t) in
  let x' := round64 (inject_Z p / inject_Z q) in
  let y' := round64 (inject_Z r / inject_Z t) in
  float_eqb (float_of_spec x) x' &&
  float_eqb (float_of_spec y) y' &&
  float_eqb (float_of_spec (SFmul 53 1024 x y)) (float_mul x' y') &&
  match float_truediv x' y' with
  | Ok z => float_eqb (float_of_spec (SFdiv 53 1024 x y)) z
  | Raise _ => false
  end.

(** ** The server *)

Inductive Response : Type :=
| HttpResponse (status_code : Z) (content : list Byte.byte)
| Timeout
| RequestException (e : string).

Definition status_of (r : Response) : option Z :=
  match r with
  | HttpResponse status_code _ => Some status_code
  | _ => None
  end.

(** The first answers of the server carry the given status codes. *)
Definition statuses_start (l : list Z) (responses : nat -> Response) : Prop :=
  forall k c, l !! k = Some c -> status_of (responses k) = Some c.

(** The number of 404 answers among the [n] answers from the [i]-th on. *)
Fixpoint count_404 (responses : nat -> Response) (i n : nat) : Z :=
  match n with
  | O => 0
  | S n' =>
      (if decide (status_of (responses i) = Some 404) then 1 else 0)
      + count_404 responses (S i) n'
  end.

(** The counter after [k] answers, when nothing stops the loop: 200 resets
    it, 404 adds one, anything else leaves it. *)
Fixpoint counter_after (responses : nat -> Response) (k : nat) : Z :=
  match k with
  | O => 0
  | S k' =>
      match status_of (responses k') with
      | Some 200 => 0
      | Some 404 => counter_after responses k' + 1
      | _ => counter_after responses k'
      end
  end.

(** The indices saved during the first [k] iterations of a run from [start]:
    those answered with status 200. *)
Definition saved_indices (responses : nat -> Response) (start : Z) (k : nat) : list Z :=
  (fun j => start + Z.of_nat j) <$>
    filter (fun j => status_of (responses j) = Some 200) (seq 0 k).

(** No answer with status 200 among the [n] answers from the [i]-th on. *)
Definition no_200 (responses : nat -> Response) (i n : nat) : Prop :=
  forall k, (i <= k < i + n)%nat -> status_of (responses k) <> Some 200.

(** ** ImageDownloader.download_images *)

(** The local variables of the loop, the files of [output_dir] and the log of
    the URLs requested so far. *)
Record RunState : Type := mkRunState {
  downloaded_files : list Path;
  consecutive_404s : Z;
  current : Z;
  files : gmap string (list Byte.byte);
  requested : list string
}.

Section Downloader.

(** The fields set by [__init__]. [pattern_format i] is
    [self.pattern.format(number=i)], which raises on a pattern with another
    field or a format code that does not fit an integer. *)
Variable base_url : string.
Variable pattern_format : Z -> Result string.

(** [write_file filename content] is the outcome of
    [with open(filename, 'wb') as f: f.write(content)]: it returns, or raises
    the [OSError] of [open] or of [write], which no [except] clause of the
    loop catches. *)
Variable write_file : Path -> list Byte.byte -> Result unit.

Variable output_dir : string.
Variable max_consecutive_404s : Z.

(** [responses k] is the outcome of the [k]-th call of [session.get] of the
    run, counted from 0. *)
Variable responses : nat -> Response.

Definition filename_of (i : Z) : Path :=
  mkPath output_dir ("image_" +:+ format_06d i +:+ ".jp2").

Definition init_state (fs : gmap string (list Byte.byte)) (start : Z) : RunState :=
  mkRunState [] 0 start fs [].

Definition loop_guard (st : RunState) : bool :=
  consecutive_404s st <? max_consecutive_404s.

(** What one answer does to the state (lines 66 to 86). The two [except]
    clauses catch the timeout and the other exceptions of [requests]; an
    [OSError] of the write is none of them and leaves the loop. *)
Definition handle_response (st : RunState) (filename : Path) (r : Response)
    : Result RunState :=
  match r with
  | HttpResponse status_code content =>
      if status_code =? 200 then
        _ ← write_file filename content;
        Ok (mkRunState (downloaded_files st ++ [filename]) 0 (current st)
                       (<[name filename := content]> (files st)) (requested st))
      else if status_code =? 404 then
        Ok (mkRunState (downloaded_files st) (consecutive_404s st + 1) (current st)
                       (files st) (requested st))
      else Ok st
  | Timeout => Ok st
  | RequestException _ => Ok st
  end.

(** One iteration of the [while] body (lines 59 to 89). *)
Definition loop_body (st : RunState) : Result RunState :=
  p ← pattern_format (current st);
  let url := base_url +:+ p in
  let filename := filename_of (current st) in
  let response := responses (length (requested st)) in
  let st1 := mkRunState (downloaded_files st) (consecutive_404s st) (current st)
                        (files st) (requested st ++ [url]) in
  st2 ← handle_response st1 filename response;
  Ok (mkRunState (downloaded_files st2) (consecutive_404s st2) (current st2 + 1)
                 (files st2) (requested st2)).

(** The [while] loop; [None] when the fuel runs out before the guard fails. *)
Fixpoint while_loop (fuel : nat) (st : RunState) : option (Result RunState) :=
  if loop_guard st then
    match fuel with
    | O => None
    | S f =>
        match loop_body st with
        | Ok st' => while_loop f st'
        | Raise e => Some (Raise e)
        end
    end
  else Some (Ok st).

Definition download_images (fuel : nat) (fs : gmap string (list Byte.byte))
    (start : Z) (expected_count : option Z) : option (Result (list Path)) :=
  match while_loop fuel (init_state fs start) with
  | None => None
  | Some (Ok st) => Some (Ok (downloaded_files st))
  | Some (Raise e) => Some (Raise e)
  end.

(** [k] iterations of the body, whatever the guard says. *)
Fixpoint iterate (k : nat) (st : RunState) : Result RunState :=
  match k with
  | O => Ok st
  | S k' => st' ← loop_body st; iterate k' st'
  end.

(** The states at the head of the loop during a run. *)
Inductive reachable (fs : gmap string (list Byte.byte)) (start : Z) : RunState -> Prop :=
| reachable_init : reachable fs start (init_state fs start)
| reachable_step st st' :
    reachable fs start st -> loop_guard st = true -> loop_body st = Ok st' ->
    reachable fs start st'.

(** *** ImageDownloader.get_existing_images *)

Definition get_existing_images (fs : gmap string (list Byte.byte)) : list Path :=
  merge_sort path_le (mkPath output_dir <$> filter glob_jp2 (elements (dom fs))).

End Downloader.

(** ** The image library

    An image is its mode, its size and a record of the calls that made its
    pixels. *)

Inductive Pixels : Type :=
| FileData (p : Path)
| Resample (src : Pixels) (size : Z * Z)
| Fill (color : Z * Z * Z)
| Convert (target : string) (src : Pixels)
| LastBand (src : Pixels)
| Paste (dst src : Pixels)
| PasteMasked (dst src mask : Pixels)
| JpegData (data : list Byte.byte).

Record Image : Type := mkImage {
  mode : string;
  width : Z;
  height : Z;
  pixels : Pixels
}.

Definition size (img : Image) : Z * Z := (width img, height img).

(** [img.resize(new_size, LANCZOS)]; a side below one pixel is refused. *)
Definition resize (img : Image) (new_size : Z * Z) : Result Image :=
  if (1 <=? fst new_size) && (1 <=? snd new_size) then
    Ok (mkImage (mode img) (fst new_size) (snd new_size) (Resample (pixels img) new_size))
  else Raise ValueError.

(** [Image.new(mode, size, color)]. *)
Definition Image_new (m : string) (sz : Z * Z) (color : Z * Z * Z) : Image :=
  mkImage m (fst sz) (snd sz) (Fill color).

(** [img.convert(mode)]. *)
Definition convert (img : Image) (m : string) : Image :=
  mkImage m (width img) (height img) (Convert m (pixels img)).

(** [img.split()[-1]]: the last band, a single-channel image. *)
Definition split_last (img : Image) : Image :=
  mkImage "L" (width img) (height img) (LastBand (pixels img)).

(** [dst.paste(src, mask=mask)]: [dst] keeps its mode and size. *)
Definition paste (dst src : Image) (mask : option Image) : Image :=
  mkImage (mode dst) (width dst) (height dst)
          match mask with
          | Some m => PasteMasked (pixels dst) (pixels src) (pixels m)
          | None => Paste (pixels dst) (pixels src)
          end.

Definition mode_in (img : Image) (modes : list string) : bool :=
  existsb (String.eqb (mode img)) modes.

(** ** ImageDownloader.create_pdf *)

(** Lines 137 to 139: the size handed to [resize], [None] when the image is
    within bounds and [resize] is not called. *)
Definition new_size (max_dimension : Z) (img : Image) : Result (option (Z * Z)) :=
  if (max_dimension <? width img) || (max_dimension <? height img) then
    a ← int_truediv max_dimension (width img);
    b ← int_truediv max_dimension (height img);
    let ratio := float_min a b in
    pw ← int_mul_float (width img) ratio;
    w' ← int_of_float pw;
    ph ← int_mul_float (height img) ratio;
    h' ← int_of_float ph;
    Ok (Some (w', h'))
  else Ok None.

(** The size as the specification words it: both sides times the one factor,
    each rounded to the nearest integer pixel. *)
Definition new_size_spec (max_dimension : Z) (img : Image) : Result (option (Z * Z)) :=
  if (max_dimension <? width img) || (max_dimension <? height img) then
    a ← int_truediv max_dimension (width img);
    b ← int_truediv max_dimension (height img);
    let ratio := float_min a b in
    pw ← int_mul_float (width img) ratio;
    w' ← round_nearest pw;
    ph ← int_mul_float (height img) ratio;
    h' ← round_nearest ph;
    Ok (Some (w', h'))
  else Ok None.

(** Lines 137 to 140. *)
Definition resize_step (max_dimension : Z) (img : Image) : Result Image :=
  sz ← new_size max_dimension img;
  match sz with
  | Some s => resize img s
  | None => Ok img
  end.

(** Lines 143 to 150. *)
Definition to_rgb (img : Image) : Image :=
  if mode_in img ["RGBA"; "LA"; "P"] then
    let rgb_img := Image_new "RGB" (size img) (255, 255, 255) in
    let img := if String.eqb (mode img) "P" then convert img "RGBA" else img in
    let mask := if mode_in img ["RGBA"; "LA"] then Some (split_last img) else None in
    paste rgb_img img mask
  else if negb (String.eqb (mode img) "RGB") then convert img "RGB"
  else img.

(** What [create_pdf] prints. *)
Inductive Message : Type :=
| NoImagesToConvert
| CreatingPdf (count : nat) (max_dimension jpeg_quality : Z)
| Processing (i count : nat)
| Warning (p : Path) (e : Exn)
| NoValidImages
| CompressionReport (compression_ratio original_mb compressed_mb : float)
| SavingPdf (output_path : string)
| PdfCreated (output_path : string)
| FileSize (mb : float).

(** The document [images[0].save(..., save_all=True, append_images=...)]
    writes. *)
Record Pdf : Type := mkPdf {
  pages : list Image;
  pdf_quality : Z;
  pdf_resolution : Z
}.

(** The local variables of the loop of [create_pdf] and the console. *)
Record CompileState : Type := mkCompileState {
  images : list Image;
  total_original_size : Z;
  total_compressed_size : Z;
  console : list Message
}.

(** What a call of [create_pdf] that returns leaves behind; it returns [None]
    on every path. *)
Record PdfRun : Type := mkPdfRun {
  printed : list Message;
  written : option (string * Pdf)
}.

Section Compiler.

(** [Image.open(path)] on a file of the directory (what a path decodes to
    is given with the path), the size in bytes [path.stat().st_size], and the
    JPEG encoder behind [img.save]. *)
Variable image_open : Path -> Result Image.
Variable st_size : Path -> Z.
Variable jpeg_encode : Image -> Z -> Result (list Byte.byte).

(** [images[0].save(output_path, save_all=True, ...)] and, after it,
    [output_path.stat().st_size]: each returns or raises, and neither stands
    in a [try]. *)
Variable pdf_save : string -> Pdf -> Result unit.
Variable pdf_stat : string -> Result Z.

(** Lines 137 to 157, after the original size is counted: the page and the
    number of bytes of its JPEG form. *)
Definition compress (max_dimension jpeg_quality : Z) (img : Image)
    : Result (Image * Z) :=
  img ← resize_step max_dimension img;
  let img := to_rgb img in
  buffer ← jpeg_encode img jpeg_quality;
  Ok (mkImage "RGB" (width img) (height img) (JpegData buffer),
      Z.of_nat (length buffer)).

(** One iteration of the [for] loop (lines 128 to 161). *)
Definition process_image (max_dimension jpeg_quality : Z) (count : nat)
    (st : CompileState) (item : nat * Path) : CompileState :=
  let (i, img_path) := item in
  let out := console st ++ [Processing i count] in
  match image_open img_path with
  | Raise e =>
      mkCompileState (images st) (total_original_size st)
                     (total_compressed_size st) (out ++ [Warning img_path e])
  | Ok img =>
      let original := total_original_size st + st_size img_path in
      match compress max_dimension jpeg_quality img with
      | Raise e =>
          mkCompileState (images st) original (total_compressed_size st)
                         (out ++ [Warning img_path e])
      | Ok (page, nbytes) =>
          mkCompileState (images st ++ [page]) original
                         (total_compressed_size st + nbytes) out
      end
  end.

(** [enumerate(image_files, 1)]. *)
Definition enumerate1 (l : list Path) : list (nat * Path) :=
  combine (seq 1 (length l)) l.

(** Lines 168 to 172. *)
Definition report (st : CompileState) : Result (list Message) :=
  if 0 <? total_original_size st then
    q ← int_truediv (total_compressed_size st) (total_original_size st);
    d ← int_sub_float 1 q;
    compression_ratio ← float_mul_int d 100;
    o1 ← int_truediv (total_original_size st) 1024;
    o2 ← float_truediv_int o1 1024;
    c1 ← int_truediv (total_compressed_size st) 1024;
    c2 ← float_truediv_int c1 1024;
    Ok [CompressionReport compression_ratio o2 c2]
  else Ok [].

Definition create_pdf (image_files : list Path) (output_pdf : string)
    (max_dimension jpeg_quality : Z) : Result PdfRun :=
  match image_files with
  | [] => Ok (mkPdfRun [NoImagesToConvert] None)
  | _ =>
      let count := length image_files in
      let st0 := mkCompileState [] 0 0 [CreatingPdf count max_dimension jpeg_quality] in
      let st := fold_left (process_image max_dimension jpeg_quality count)
                          (enumerate1 image_files) st0 in
      match images st with
      | [] => Ok (mkPdfRun (console st ++ [NoValidImages]) None)
      | first :: rest =>
          lines ← report st;
          let doc := mkPdf (first :: rest) jpeg_quality 100 in
          _ ← pdf_save output_pdf doc;
          nbytes ← pdf_stat output_pdf;
          kb ← int_truediv nbytes 1024;
          mb ← float_truediv_int kb 1024;
          Ok (mkPdfRun (console st ++ lines ++
                          [SavingPdf output_pdf; PdfCreated output_pdf; FileSize mb])
                       (Some (output_pdf, doc)))
      end
  end.

(** The pages a call of [create_pdf] holds when its loop is over. *)
Definition page_sequence (image_files : list Path) (max_dimension jpeg_quality : Z)
    : list Image :=
  images (fold_left (process_image max_dimension jpeg_quality (length image_files))
                    (enumerate1 image_files)
                    (mkCompileState [] 0 0
                       [CreatingPdf (length image_files) max_dimension jpeg_quality])).

(** The state of the loop of [create_pdf] when it is over. *)
Definition final_state (image_files : list Path) (max_dimension jpeg_quality : Z)
    : CompileState :=
  fold_left (process_image max_dimension jpeg_quality (length image_files))
            (enumerate1 image_files)
            (mkCompileState [] 0 0
               [CreatingPdf (length image_files) max_dimension jpeg_quality]).

(** What the [try] block does with one path: the page and the number of
    bytes of its JPEG form, or the exception that skips the path. *)
Definition process_path (max_dimension jpeg_quality : Z) (p : Path)
    : Result (Image * Z) :=
  img ← image_open p;
  compress max_dimension jpeg_quality img.

Definition opens (p : Path) : bool :=
  match image_open p with
  | Ok _ => true
  | Raise _ => false
  end.

Definition succeeds (max_dimension jpeg_quality : Z) (p : Path) : bool :=
  match process_path max_dimension jpeg_quality p with
  | Ok _ => true
  | Raise _ => false
  end.

Definition page_of (max_dimension jpeg_quality : Z) (p : Path) : option (Image * Z) :=
  match process_path max_dimension jpeg_quality p with
  | Ok r => Some r
  | Raise _ => None
  end.

End Compiler.

(** The paths that the warnings of a console name, in order. *)
Definition warned_paths (msgs : list Message) : list Path :=
  omap (fun m => match m with Warning p _ => Some p | _ => None end) msgs.

(** The sum of a list of integers. *)
Definition sum_Z (l : list Z) : Z := foldr Z.add 0 l.

(** ** main *)

Record Args : Type := mkArgs {
  skip_download : bool;
  arg_output_dir : string;
  arg_output_pdf : string;
  arg_max_dimension : Z;
  arg_quality : Z
}.

Definition BASE_URL : string :=
  "https://tile.loc.gov/storage-services/service/gmd/gmd382m/g3823m/g3823cm/gct00034/".

(** [PATTERN.format(number=i)] for [PATTERN = "ca{number:06d}.jp2"]. *)
Definition PATTERN_format (i : Z) : Result string :=
  Ok ("ca" +:+ format_06d i +:+ ".jp2").

Definition EXPECTED_COUNT : Z := 162.

(** How the process ends: its exit status and what [create_pdf] did, if it
    was called and returned. *)
Record Exit : Type := mkExit {
  status : Z;
  pdf_run : option PdfRun
}.

Section Main.

(** [mkdir d] is the outcome of [Path(d).mkdir(exist_ok=True)], the last
    statement of [__init__]. *)
Variable mkdir : string -> Result unit.
Variable responses : nat -> Response.
Variable write_file : Path -> list Byte.byte -> Result unit.
Variable image_open : Path -> Result Image.
Variable st_size : Path -> Z.
Variable jpeg_encode : Image -> Z -> Result (list Byte.byte).
Variable pdf_save : string -> Pdf -> Result unit.
Variable pdf_stat : string -> Result Z.

(** [ImageDownloader(base_url, pattern, output_dir, max_consecutive_404s)]:
    the fields are the arguments, and the directory is made. *)
Definition ImageDownloader_init (output_dir : string) : Result unit :=
  mkdir output_dir.

(** Lines 258 to 264; an exception that nothing catches ends the process
    with status 1. *)
Definition compile (args : Args) (image_files : list Path) : Exit :=
  match create_pdf image_open st_size jpeg_encode pdf_save pdf_stat image_files
          (arg_output_pdf args) (arg_max_dimension args) (arg_quality args) with
  | Ok run => mkExit 0 (Some run)
  | Raise _ => mkExit 1 None
  end.

(** [main] from line 227 on: [args] is the namespace [parse_args] has
    returned. [fs] holds the files of the output directory when the process
    starts; the result is [None] when the fuel of the download loop runs
    out. *)
Definition main (fuel : nat) (args : Args) (fs : gmap string (list Byte.byte))
    : option Exit :=
  match ImageDownloader_init (arg_output_dir args) with
  | Raise _ => Some (mkExit 1 None)
  | Ok _ =>
      if skip_download args then
        let image_files := get_existing_images (arg_output_dir args) fs in
        match image_files with
        | [] => Some (mkExit 1 None)
        | _ => Some (compile args image_files)
        end
      else
        match download_images BASE_URL PATTERN_format write_file (arg_output_dir args) 5
                responses fuel fs 1 (Some EXPECTED_COUNT) with
        | None => None
        | Some (Raise _) => Some (mkExit 1 None)
        | Some (Ok []) => Some (mkExit 1 None)
        | Some (Ok image_files) => Some (compile args image_files)
        end
  end.

End Main.

(** ** Sample runs *)

(** A server that answers 500, 404, 500, 404, ... *)
Definition alternating_500_404 (k : nat) : Response :=
  if Nat.even k then HttpResponse 500 [] else HttpResponse 404 [].

Definition always_500 (k : nat) : Response := HttpResponse 500 [].

(** A server that answers with the listed status codes, then 404 for ever. *)
Definition answers (l : list Z) (k : nat) : Response :=
  match l !! k with
  | Some c => HttpResponse c []
  | None => HttpResponse 404 []
  end.

(** The state in which the run from index 1 against the answers 200, 404,
    200, 404, 404 returns, with the threshold 2 and an empty directory. *)
Definition sample_final_state : RunState :=
  mkRunState
    [filename_of "downloaded_images" 1; filename_of "downloaded_images" 3]
    2 6
    (<["image_000003.jp2" := []]> (<["image_000001.jp2" := []]> ∅))
    [BASE_URL +:+ "ca000001.jp2"; BASE_URL +:+ "ca000002.jp2";
     BASE_URL +:+ "ca000003.jp2"; BASE_URL +:+ "ca000004.jp2";
     BASE_URL +:+ "ca000005.jp2"].

(** A directory that can be made, a PDF that can be saved, and its size. *)
Definition makes_dir (d : string) : Result unit := Ok tt.

Definition saves_pdf (output_path : string) (doc : Pdf) : Result unit := Ok tt.

Definition pdf_of_2048_bytes (output_path : string) : Result Z := Ok 2048.

(** A disk that refuses the PDF. *)
Definition refuses_pdf (output_path : string) (doc : Pdf) : Result unit :=
  Raise (OSError 2).

(** A disk that takes every write, and one that takes none. *)
Definition writes_succeed (p : Path) (content : list Byte.byte) : Result unit := Ok tt.

Definition writes_fail (p : Path) (content : list Byte.byte) : Result unit :=
  Raise (OSError 28).

(** An image library that reads no file, and an encoder of empty output. *)
Definition undecodable (p : Path) : Result Image := Raise DecodeError.

Definition no_size (p : Path) : Z := 0.

Definition empty_jpeg (img : Image) (quality : Z) : Result (list Byte.byte) := Ok [].

(** A decoded tile of the given size. *)
Definition sample_image (w h : Z) : Image :=
  mkImage "RGB" w h (FileData (mkPath "downloaded_images" "image_000001.jp2")).

(** An image library that reads every file but the second as a tile of 3000
    by 2000, file sizes of 1000 bytes, and an encoder of two bytes. *)
Definition sample_open (p : Path) : Result Image :=
  if String.eqb (name p) "image_000002.jp2" then Raise DecodeError
  else Ok (sample_image 3000 2000).

Definition sample_size (p : Path) : Z := 1000.

Definition sample_jpeg (img : Image) (quality : Z) : Result (list Byte.byte) :=
  Ok [Byte.x00; Byte.x01].

Definition sample_paths : list Path :=
  [mkPath "downloaded_images" "image_000001.jp2";
   mkPath "downloaded_images" "image_000002.jp2";
   mkPath "downloaded_images" "image_000003.jp2"].

(** The command line [--skip-download] with the defaults. *)
Definition skip_download_args : Args :=
  mkArgs true "downloaded_images" "library_of_congress_images.pdf" 2000 85.

(** * Properties *)

(** ** The counter as a function of the answers *)

Section CounterFacts.

Variable responses : nat -> Response.

Lemma counter_after_nonneg k : 0 <= counter_after responses k.
Proof.
  induction k as [|k IH]; simpl; [lia|].
  destruct (status_of (responses k)) as [c|]; [|exact IH].
  destruct c as [|c|c]; try exact IH.
  repeat (destruct c as [c|c|]; try exact IH; try lia).
Qed.

Lemma counter_after_S k :
  counter_after responses (S k) =
    if decide (status_of (responses k) = Some 200) then 0
    else if decide (status_of (responses k) = Some 404)
         then counter_after responses k + 1
         else counter_after responses k.
Proof.
  simpl. destruct (status_of (responses k)) as [c|].
  - destruct (decide (Some c = Some 200)) as [E|E].
    + injection E as ->. reflexivity.
    + destruct (decide (Some c = Some 404)) as [E'|E'].
      * injection E' as ->. reflexivity.
      * destruct c as [|c|c]; try reflexivity.
        repeat (destruct c as [c|c|]; try reflexivity; try congruence).
  - destruct (decide (None = Some 200)); [discriminate|].
    destruct (decide (None = Some 404)); [discriminate|reflexivity].
Qed.

Lemma counter_after_step k :
  counter_after responses (S k) <= counter_after responses k + 1.
Proof.
  rewrite counter_after_S. pose proof (counter_after_nonneg k).
  repeat case_decide; lia.
Qed.

Lemma count_404_nonneg i n : 0 <= count_404 responses i n.
Proof.
  revert i. induction n as [|n IH]; intros i; simpl; [lia|].
  specialize (IH (S i)). case_decide; lia.
Qed.

Lemma count_404_snoc n : forall i,
  count_404 responses i (S n) =
    count_404 responses i n
    + (if decide (status_of (responses (i + n)%nat) = Some 404) then 1 else 0).
Proof.
  induction n as [|n IH]; intros i.
  - simpl. rewrite Nat.add_0_r. lia.
  - change (count_404 responses i (S (S n)))
      with ((if decide (status_of (responses i) = Some 404) then 1 else 0)
            + count_404 responses (S i) (S n)).
    rewrite IH. simpl. replace (S (i + n)) with (i + S n)%nat by lia. lia.
Qed.

(** Over a stretch without a 200 the counter grows by the number of 404s. *)
Lemma counter_after_window n : forall i,
  no_200 responses i n ->
  counter_after responses (i + n) =
    counter_after responses i + count_404 responses i n.
Proof.
  induction n as [|n IH]; intros i H.
  - simpl. rewrite Nat.add_0_r. lia.
  - replace (i + S n)%nat with (S (i + n)) by lia.
    rewrite counter_after_S, count_404_snoc.
    assert (H1 : no_200 responses i n) by (intros k Hk; apply H; lia).
    specialize (H (i + n)%nat ltac:(lia)).
    rewrite (IH i H1). repeat case_decide; try contradiction; lia.
Qed.

(** The counter is the number of 404s since the last 200. *)
Lemma counter_after_since_200 k :
  exists i, (i <= k)%nat /\ no_200 responses i (k - i) /\
    counter_after responses k = count_404 responses i (k - i).
Proof.
  induction k as [|k (i & Hi & Hno & Hc)].
  - exists O. split; [lia|]. split; [intros j Hj; lia | reflexivity].
  - rewrite counter_after_S.
    destruct (decide (status_of (responses k) = Some 200)) as [E|E].
    + exists (S k). rewrite Nat.sub_diag. split; [lia|]. split; [|reflexivity].
      intros j Hj; lia.
    + exists i. replace (S k - i)%nat with (S (k - i)) by lia.
      rewrite count_404_snoc. replace (i + (k - i))%nat with k by lia.
      split; [lia|]. split.
      * intros j Hj. destruct (decide (j = k)) as [->|Hne]; [exact E|].
        apply Hno. lia.
      * rewrite Hc. case_decide; lia.
Qed.

Lemma counter_reaches_iff (threshold : Z) :
  (exists k, threshold <= counter_after responses k) <->
  (exists i n, no_200 responses i n /\ threshold <= count_404 responses i n).
Proof.
  split.
  - intros (k & Hk). destruct (counter_after_since_200 k) as (i & Hi & Hno & Hc).
    exists i, (k - i)%nat. split; [exact Hno | lia].
  - intros (i & n & Hno & Hc). exists (i + n)%nat.
    rewrite (counter_after_window n i Hno). pose proof (counter_after_nonneg i). lia.
Qed.

Lemma saved_indices_S start k :
  saved_indices responses start (S k) =
    if decide (status_of (responses k) = Some 200)
    then saved_indices responses start k ++ [start + Z.of_nat k]
    else saved_indices responses start k.
Proof.
  unfold saved_indices. rewrite seq_S, filter_app, fmap_app. simpl.
  rewrite filter_cons, filter_nil.
  destruct (decide (status_of (responses k) = Some 200)); simpl;
    [reflexivity | apply app_nil_r].
Qed.

Lemma saved_indices_none start k :
  (forall j, (j < k)%nat -> status_of (responses j) <> Some 200) ->
  saved_indices responses start k = [].
Proof.
  induction k as [|k IH]; intros H; [reflexivity|].
  rewrite saved_indices_S. rewrite decide_False by (apply H; lia).
  apply IH. intros j Hj. apply H. lia.
Qed.

(** The saved indices grow with the iterations and stay below the cursor. *)
Lemma saved_indices_sorted start k :
  StronglySorted Z.lt (saved_indices responses start k) /\
  Forall (fun i => start <= i < start + Z.of_nat k) (saved_indices responses start k).
Proof.
  induction k as [|k [IHs IHb]].
  - split; constructor.
  - rewrite saved_indices_S. case_decide.
    + split.
      * apply StronglySorted_app. split; [|split; [exact IHs | repeat constructor]].
        intros x y Hx Hy. apply list_elem_of_singleton in Hy. subst y.
        rewrite Forall_forall in IHb. specialize (IHb x Hx). lia.
      * apply Forall_app. split.
        -- eapply Forall_impl; [exact IHb|]. simpl. intros; lia.
        -- repeat constructor; lia.
    + split; [exact IHs|]. eapply Forall_impl; [exact IHb|]. simpl. intros; lia.
Qed.

End CounterFacts.

(** Counter and saved indices depend on the status codes only. *)
Lemma counter_after_ext (r1 r2 : nat -> Response) (n : nat) :
  (forall k, (k < n)%nat -> status_of (r1 k) = status_of (r2 k)) ->
  counter_after r1 n = counter_after r2 n.
Proof.
  induction n as [|n IH]; intros H; [reflexivity|].
  rewrite !counter_after_S, (H n) by lia. rewrite IH by (intros k Hk; apply H; lia).
  reflexivity.
Qed.

Lemma saved_indices_ext (r1 r2 : nat -> Response) (start : Z) (n : nat) :
  (forall k, (k < n)%nat -> status_of (r1 k) = status_of (r2 k)) ->
  saved_indices r1 start n = saved_indices r2 start n.
Proof.
  induction n as [|n IH]; intros H; [reflexivity|].
  rewrite !saved_indices_S, (H n) by lia. rewrite IH by (intros k Hk; apply H; lia).
  reflexivity.
Qed.

Lemma statuses_start_answers (l : list Z) (responses : nat -> Response) (k : nat) :
  statuses_start l responses -> (k < length l)%nat ->
  status_of (responses k) = status_of (answers l k).
Proof.
  intros H Hk. destruct (lookup_lt_is_Some_2 l k Hk) as [c Hc].
  rewrite (H k c Hc). unfold answers. rewrite Hc. reflexivity.
Qed.

(** ** The download loop *)

Section DownloaderFacts.

Variable base_url : string.
Variable pattern_format : Z -> Result string.
Variable write_file : Path -> list Byte.byte -> Result unit.
Variable output_dir : string.
Variable max_consecutive_404s : Z.
Variable responses : nat -> Response.

Local Abbreviation guard := (loop_guard max_consecutive_404s).
Local Abbreviation body := (loop_body base_url pattern_format write_file output_dir responses).
Local Abbreviation while := (while_loop base_url pattern_format write_file output_dir
                              max_consecutive_404s responses).
Local Abbreviation fname := (filename_of output_dir).

Lemma guard_false_iff st :
  guard st = false <-> max_consecutive_404s <= consecutive_404s st.
Proof. unfold loop_guard. rewrite Z.ltb_ge. reflexivity. Qed.

Lemma guard_true_iff st :
  guard st = true <-> consecutive_404s st < max_consecutive_404s.
Proof. unfold loop_guard. apply Z.ltb_lt. Qed.

Lemma while_stop fuel st :
  guard st = false -> while fuel st = Some (Ok st).
Proof. intros H. destruct fuel; simpl; rewrite H; reflexivity. Qed.

Lemma while_continue fuel st :
  guard st = true ->
  while (S fuel) st =
    match body st with
    | Ok st' => while fuel st'
    | Raise e => Some (Raise e)
    end.
Proof. intros H. simpl. rewrite H. reflexivity. Qed.

Lemma while_out_of_fuel st : guard st = true -> while O st = None.
Proof. intros H. simpl. rewrite H. reflexivity. Qed.

(** A loop that returns does so in a state where the guard fails. *)
Lemma while_returns_guard fuel : forall st st',
  while fuel st = Some (Ok st') -> guard st' = false.
Proof.
  induction fuel as [|fuel IH]; intros st st' H; simpl in H;
    destruct (guard st) eqn:G; try discriminate.
  - congruence.
  - destruct (body st) as [st1|e]; [eauto | discriminate].
  - congruence.
Qed.

(** More fuel does not change a result. *)
Lemma while_fuel_mono fuel : forall st r fuel',
  while fuel st = Some r -> (fuel <= fuel')%nat -> while fuel' st = Some r.
Proof.
  induction fuel as [|fuel IH]; intros st r fuel' H Hle; simpl in H;
    destruct (guard st) eqn:G; try discriminate.
  - rewrite while_stop by assumption. assumption.
  - destruct fuel' as [|fuel']; [lia|].
    rewrite while_continue by assumption.
    destruct (body st) as [st1|e]; [apply IH; [assumption | lia] | assumption].
  - rewrite while_stop by assumption. assumption.
Qed.

(** The three ways an answer is handled. *)
Lemma handle_response_cases st filename r :
  (exists content,
     r = HttpResponse 200 content /\
     handle_response write_file st filename r =
       (_ ← write_file filename content;
        Ok (mkRunState (downloaded_files st ++ [filename]) 0 (current st)
                       (<[name filename := content]> (files st)) (requested st)))) \/
  (status_of r = Some 404 /\
   handle_response write_file st filename r =
     Ok (mkRunState (downloaded_files st) (consecutive_404s st + 1) (current st)
                    (files st) (requested st))) \/
  (status_of r <> Some 200 /\ status_of r <> Some 404 /\
   handle_response write_file st filename r = Ok st).
Proof.
  destruct r as [c content| |e]; simpl.
  - destruct (c =? 200) eqn:E200.
    + apply Z.eqb_eq in E200. subst c. left. exists content. split; reflexivity.
    + destruct (c =? 404) eqn:E404.
      * apply Z.eqb_eq in E404. subst c. right. left. split; reflexivity.
      * apply Z.eqb_neq in E200. apply Z.eqb_neq in E404.
        right. right. repeat split; congruence.
  - right. right. repeat split; discriminate.
  - right. right. repeat split; discriminate.
Qed.


Lemma status_match_other {A} (s : option Z) (x y z : A) :
  s <> Some 200 -> s <> Some 404 ->
  match s with Some 200 => x | Some 404 => y | _ => z end = z.
Proof.
  intros N200 N404. destruct s as [c|]; [|reflexivity].
  destruct c as [|c|c]; try reflexivity.
  repeat (destruct c as [c|c|]; try reflexivity; try congruence).
Qed.

(** The effect of an answer that is handled without an exception. *)
Lemma handle_response_ok st filename r st2 :
  handle_response write_file st filename r = Ok st2 ->
  consecutive_404s st2 =
    match status_of r with
    | Some 200 => 0
    | Some 404 => consecutive_404s st + 1
    | _ => consecutive_404s st
    end /\
  downloaded_files st2 =
    (if decide (status_of r = Some 200) then downloaded_files st ++ [filename]
     else downloaded_files st) /\
  dom (files st2) =
    (if decide (status_of r = Some 200) then {[name filename]} ∪ dom (files st)
     else dom (files st)) /\
  files st2 =
    match r with
    | HttpResponse status_code content =>
        if status_code =? 200 then <[name filename := content]> (files st)
        else files st
    | _ => files st
    end /\
  current st2 = current st /\
  requested st2 = requested st /\
  (forall content, r = HttpResponse 200 content -> write_file filename content = Ok tt).
Proof.
  destruct (handle_response_cases st filename r)
    as [(content & -> & ->)|[(H404 & ->)|(N200 & N404 & ->)]].
  - destruct (write_file filename content) as [[]|e'] eqn:W; simpl; [|discriminate].
    intros H. injection H as <-. simpl.
    repeat split; try reflexivity.
    + apply dom_insert_L.
    + intros content' E. injection E as <-. exact W.
  - intros H. injection H as <-. rewrite H404.
    rewrite !decide_False by discriminate. simpl.
    repeat split; try reflexivity.
    + destruct r as [c content| |e]; try discriminate. simpl in H404.
      injection H404 as ->. reflexivity.
    + intros content ->. discriminate.
  - intros H. injection H as <-.
    rewrite (status_match_other _ _ _ _ N200 N404), !decide_False by exact N200.
    repeat split; try reflexivity.
    + destruct r as [c content| |e]; try reflexivity.
      destruct (c =? 200) eqn:E; [|reflexivity].
      apply Z.eqb_eq in E. subst c. contradiction N200. reflexivity.
    + intros content ->. contradiction N200. reflexivity.
Qed.

Lemma body_ok_inv st st' :
  body st = Ok st' ->
  current st' = current st + 1 /\
  requested st' <> [] /\
  length (requested st') = S (length (requested st)) /\
  consecutive_404s st' =
    match status_of (responses (length (requested st))) with
    | Some 200 => 0
    | Some 404 => consecutive_404s st + 1
    | _ => consecutive_404s st
    end /\
  downloaded_files st' =
    (if decide (status_of (responses (length (requested st))) = Some 200)
     then downloaded_files st ++ [fname (current st)]
     else downloaded_files st) /\
  dom (files st') =
    (if decide (status_of (responses (length (requested st))) = Some 200)
     then {[name (fname (current st))]} ∪ dom (files st)
     else dom (files st)).
Proof.
  unfold loop_body. destruct (pattern_format (current st)) as [p|e]; simpl;
    [|discriminate].
  match goal with
  | |- context [handle_response write_file ?s ?f ?r] =>
      destruct (handle_response write_file s f r) as [st2|e] eqn:H2
  end; simpl; [|discriminate].
  apply handle_response_ok in H2.
  destruct H2 as (H1 & H3 & H4 & _ & H5 & H6 & _). simpl in *.
  intros H. injection H as <-. simpl.
  rewrite H1, H3, H4, H5, H6, length_app. simpl.
  repeat split; try reflexivity; try lia.
  destruct (requested st); discriminate.
Qed.

Lemma iterate_S_r k : forall st,
  iterate base_url pattern_format write_file output_dir responses (S k) st =
    (st' ← iterate base_url pattern_format write_file output_dir responses k st; body st').
Proof.
  induction k as [|k IH]; intros st.
  - simpl. destruct (body st); reflexivity.
  - change (iterate base_url pattern_format write_file output_dir responses (S (S k)) st)
      with (st' ← body st;
            iterate base_url pattern_format write_file output_dir responses (S k) st').
    change (iterate base_url pattern_format write_file output_dir responses (S k) st)
      with (st' ← body st;
            iterate base_url pattern_format write_file output_dir responses k st').
    destruct (body st) as [st1|e]; simpl; [apply IH | reflexivity].
Qed.

(** The loop returns in [st'] exactly when [st'] is the first state of the
    iteration where the guard fails. *)
Lemma while_returns_iff fuel : forall st st',
  while fuel st = Some (Ok st') <->
  exists k, (k <= fuel)%nat /\
    iterate base_url pattern_format write_file output_dir responses k st = Ok st' /\
    guard st' = false /\
    forall j, (j < k)%nat -> exists stj,
      iterate base_url pattern_format write_file output_dir responses j st = Ok stj /\
      guard stj = true.
Proof.
  induction fuel as [|fuel IH]; intros st st'.
  - split.
    + intros H. simpl in H. destruct (guard st) eqn:G; [discriminate|].
      injection H as <-. exists O. repeat split; [lia | assumption | intros; lia].
    + intros (k & Hk & Hit & Hg & _). assert (k = O) by lia. subst k.
      simpl in Hit. injection Hit as <-. apply while_stop. assumption.
  - split.
    + intros H. destruct (guard st) eqn:G.
      * rewrite while_continue in H by assumption.
        destruct (body st) as [st1|e] eqn:B; [|discriminate].
        apply IH in H. destruct H as (k & Hk & Hit & Hg & Hlt).
        exists (S k). repeat split; [lia | simpl; rewrite B; exact Hit | exact Hg |].
        intros [|j] Hj.
        -- exists st. split; [reflexivity | assumption].
        -- destruct (Hlt j ltac:(lia)) as (stj & Hj1 & Hj2).
           exists stj. split; [simpl; rewrite B; exact Hj1 | exact Hj2].
      * rewrite while_stop in H by assumption. injection H as <-.
        exists O. repeat split; [lia | assumption | intros; lia].
    + intros (k & Hk & Hit & Hg & Hlt). destruct k as [|k].
      * simpl in Hit. injection Hit as <-. apply while_stop. assumption.
      * destruct (Hlt O ltac:(lia)) as (st0 & H0 & G0). simpl in H0.
        injection H0 as <-.
        rewrite while_continue by assumption.
        simpl in Hit. destruct (body st) as [st1|e] eqn:B; [|discriminate].
        apply IH. exists k. repeat split; [lia | exact Hit | exact Hg |].
        intros j Hj. destruct (Hlt (S j) ltac:(lia)) as (stj & Hj1 & Hj2).
        exists stj. split; [|exact Hj2]. simpl in Hj1. rewrite B in Hj1. exact Hj1.
Qed.

(** The fuel runs out exactly when the guard holds along the iteration. *)
Lemma while_none_iff fuel : forall st,
  while fuel st = None <->
  forall j, (j <= fuel)%nat -> exists stj,
    iterate base_url pattern_format write_file output_dir responses j st = Ok stj /\
    guard stj = true.
Proof.
  induction fuel as [|fuel IH]; intros st.
  - split.
    + intros H j Hj. assert (j = O) by lia. subst j. simpl in H.
      destruct (guard st) eqn:G; [|discriminate].
      exists st. split; [reflexivity | assumption].
    + intros H. destruct (H O ltac:(lia)) as (st0 & H0 & G0).
      simpl in H0. injection H0 as <-. apply while_out_of_fuel. assumption.
  - split.
    + intros H. destruct (guard st) eqn:G.
      * rewrite while_continue in H by assumption.
        destruct (body st) as [st1|e] eqn:B; [|discriminate].
        intros [|j] Hj.
        -- exists st. split; [reflexivity | assumption].
        -- destruct (proj1 (IH st1) H j ltac:(lia)) as (stj & Hj1 & Hj2).
           exists stj. split; [simpl; rewrite B; exact Hj1 | exact Hj2].
      * rewrite while_stop in H by assumption. discriminate.
    + intros H. destruct (H O ltac:(lia)) as (st0 & H0 & G0).
      simpl in H0. injection H0 as <-.
      rewrite while_continue by assumption.
      destruct (H 1%nat ltac:(lia)) as (st1 & H1 & _). simpl in H1.
      destruct (body st) as [st1'|e] eqn:B; [|discriminate].
      apply IH. intros j Hj. destruct (H (S j) ltac:(lia)) as (stj & Hj1 & Hj2).
      exists stj. split; [|exact Hj2]. simpl in Hj1. rewrite B in Hj1. exact Hj1.
Qed.

Section WellFormedPattern.

(** The pattern formats every index, as [PATTERN] of [main] does, and the
    body of every answer with status 200 can be written. *)
Hypothesis format_ok : forall i, exists p, pattern_format i = Ok p.
Hypothesis write_ok :
  forall k content filename,
    responses k = HttpResponse 200 content -> write_file filename content = Ok tt.

Lemma body_total st : exists st', body st = Ok st'.
Proof.
  unfold loop_body. destruct (format_ok (current st)) as [p ->]. simpl.
  match goal with
  | |- context [handle_response write_file ?s ?f ?r] =>
      destruct (handle_response_cases s f r)
        as [(content & E & ->)|[(_ & ->)|(_ & _ & ->)]]
  end; simpl; eauto.
  rewrite (write_ok _ _ _ E). simpl. eauto.
Qed.

(** The state after [k] iterations from the initial state. *)
Lemma iterate_init fs start k :
  exists st,
    iterate base_url pattern_format write_file output_dir responses k (init_state fs start) = Ok st /\
    consecutive_404s st = counter_after responses k /\
    current st = start + Z.of_nat k /\
    length (requested st) = k /\
    downloaded_files st = fname <$> saved_indices responses start k /\
    dom (files st) =
      dom fs ∪ list_to_set (name <$> (fname <$> saved_indices responses start k)).
Proof.
  induction k as [|k (st & Hit & Hc & Hcur & Hreq & Hdl & Hdom)].
  - exists (init_state fs start). simpl. repeat split; try lia.
    unfold saved_indices. simpl. rewrite union_empty_r_L. reflexivity.
  - destruct (body_total st) as [st' B].
    exists st'. rewrite iterate_S_r, Hit. simpl. split; [exact B|].
    apply body_ok_inv in B. destruct B as (B1 & _ & B3 & B4 & B5 & B6).
    rewrite Hreq in B3, B4, B5, B6. rewrite Hc in B4.
    pose proof (saved_indices_S responses start k) as Hsaved.
    repeat split; [exact B4 | lia | exact B3 | |].
    + rewrite B5, Hsaved, Hdl, Hcur.
      destruct (decide (status_of (responses k) = Some 200));
        [rewrite fmap_app; reflexivity | reflexivity].
    + rewrite B6, Hsaved, Hdom, Hcur.
      destruct (decide (status_of (responses k) = Some 200)); [|reflexivity].
      rewrite !fmap_app, list_to_set_app_L. simpl.
      rewrite union_empty_r_L, (union_comm_L {[_]}), union_assoc_L. reflexivity.
Qed.

Lemma while_init_returns_iff fs start fuel :
  (exists st, while fuel (init_state fs start) = Some (Ok st)) <->
  exists k, (k <= fuel)%nat /\ max_consecutive_404s <= counter_after responses k.
Proof.
  split.
  - intros (st & H). apply while_returns_iff in H.
    destruct H as (k & Hk & Hit & Hg & _). exists k. split; [exact Hk|].
    destruct (iterate_init fs start k) as (st1 & Hit1 & Hc & _).
    rewrite Hit in Hit1. injection Hit1 as <-.
    rewrite <- Hc. apply guard_false_iff. exact Hg.
  - intros (k & Hk & Hc).
    destruct (while fuel (init_state fs start)) as [[st|e]|] eqn:W.
    + eauto.
    + exfalso. revert W. generalize (init_state fs start). clear -format_ok write_ok.
      induction fuel as [|fuel IH]; intros st W; simpl in W;
        destruct (guard st); try discriminate.
      destruct (body_total st) as [st' B]. rewrite B in W. eauto.
    + exfalso. destruct (proj1 (while_none_iff fuel _) W k Hk) as (stk & Hit & Hg).
      destruct (iterate_init fs start k) as (st1 & Hit1 & Hc1 & _).
      rewrite Hit in Hit1. injection Hit1 as <-.
      apply guard_true_iff in Hg. lia.
Qed.

Lemma while_init_none_iff fs start fuel :
  while fuel (init_state fs start) = None <->
  forall k, (k <= fuel)%nat -> counter_after responses k < max_consecutive_404s.
Proof.
  rewrite while_none_iff. split.
  - intros H k Hk. destruct (H k Hk) as (stk & Hit & Hg).
    destruct (iterate_init fs start k) as (st1 & Hit1 & Hc1 & _).
    rewrite Hit in Hit1. injection Hit1 as <-.
    apply guard_true_iff in Hg. lia.
  - intros H k Hk. destruct (iterate_init fs start k) as (st1 & Hit1 & Hc1 & _).
    exists st1. split; [exact Hit1|]. apply guard_true_iff. rewrite Hc1. auto.
Qed.

(** A returning run is the iteration up to the first index where the
    counter reaches the threshold. *)
Lemma while_init_returns_inv fs start fuel st :
  while fuel (init_state fs start) = Some (Ok st) ->
  exists k, (k <= fuel)%nat /\
    iterate base_url pattern_format write_file output_dir responses k (init_state fs start) = Ok st /\
    (forall j, (j < k)%nat -> counter_after responses j < max_consecutive_404s) /\
    max_consecutive_404s <= counter_after responses k.
Proof.
  intros H. apply while_returns_iff in H. destruct H as (k & Hk & Hit & Hg & Hlt).
  exists k. split; [exact Hk|]. split; [exact Hit|]. split.
  - intros j Hj. destruct (Hlt j Hj) as (stj & Hj1 & Hj2).
    destruct (iterate_init fs start j) as (st1 & Hit1 & Hc1 & _).
    rewrite Hj1 in Hit1. injection Hit1 as <-.
    apply guard_true_iff in Hj2. lia.
  - destruct (iterate_init fs start k) as (st1 & Hit1 & Hc1 & _).
    rewrite Hit in Hit1. injection Hit1 as <-.
    apply guard_false_iff in Hg. lia.
Qed.

Lemma while_init_first_stop fs start k :
  (forall j, (j < k)%nat -> counter_after responses j < max_consecutive_404s) ->
  max_consecutive_404s <= counter_after responses k ->
  exists st,
    while k (init_state fs start) = Some (Ok st) /\
    iterate base_url pattern_format write_file output_dir responses k (init_state fs start) = Ok st.
Proof.
  intros Hlt Hk. destruct (iterate_init fs start k) as (st & Hit & Hc & _).
  exists st. split; [|exact Hit]. apply while_returns_iff. exists k.
  split; [lia|]. split; [exact Hit|]. split.
  - apply guard_false_iff. lia.
  - intros j Hj. destruct (iterate_init fs start j) as (stj & Hitj & Hcj & _).
    exists stj. split; [exact Hitj|]. apply guard_true_iff. rewrite Hcj. auto.
Qed.

(** Every state at the head of the loop is a state of the iteration. *)
Lemma reachable_iterate fs start st :
  reachable base_url pattern_format write_file output_dir max_consecutive_404s responses fs start st ->
  exists k,
    iterate base_url pattern_format write_file output_dir responses k (init_state fs start) = Ok st.
Proof.
  induction 1 as [|st st' _ (k & Hk) _ B].
  - exists O. reflexivity.
  - exists (S k). rewrite iterate_S_r, Hk. exact B.
Qed.

End WellFormedPattern.

End DownloaderFacts.

(** ** Claims on the download loop *)

(** C10. With a threshold that is zero or negative the guard fails on entry:
    whatever the base URL, the pattern, the start index and the fuel, the loop
    returns its initial state, whose request log is empty and whose directory
    is untouched, and [download_images] returns the empty list. *)
Theorem C10_nonpositive_threshold_no_request
    (base_url : string) (pattern_format : Z -> Result string)
    (write_file : Path -> list Byte.byte -> Result unit) (output_dir : string)
    (max_consecutive_404s : Z) (responses : nat -> Response)
    (fuel : nat) (fs : gmap string (list Byte.byte)) (start : Z)
    (expected_count : option Z) :
  max_consecutive_404s <= 0 ->
  (exists st,
     while_loop base_url pattern_format write_file output_dir max_consecutive_404s responses
       fuel (init_state fs start) = Some (Ok st) /\
     requested st = [] /\ files st = fs /\ downloaded_files st = []) /\
  download_images base_url pattern_format write_file output_dir max_consecutive_404s responses
    fuel fs start expected_count = Some (Ok []).
Proof.
  intros Hmax.
  assert (G : loop_guard max_consecutive_404s (init_state fs start) = false).
  { apply guard_false_iff. simpl. exact Hmax. }
  pose proof (while_stop base_url pattern_format write_file output_dir max_consecutive_404s
                responses fuel _ G) as W.
  split.
  - exists (init_state fs start). repeat split. exact W.
  - unfold download_images. rewrite W. reflexivity.
Qed.

Lemma C10_witness :
  download_images BASE_URL (fun _ => Raise FormatError) writes_fail "downloaded_images" 0
    always_500 0 ∅ 1 None = Some (Ok []).
Proof.
  apply (C10_nonpositive_threshold_no_request BASE_URL (fun _ => Raise FormatError) writes_fail
           "downloaded_images" 0 always_500 0 ∅ 1 None).
  lia.
Defined.

(** The answers 500, 404, 500, 404, ... bring the counter to [k / 2] after
    [k] answers: the 500s neither add to it nor reset it. *)
Lemma alternating_counter (responses : nat -> Response) :
  (forall k, status_of (responses k) = Some (if Nat.even k then 500 else 404)) ->
  forall j,
    counter_after responses (2 * j) = Z.of_nat j /\
    counter_after responses (S (2 * j)) = Z.of_nat j.
Proof.
  intros H. induction j as [|j [IH0 IH1]].
  - split; [reflexivity|]. change (S (2 * 0)) with 1%nat.
    rewrite counter_after_S, (H O). simpl.
    repeat case_decide; try discriminate. reflexivity.
  - assert (E0 : counter_after responses (2 * S j) = Z.of_nat (S j)).
    { replace (2 * S j)%nat with (S (S (2 * j))) by lia.
      rewrite counter_after_S, (H (S (2 * j))).
      replace (Nat.even (S (2 * j))) with false
        by (symmetry; rewrite Nat.even_succ, <- Nat.negb_even, Nat.even_mul; reflexivity).
      repeat case_decide; try discriminate; try congruence. lia. }
    split; [exact E0|].
    rewrite counter_after_S, (H (2 * S j)%nat).
    replace (Nat.even (2 * S j)) with true by (rewrite Nat.even_mul; reflexivity).
    repeat case_decide; try discriminate. exact E0.
Qed.

Lemma alternating_counter_lt (responses : nat -> Response) (n k : nat) :
  (forall k, status_of (responses k) = Some (if Nat.even k then 500 else 404)) ->
  (k < 2 * n)%nat -> counter_after responses k < Z.of_nat n.
Proof.
  intros H Hk. destruct (Nat.Even_or_Odd k) as [[j ->]|[j ->]].
  - rewrite (proj1 (alternating_counter responses H j)). lia.
  - replace (2 * j + 1)%nat with (S (2 * j)) by lia.
    rewrite (proj2 (alternating_counter responses H j)). lia.
Qed.

(** C1, as amended. An answer whose status is neither 200 nor 404, and a
    timeout or a transport error, leaves the whole state as it is, the counter
    and the saved list with it, and raises nothing: it adds nothing and it
    resets nothing. So the 404s of a run that
    alternates 500, 404, 500, 404, ... add up: with the threshold [n >= 1]
    (5 in [main]) the loop is still running after fewer than [2 * n] requests
    and returns after exactly [2 * n] requests, with the counter at [n] and
    nothing saved. *)
Theorem C1_other_status_neither_counts_nor_resets
    (base_url : string) (pattern_format : Z -> Result string)
    (write_file : Path -> list Byte.byte -> Result unit) (output_dir : string)
    (responses : nat -> Response) :
  (forall st filename r,
     status_of r <> Some 200 -> status_of r <> Some 404 ->
     handle_response write_file st filename r = Ok st) /\
  ((forall i, exists p, pattern_format i = Ok p) ->
   (forall k, status_of (responses k) = Some (if Nat.even k then 500 else 404)) ->
   forall (n : nat) fs start, (1 <= n)%nat ->
     (forall fuel, (fuel < 2 * n)%nat ->
        while_loop base_url pattern_format write_file output_dir (Z.of_nat n) responses
          fuel (init_state fs start) = None) /\
     exists st,
       while_loop base_url pattern_format write_file output_dir (Z.of_nat n) responses
         (2 * n) (init_state fs start) = Some (Ok st) /\
       length (requested st) = (2 * n)%nat /\
       consecutive_404s st = Z.of_nat n /\
       downloaded_files st = []).
Proof.
  split.
  - intros st filename r H200 H404.
    destruct (handle_response_cases write_file st filename r)
      as [(content & -> & _)|[(E & _)|(_ & _ & E)]].
    + contradiction H200. reflexivity.
    + contradiction.
    + exact E.
  - intros Hfmt Halt n fs start Hn.
    assert (Hwr : forall k content filename,
              responses k = HttpResponse 200 content ->
              write_file filename content = Ok tt).
    { intros k content filename E. specialize (Halt k). rewrite E in Halt.
      simpl in Halt. destruct (Nat.even k); discriminate. }
    split.
    + intros fuel Hfuel. apply while_init_none_iff; [exact Hfmt | exact Hwr |].
      intros k Hk. apply alternating_counter_lt; [exact Halt | lia].
    + destruct (while_init_first_stop base_url pattern_format write_file output_dir
                  (Z.of_nat n) responses Hfmt Hwr fs start (2 * n)) as (st & W & Hit).
      * intros j Hj. apply alternating_counter_lt; [exact Halt | lia].
      * rewrite (proj1 (alternating_counter responses Halt n)). lia.
      * exists st. split; [exact W|].
        destruct (iterate_init base_url pattern_format write_file output_dir responses Hfmt
                    Hwr fs start (2 * n)) as (st1 & Hit1 & Hc & _ & Hreq & Hdl & _).
        rewrite Hit in Hit1. injection Hit1 as <-.
        split; [exact Hreq|]. split.
        -- rewrite Hc. apply (alternating_counter responses Halt n).
        -- rewrite Hdl, saved_indices_none; [reflexivity|].
           intros j _. rewrite Halt. destruct (Nat.even j); discriminate.
Qed.

Lemma alternating_500_404_status k :
  status_of (alternating_500_404 k) = Some (if Nat.even k then 500 else 404).
Proof. unfold alternating_500_404. destruct (Nat.even k); reflexivity. Qed.

Lemma PATTERN_format_total i : exists p, PATTERN_format i = Ok p.
Proof. unfold PATTERN_format. eauto. Qed.

Lemma C1_witness :
  exists st,
    while_loop BASE_URL PATTERN_format writes_fail "downloaded_images" 5
      alternating_500_404 10 (init_state ∅ 1) = Some (Ok st) /\
    length (requested st) = 10%nat /\
    consecutive_404s st = 5 /\
    downloaded_files st = [].
Proof.
  apply (proj2 (C1_other_status_neither_counts_nor_resets BASE_URL PATTERN_format
                  writes_fail "downloaded_images" alternating_500_404)
           PATTERN_format_total alternating_500_404_status 5%nat ∅ 1).
  lia.
Defined.

(** C1, as stated, fails: with the threshold 5 the run that alternates 500,
    404, 500, 404, ... returns after ten requests, so it is not true that it
    never terminates. *)
Lemma C1_alternating_run_terminates :
  download_images BASE_URL PATTERN_format writes_succeed "downloaded_images" 5 alternating_500_404
    10 ∅ 1 (Some EXPECTED_COUNT) = Some (Ok []) /\
  ~ (forall fuel,
       download_images BASE_URL PATTERN_format writes_succeed "downloaded_images" 5
         alternating_500_404 fuel ∅ 1 (Some EXPECTED_COUNT) = None).
Proof.
  assert (E : download_images BASE_URL PATTERN_format writes_succeed "downloaded_images" 5
                alternating_500_404 10 ∅ 1 (Some EXPECTED_COUNT) = Some (Ok [])).
  { vm_compute. reflexivity. }
  split; [exact E|]. intros H. rewrite (H 10%nat) in E. discriminate.
Qed.

(** C2. For a pattern that formats every index and a disk that takes the
    body of every answer with status 200, so that no iteration raises: the
    loop stops in a state exactly when the counter has reached the
    threshold there; from the initial state it returns within a given number
    of iterations exactly when the counter of the answers reaches the
    threshold within as many answers, and with a positive threshold the
    counter then equals the threshold. An answer with status 200 resets the
    counter to 0. With the threshold 5 and the answers 404, 404, 200, 404,
    404, 404, 404, 404 the loop is still running after each of the first
    seven answers (so not after the first two 404s) and returns after the
    eighth, with the counter at 5 and the third file saved. *)
Theorem C2_stops_iff_counter_reaches_threshold
    (base_url : string) (pattern_format : Z -> Result string)
    (write_file : Path -> list Byte.byte -> Result unit) (output_dir : string)
    (max_consecutive_404s : Z) (responses : nat -> Response) :
  (forall i, exists p, pattern_format i = Ok p) ->
  (forall k content filename,
     responses k = HttpResponse 200 content -> write_file filename content = Ok tt) ->
  (forall fuel st,
     while_loop base_url pattern_format write_file output_dir max_consecutive_404s responses
       fuel st = Some (Ok st) <-> max_consecutive_404s <= consecutive_404s st) /\
  (forall fs start fuel,
     (exists st,
        while_loop base_url pattern_format write_file output_dir max_consecutive_404s responses
          fuel (init_state fs start) = Some (Ok st)) <->
     (exists k, (k <= fuel)%nat /\ max_consecutive_404s <= counter_after responses k)) /\
  (forall fs start fuel st,
     0 < max_consecutive_404s ->
     while_loop base_url pattern_format write_file output_dir max_consecutive_404s responses
       fuel (init_state fs start) = Some (Ok st) ->
     consecutive_404s st = max_consecutive_404s) /\
  (forall st filename content st',
     handle_response write_file st filename (HttpResponse 200 content) = Ok st' ->
     consecutive_404s st' = 0) /\
  (max_consecutive_404s = 5 ->
   statuses_start [404; 404; 200; 404; 404; 404; 404; 404] responses ->
   forall fs start,
     (forall fuel, (fuel < 8)%nat ->
        while_loop base_url pattern_format write_file output_dir max_consecutive_404s responses
          fuel (init_state fs start) = None) /\
     exists st,
       while_loop base_url pattern_format write_file output_dir max_consecutive_404s responses
         8 (init_state fs start) = Some (Ok st) /\
       consecutive_404s st = 5 /\
       length (requested st) = 8%nat /\
       downloaded_files st = [filename_of output_dir (start + 2)]).
Proof.
  intros Hfmt Hwr. split; [|split; [|split; [|split]]].
  - intros fuel st. split.
    + intros H. apply while_returns_guard in H. apply guard_false_iff in H. exact H.
    + intros H. apply while_stop. apply guard_false_iff. exact H.
  - intros fs start fuel. apply while_init_returns_iff; assumption.
  - intros fs start fuel st Hpos W.
    apply (while_init_returns_inv _ _ _ _ _ _ Hfmt Hwr) in W.
    destruct W as (k & _ & Hit & Hlt & Hge).
    destruct (iterate_init base_url pattern_format write_file output_dir responses Hfmt
                Hwr fs start k) as (st1 & Hit1 & Hc & _).
    rewrite Hit in Hit1. injection Hit1 as <-. rewrite Hc.
    destruct k as [|k]; [simpl in Hge; lia|].
    pose proof (Hlt k ltac:(lia)). pose proof (counter_after_step responses k). lia.
  - intros st filename content st' H. apply handle_response_ok in H.
    destruct H as (H & _). exact H.
  - intros -> Hst fs start.
    set (l := [404; 404; 200; 404; 404; 404; 404; 404]) in *.
    assert (Hext : forall k, (k < 8)%nat ->
              status_of (responses k) = status_of (answers l k)).
    { intros k Hk. apply (statuses_start_answers l responses k Hst). exact Hk. }
    assert (Hlt : forall j, (j < 8)%nat -> counter_after responses j < 5).
    { intros j Hj.
      rewrite (counter_after_ext responses (answers l) j)
        by (intros k Hk; apply Hext; lia).
      do 8 (destruct j as [|j]; [vm_compute; reflexivity|]). lia. }
    assert (H8 : counter_after responses 8 = 5).
    { rewrite (counter_after_ext responses (answers l) 8) by exact Hext.
      vm_compute. reflexivity. }
    split.
    + intros fuel Hfuel. apply while_init_none_iff; [exact Hfmt | exact Hwr |].
      intros k Hk. apply Hlt. lia.
    + destruct (while_init_first_stop base_url pattern_format write_file output_dir 5
                  responses Hfmt Hwr fs start 8 Hlt ltac:(lia)) as (st & W & Hit).
      exists st. split; [exact W|].
      destruct (iterate_init base_url pattern_format write_file output_dir responses Hfmt
                  Hwr fs start 8) as (st1 & Hit1 & Hc & _ & Hreq & Hdl & _).
      rewrite Hit in Hit1. injection Hit1 as <-.
      split; [lia|]. split; [exact Hreq|].
      rewrite Hdl, (saved_indices_ext responses (answers l) start 8) by exact Hext.
      reflexivity.
Qed.

Lemma answers_statuses_start l : statuses_start l (answers l).
Proof. intros k c H. unfold answers. rewrite H. reflexivity. Qed.

Lemma C2_witness :
  (forall fuel, (fuel < 8)%nat ->
     while_loop BASE_URL PATTERN_format writes_succeed "downloaded_images" 5
       (answers [404; 404; 200; 404; 404; 404; 404; 404])
       fuel (init_state ∅ 1) = None) /\
  exists st,
    while_loop BASE_URL PATTERN_format writes_succeed "downloaded_images" 5
      (answers [404; 404; 200; 404; 404; 404; 404; 404])
      8 (init_state ∅ 1) = Some (Ok st) /\
    consecutive_404s st = 5 /\
    length (requested st) = 8%nat /\
    downloaded_files st = [filename_of "downloaded_images" (1 + 2)].
Proof.
  apply (C2_stops_iff_counter_reaches_threshold BASE_URL PATTERN_format writes_succeed
           "downloaded_images" 5 (answers [404; 404; 200; 404; 404; 404; 404; 404])
           PATTERN_format_total).
  - reflexivity.
  - reflexivity.
  - apply answers_statuses_start.
Defined.

(** C3. For a pattern that formats every index, [download_images] returns
    for some amount of fuel exactly when the answers contain a stretch without
    a 200 that holds as many 404s as the threshold asks for, provided the body
    of every answer with status 200 can be written. No index ends the
    loop: against a server that answers 500 at every index, and with a
    positive threshold, the call does not return with any amount of fuel:
    after any number of iterations the guard still holds and one more index
    has been requested. *)
Theorem C3_returns_iff_enough_404s
    (base_url : string) (pattern_format : Z -> Result string)
    (write_file : Path -> list Byte.byte -> Result unit) (output_dir : string)
    (max_consecutive_404s : Z) (responses : nat -> Response)
    (fs : gmap string (list Byte.byte)) (start : Z) (expected_count : option Z) :
  (forall i, exists p, pattern_format i = Ok p) ->
  ((forall k content filename,
      responses k = HttpResponse 200 content -> write_file filename content = Ok tt) ->
   ((exists fuel image_files,
      download_images base_url pattern_format write_file output_dir max_consecutive_404s
        responses fuel fs start expected_count = Some (Ok image_files)) <->
    (exists i n, no_200 responses i n /\
                 max_consecutive_404s <= count_404 responses i n))) /\
  (0 < max_consecutive_404s ->
   (forall k, status_of (responses k) = Some 500) ->
   (forall fuel,
      download_images base_url pattern_format write_file output_dir max_consecutive_404s
        responses fuel fs start expected_count = None) /\
   (forall k, exists st,
      iterate base_url pattern_format write_file output_dir responses k (init_state fs start)
        = Ok st /\
      loop_guard max_consecutive_404s st = true /\
      length (requested st) = k /\ current st = start + Z.of_nat k)).
Proof.
  intros Hfmt. split.
  - intros Hwr. rewrite <- counter_reaches_iff. split.
    + intros (fuel & image_files & H). unfold download_images in H.
      destruct (while_loop base_url pattern_format write_file output_dir max_consecutive_404s
                  responses fuel (init_state fs start)) as [[st|e]|] eqn:W;
        try discriminate.
      apply (while_init_returns_inv _ _ _ _ _ _ Hfmt Hwr) in W.
      destruct W as (k & _ & _ & _ & Hge). eauto.
    + intros (k & Hk).
      destruct (proj2 (while_init_returns_iff base_url pattern_format write_file output_dir
                         max_consecutive_404s responses Hfmt Hwr fs start k))
        as (st & W); [exists k; split; [lia | exact Hk]|].
      exists k, (downloaded_files st). unfold download_images. rewrite W. reflexivity.
  - intros Hpos H500.
    assert (Hwr : forall k content filename,
              responses k = HttpResponse 200 content ->
              write_file filename content = Ok tt).
    { intros k content filename E. specialize (H500 k). rewrite E in H500.
      discriminate. }
    assert (Hc : forall k, counter_after responses k < max_consecutive_404s).
    { intros k. induction k as [|k IH]; simpl; [lia|]. rewrite H500. exact IH. }
    split.
    + intros fuel. unfold download_images.
      rewrite (proj2 (while_init_none_iff base_url pattern_format write_file output_dir
                        max_consecutive_404s responses Hfmt Hwr fs start fuel));
        [reflexivity|].
      intros k _. apply Hc.
    + intros k.
      destruct (iterate_init base_url pattern_format write_file output_dir responses Hfmt
                  Hwr fs start k) as (st & Hit & Hcnt & Hcur & Hreq & _).
      exists st. split; [exact Hit|]. split; [|split; assumption].
      apply guard_true_iff. rewrite Hcnt. apply Hc.
Qed.

Lemma C3_witness :
  download_images BASE_URL PATTERN_format writes_fail "downloaded_images" 5 always_500
    1000 ∅ 1 (Some EXPECTED_COUNT) = None.
Proof.
  apply (proj2 (C3_returns_iff_enough_404s BASE_URL PATTERN_format writes_fail
                  "downloaded_images" 5 always_500 ∅ 1 (Some EXPECTED_COUNT)
                  PATTERN_format_total)).
  - lia.
  - intros k. reflexivity.
Defined.

(** ** Strings and file names *)

Lemma string_app_cons (x : ascii) (a b : string) :
  String x a +:+ b = String x (a +:+ b).
Proof. reflexivity. Qed.

Lemma string_app_nil (b : string) : "" +:+ b = b.
Proof. reflexivity. Qed.

Lemma string_app_assoc (a b c : string) : (a +:+ b) +:+ c = a +:+ (b +:+ c).
Proof.
  induction a as [|x a IH]; [reflexivity|].
  rewrite !string_app_cons, IH. reflexivity.
Qed.

Lemma string_app_length (a b : string) :
  String.length (a +:+ b) = (String.length a + String.length b)%nat.
Proof.
  induction a as [|x a IH]; [reflexivity|].
  rewrite string_app_cons. simpl. rewrite IH. reflexivity.
Qed.

Lemma substring_0_app (a b : string) :
  substring 0 (String.length a) (a +:+ b) = a.
Proof.
  induction a as [|x a IH]; [destruct b; reflexivity|].
  rewrite string_app_cons. simpl. rewrite IH. reflexivity.
Qed.

Lemma substring_skip_app (a b : string) (k : nat) :
  substring (String.length a) k (a +:+ b) = substring 0 k b.
Proof.
  induction a as [|x a IH]; [reflexivity|].
  rewrite string_app_cons. simpl. exact IH.
Qed.

Lemma substring_0_all (a : string) : substring 0 (String.length a) a = a.
Proof. induction a as [|x a IH]; simpl; [reflexivity | rewrite IH; reflexivity]. Qed.

Lemma ends_with_app (a suffix : string) : ends_with suffix (a +:+ suffix) = true.
Proof.
  unfold ends_with. rewrite string_app_length.
  replace (String.length a + String.length suffix - String.length suffix)%nat
    with (String.length a) by lia.
  rewrite substring_skip_app, substring_0_all, String.eqb_refl.
  rewrite andb_true_r. apply Nat.leb_le. lia.
Qed.

Lemma compare_app_same (p x y : string) :
  String.compare (p +:+ x) (p +:+ y) = String.compare x y.
Proof.
  induction p as [|c p IH]; [reflexivity|].
  rewrite !string_app_cons. simpl.
  unfold Ascii.compare. rewrite N.compare_refl. exact IH.
Qed.

(** The first difference decides, whatever follows two strings of one length. *)
Lemma compare_app_lt (s1 : string) : forall s2 t1 t2,
  String.length s1 = String.length s2 ->
  String.compare s1 s2 = Lt ->
  String.compare (s1 +:+ t1) (s2 +:+ t2) = Lt.
Proof.
  induction s1 as [|c1 s1 IH]; intros [|c2 s2] t1 t2 Hlen Hcmp; simpl in Hlen, Hcmp;
    try discriminate.
  rewrite !string_app_cons. simpl.
  destruct (Ascii.compare c1 c2); try discriminate; [|reflexivity].
  apply IH; [lia | exact Hcmp].
Qed.

Lemma digit_cases (d : Z) :
  0 <= d < 10 ->
  d = 0 \/ d = 1 \/ d = 2 \/ d = 3 \/ d = 4 \/ d = 5 \/ d = 6 \/ d = 7 \/ d = 8 \/ d = 9.
Proof. lia. Qed.

Lemma digit_value_char (d : Z) : 0 <= d < 10 -> digit_value (digit_char d) = Some d.
Proof.
  intros H. destruct (digit_cases d H) as [->|[->|[->|[->|[->|[->|[->|[->|[->| ->]]]]]]]]];
    reflexivity.
Qed.

Lemma digit_char_lt (a b : Z) :
  0 <= a -> a < b -> b < 10 -> Ascii.compare (digit_char a) (digit_char b) = Lt.
Proof.
  intros Ha Hab Hb.
  destruct (digit_cases a ltac:(lia)) as [->|[->|[->|[->|[->|[->|[->|[->|[->| ->]]]]]]]]];
  destruct (digit_cases b ltac:(lia)) as [->|[->|[->|[->|[->|[->|[->|[->|[->| ->]]]]]]]]];
    try lia; reflexivity.
Qed.

Lemma compare_cons (c1 c2 : ascii) (s1 s2 : string) :
  String.compare (String c1 s1) (String c2 s2) =
    match Ascii.compare c1 c2 with
    | Eq => String.compare s1 s2
    | r => r
    end.
Proof. destruct (Ascii.compare c1 c2) eqn:E; simpl; rewrite E; reflexivity. Qed.

Lemma fixed_digits_S k n :
  fixed_digits (S k) n = fixed_digits k (n / 10) +:+ String (digit_char (n mod 10)) "".
Proof. reflexivity. Qed.

Lemma fixed_digits_length k : forall n, String.length (fixed_digits k n) = k.
Proof.
  induction k as [|k IH]; intros n; [reflexivity|].
  rewrite fixed_digits_S, string_app_length, IH. simpl. lia.
Qed.

Lemma zeros_snoc k : zeros k +:+ "0" = zeros (S k).
Proof.
  induction k as [|k IH]; [reflexivity|].
  change (zeros (S k)) with (String "0" (zeros k)).
  rewrite string_app_cons, IH. reflexivity.
Qed.

Lemma fixed_digits_zero k : fixed_digits k 0 = zeros k.
Proof.
  induction k as [|k IH]; [reflexivity|].
  rewrite fixed_digits_S. change (0 / 10) with 0.
  change (digit_char (0 mod 10)) with "0"%char.
  rewrite IH. apply zeros_snoc.
Qed.

(** On numbers of [k] digits the order of the strings is the order of the
    numbers. *)
Lemma fixed_digits_lt k : forall a b t1 t2,
  0 <= a -> a < b -> b < 10 ^ Z.of_nat k ->
  String.compare (fixed_digits k a +:+ t1) (fixed_digits k b +:+ t2) = Lt.
Proof.
  induction k as [|k IH]; intros a b t1 t2 Ha Hab Hb.
  - simpl in Hb. lia.
  - rewrite !fixed_digits_S, !string_app_assoc, !string_app_cons, !string_app_nil.
    assert (Hpow : 10 ^ Z.of_nat (S k) = 10 * 10 ^ Z.of_nat k).
    { rewrite Nat2Z.inj_succ, Z.pow_succ_r by lia. reflexivity. }
    assert (Hb10 : b / 10 < 10 ^ Z.of_nat k).
    { apply Z.div_lt_upper_bound; lia. }
    pose proof (Z.div_le_mono a b 10 ltac:(lia) ltac:(lia)) as Hdiv.
    pose proof (Z.div_pos a 10 Ha ltac:(lia)) as Ha10.
    destruct (Z.eq_dec (a / 10) (b / 10)) as [E|E].
    + rewrite E, compare_app_same, compare_cons.
      rewrite digit_char_lt; [reflexivity | | |].
      * apply Z.mod_pos_bound. lia.
      * pose proof (Z.div_mod a 10 ltac:(lia)). pose proof (Z.div_mod b 10 ltac:(lia)). lia.
      * apply Z.mod_pos_bound. lia.
    + apply IH; lia.
Qed.

(** *** Decimal digits *)

Lemma decimal_digits_S f n :
  decimal_digits (S f) n =
    if n <? 10 then String (digit_char n) ""
    else decimal_digits f (n / 10) +:+ String (digit_char (n mod 10)) "".
Proof. reflexivity. Qed.

(** The digits do not depend on the fuel once there is enough of it. *)
Lemma decimal_digits_enough f1 : forall f2 n,
  0 <= n -> n < 2 ^ Z.of_nat (S f1) -> n < 2 ^ Z.of_nat (S f2) ->
  decimal_digits (S f1) n = decimal_digits (S f2) n.
Proof.
  induction f1 as [|f1 IH]; intros f2 n Hn H1 H2; rewrite !decimal_digits_S;
    destruct (n <? 10) eqn:E; try reflexivity; apply Z.ltb_ge in E.
  - change (2 ^ Z.of_nat 1) with 2 in H1. lia.
  - f_equal.
    assert (P1 : 2 ^ Z.of_nat (S (S f1)) = 2 * 2 ^ Z.of_nat (S f1)).
    { rewrite (Nat2Z.inj_succ (S f1)), Z.pow_succ_r by lia. reflexivity. }
    assert (Q1 : n / 10 < 2 ^ Z.of_nat (S f1)).
    { apply Z.div_lt_upper_bound; lia. }
    destruct f2 as [|f2]; [change (2 ^ Z.of_nat 1) with 2 in H2; lia|].
    assert (P2 : 2 ^ Z.of_nat (S (S f2)) = 2 * 2 ^ Z.of_nat (S f2)).
    { rewrite (Nat2Z.inj_succ (S f2)), Z.pow_succ_r by lia. reflexivity. }
    apply IH; [apply Z.div_pos; lia | exact Q1 |].
    apply Z.div_lt_upper_bound; lia.
Qed.

Lemma str_nonneg_fuel n : 0 <= n -> n < 2 ^ Z.of_nat (S (Z.to_nat (Z.log2 n))).
Proof.
  intros Hn. rewrite Nat2Z.inj_succ, Z2Nat.id by apply Z.log2_nonneg.
  destruct (Z.eq_dec n 0) as [->|Hne]; [reflexivity|].
  apply Z.log2_spec. lia.
Qed.

Lemma str_nonneg_small n : 0 <= n < 10 -> str_nonneg n = String (digit_char n) "".
Proof.
  intros H. unfold str_nonneg. rewrite decimal_digits_S.
  destruct (n <? 10) eqn:E; [reflexivity|]. apply Z.ltb_ge in E. lia.
Qed.

Lemma str_nonneg_big n :
  10 <= n ->
  str_nonneg n = str_nonneg (n / 10) +:+ String (digit_char (n mod 10)) "".
Proof.
  intros H. unfold str_nonneg at 1. rewrite decimal_digits_S.
  destruct (n <? 10) eqn:E; [apply Z.ltb_lt in E; lia|]. f_equal.
  pose proof (str_nonneg_fuel n ltac:(lia)) as Hf.
  assert (H10 : 0 <= n / 10) by (apply Z.div_pos; lia).
  pose proof (str_nonneg_fuel (n / 10) H10) as Hf10.
  destruct (Z.to_nat (Z.log2 n)) as [|f] eqn:Ef.
  - change (2 ^ Z.of_nat 1) with 2 in Hf. lia.
  - unfold str_nonneg. apply decimal_digits_enough; [exact H10 | | exact Hf10].
    rewrite (Nat2Z.inj_succ (S f)), Z.pow_succ_r in Hf by lia.
    apply Z.div_lt_upper_bound; lia.
Qed.

Lemma zfill_snoc k s c :
  zfill (S k) (s +:+ String c "") = zfill k s +:+ String c "".
Proof.
  unfold zfill. rewrite string_app_length. simpl String.length.
  replace (S k - (String.length s + 1))%nat with (k - String.length s)%nat by lia.
  rewrite string_app_assoc. reflexivity.
Qed.

(** Below [10 ^ k] padding to [k] characters gives exactly [k] digits. *)
Lemma zfill_fixed k : forall n,
  0 <= n -> n < 10 ^ Z.of_nat (S k) ->
  zfill (S k) (str_nonneg n) = fixed_digits (S k) n.
Proof.
  induction k as [|k IH]; intros n Hn Hlt.
  - change (10 ^ Z.of_nat 1) with 10 in Hlt.
    rewrite str_nonneg_small by lia. rewrite fixed_digits_S.
    rewrite Z.mod_small by lia. reflexivity.
  - rewrite (fixed_digits_S (S k)).
    destruct (Z_lt_le_dec n 10) as [Hs|Hb].
    + rewrite str_nonneg_small by lia.
      rewrite Z.div_small, Z.mod_small by lia. rewrite fixed_digits_zero.
      reflexivity.
    + rewrite str_nonneg_big by exact Hb. rewrite zfill_snoc. f_equal.
      apply IH; [apply Z.div_pos; lia|].
      rewrite (Nat2Z.inj_succ (S k)), Z.pow_succ_r in Hlt by lia.
      apply Z.div_lt_upper_bound; lia.
Qed.

(** *** The index is read back from the name *)

Lemma parse_digits_cons acc c s :
  parse_digits acc (String c s) =
    match digit_value c with
    | Some d => parse_digits (10 * acc + d) s
    | None => None
    end.
Proof. reflexivity. Qed.

Lemma parse_digits_app s1 : forall acc s2,
  parse_digits acc (s1 +:+ s2) =
    match parse_digits acc s1 with
    | Some a => parse_digits a s2
    | None => None
    end.
Proof.
  induction s1 as [|c s1 IH]; intros acc s2; [reflexivity|].
  rewrite string_app_cons, !parse_digits_cons.
  destruct (digit_value c); [apply IH | reflexivity].
Qed.

Lemma parse_digits_zeros k : parse_digits 0 (zeros k) = Some 0.
Proof. induction k as [|k IH]; [reflexivity | exact IH]. Qed.

Lemma parse_digits_str_nonneg n : 0 <= n -> parse_digits 0 (str_nonneg n) = Some n.
Proof.
  induction n as [n IH] using (well_founded_induction (Z.lt_wf 0)). intros Hn.
  destruct (Z_lt_le_dec n 10) as [Hs|Hb].
  - rewrite str_nonneg_small by lia.
    rewrite parse_digits_cons, digit_value_char by lia.
    reflexivity.
  - rewrite str_nonneg_big, parse_digits_app by exact Hb.
    rewrite IH.
    + rewrite parse_digits_cons, digit_value_char by (apply Z.mod_pos_bound; lia).
      unfold parse_digits. f_equal. pose proof (Z.div_mod n 10 ltac:(lia)). lia.
    + split; [apply Z.div_pos; lia | apply Z.div_lt; lia].
    + apply Z.div_pos; lia.
Qed.

Lemma parse_digits_zfill k n :
  0 <= n -> parse_digits 0 (zfill k (str_nonneg n)) = Some n.
Proof.
  intros Hn. unfold zfill. rewrite parse_digits_app, parse_digits_zeros.
  apply parse_digits_str_nonneg. exact Hn.
Qed.

Lemma parse_int_format_06d i : parse_int (format_06d i) = Some i.
Proof.
  unfold format_06d. destruct (i <? 0) eqn:E.
  - apply Z.ltb_lt in E. unfold parse_int.
    change (parse_digits 0 (String "-" (zfill 5 (str_nonneg (- i))))) with (@None Z).
    change (Ascii.eqb "-" "-") with true. cbv iota.
    rewrite parse_digits_zfill by lia. unfold fmap, option_fmap, option_map.
    f_equal. lia.
  - apply Z.ltb_ge in E. unfold parse_int. rewrite parse_digits_zfill by exact E.
    reflexivity.
Qed.

Lemma name_filename_of output_dir i :
  name (filename_of output_dir i) = "image_" +:+ (format_06d i +:+ ".jp2").
Proof. reflexivity. Qed.

Lemma glob_jp2_filename_of output_dir i :
  glob_jp2 (name (filename_of output_dir i)) = true.
Proof.
  rewrite name_filename_of, <- string_app_assoc. apply ends_with_app.
Qed.

(** The decoder inverts the naming scheme, for every integer. *)
Lemma index_of_filename_of output_dir i :
  index_of (filename_of output_dir i) = Some i.
Proof.
  unfold index_of.
  pose proof (glob_jp2_filename_of output_dir i) as G. unfold glob_jp2 in G.
  rewrite G. rewrite name_filename_of.
  change (substring 0 6 ("image_" +:+ (format_06d i +:+ ".jp2")))
    with (substring 0 (String.length "image_") ("image_" +:+ (format_06d i +:+ ".jp2"))).
  rewrite substring_0_app. change ("image_" =? "image_")%string with true.
  cbv match. simpl andb. cbv match.
  rewrite !string_app_length.
  change (String.length "image_") with 6%nat.
  change (String.length ".jp2") with 4%nat.
  replace (6 + (String.length (format_06d i) + 4) - 10)%nat
    with (String.length (format_06d i)) by lia.
  change 6%nat with (String.length "image_") at 1.
  rewrite substring_skip_app, substring_0_app.
  apply parse_int_format_06d.
Qed.

Lemma filename_of_inj output_dir i j :
  filename_of output_dir i = filename_of output_dir j -> i = j.
Proof.
  intros H. pose proof (index_of_filename_of output_dir i) as Hi.
  rewrite H, index_of_filename_of in Hi. congruence.
Qed.

(** ** The saved list along a run *)

Section RunInvariant.

Variable base_url : string.
Variable pattern_format : Z -> Result string.
Variable write_file : Path -> list Byte.byte -> Result unit.
Variable output_dir : string.
Variable max_consecutive_404s : Z.
Variable responses : nat -> Response.
Variable fs : gmap string (list Byte.byte).
Variable start : Z.

Local Abbreviation reach :=
  (reachable base_url pattern_format write_file output_dir max_consecutive_404s responses fs start).

(** At the head of the loop the saved list names indices that grow strictly
    and lie between [start] and the cursor, and the directory holds what it
    held at the start plus the saved files. *)
Lemma reachable_inv st :
  reach st ->
  exists idxs,
    downloaded_files st = filename_of output_dir <$> idxs /\
    StronglySorted Z.lt idxs /\
    Forall (fun i => start <= i < current st) idxs /\
    start <= current st /\
    dom (files st) = dom fs ∪ list_to_set (name <$> downloaded_files st).
Proof.
  induction 1 as [|st st' _ (idxs & Hdl & Hs & Hb & Hle & Hdom) _ B].
  - exists []. simpl. repeat split; try constructor; try lia.
    rewrite union_empty_r_L. reflexivity.
  - apply body_ok_inv in B. destruct B as (B1 & _ & _ & _ & B5 & B6).
    destruct (decide (status_of (responses (length (requested st))) = Some 200)).
    + exists (idxs ++ [current st]). rewrite B5, B6, Hdl, Hdom, Hdl, B1.
      split; [rewrite fmap_app; reflexivity|]. split; [|split; [|split; [lia|]]].
      * apply StronglySorted_app. split; [|split; [exact Hs | repeat constructor]].
        intros x y Hx Hy. apply list_elem_of_singleton in Hy. subst y.
        rewrite Forall_forall in Hb. specialize (Hb x Hx). lia.
      * apply Forall_app. split.
        -- eapply Forall_impl; [exact Hb|]. simpl. intros; lia.
        -- repeat constructor; lia.
      * rewrite !fmap_app, list_to_set_app_L. simpl.
        rewrite union_empty_r_L, (union_comm_L {[_]}), union_assoc_L. reflexivity.
    + exists idxs. rewrite B5, B6, B1.
      split; [exact Hdl|]. split; [exact Hs|]. split; [|split; [lia | exact Hdom]].
      eapply Forall_impl; [exact Hb|]. simpl. intros; lia.
Qed.

(** The state a run returns is a state at the head of the loop. *)
Lemma while_returns_reachable fuel : forall st st',
  reach st ->
  while_loop base_url pattern_format write_file output_dir max_consecutive_404s responses
    fuel st = Some (Ok st') ->
  reach st'.
Proof.
  induction fuel as [|fuel IH]; intros st st' R W; simpl in W;
    destruct (loop_guard max_consecutive_404s st) eqn:G; try discriminate.
  - congruence.
  - destruct (loop_body base_url pattern_format write_file output_dir responses st)
      as [st1|e] eqn:B; [|discriminate].
    apply (IH st1 st'); [|exact W]. eapply reachable_step; eauto.
  - congruence.
Qed.

End RunInvariant.

Lemma index_of_fmap_filename_of output_dir (idxs : list Z) :
  index_of <$> (filename_of output_dir <$> idxs) = Some <$> idxs.
Proof.
  induction idxs as [|i idxs IH]; [reflexivity|].
  rewrite !fmap_cons, IH, index_of_filename_of. reflexivity.
Qed.

(** C7. In every state at the head of the loop, and so in the list a run
    returns, the numeric indices encoded in the names of [downloaded_files],
    read in list order, are strictly increasing; they lie between the start
    index and the cursor. *)
Theorem C7_saved_paths_strictly_increasing
    (base_url : string) (pattern_format : Z -> Result string)
    (write_file : Path -> list Byte.byte -> Result unit) (output_dir : string)
    (max_consecutive_404s : Z) (responses : nat -> Response)
    (fs : gmap string (list Byte.byte)) (start : Z) :
  (forall st,
     reachable base_url pattern_format write_file output_dir max_consecutive_404s responses
       fs start st ->
     exists idxs,
       index_of <$> downloaded_files st = Some <$> idxs /\
       StronglySorted Z.lt idxs /\
       Forall (fun i => start <= i < current st) idxs) /\
  (forall fuel expected_count image_files,
     download_images base_url pattern_format write_file output_dir max_consecutive_404s
       responses fuel fs start expected_count = Some (Ok image_files) ->
     exists idxs,
       index_of <$> image_files = Some <$> idxs /\
       StronglySorted Z.lt idxs /\
       Forall (fun i => start <= i) idxs).
Proof.
  split.
  - intros st R.
    destruct (reachable_inv _ _ _ _ _ _ _ _ st R) as (idxs & Hdl & Hs & Hb & _).
    exists idxs. rewrite Hdl, index_of_fmap_filename_of. auto.
  - intros fuel expected_count image_files H. unfold download_images in H.
    destruct (while_loop base_url pattern_format write_file output_dir max_consecutive_404s
                responses fuel (init_state fs start)) as [[st|e]|] eqn:W;
      try discriminate.
    injection H as <-.
    apply (while_returns_reachable _ _ _ _ _ _ fs start) in W; [|apply reachable_init].
    destruct (reachable_inv _ _ _ _ _ _ _ _ st W) as (idxs & Hdl & Hs & Hb & _).
    exists idxs. rewrite Hdl, index_of_fmap_filename_of.
    split; [reflexivity|]. split; [exact Hs|].
    eapply Forall_impl; [exact Hb|]. simpl. intros; lia.
Qed.

Lemma C7_witness :
  exists idxs,
    index_of <$> [filename_of "downloaded_images" 1; filename_of "downloaded_images" 3]
      = Some <$> idxs /\
    StronglySorted Z.lt idxs /\
    Forall (fun i => 1 <= i) idxs.
Proof.
  apply (proj2 (C7_saved_paths_strictly_increasing BASE_URL PATTERN_format writes_succeed
                  "downloaded_images" 2 (answers [200; 404; 200]) ∅ 1)
           5%nat None).
  vm_compute. reflexivity.
Defined.

(** ** The order of paths and the directory scan *)

Global Instance path_le_total : Total path_le.
Proof.
  intros p q. unfold path_le.
  destruct (decide (parent p = parent q)) as [E|E].
  - destruct (total String.le (name p) (name q)); [left | right]; right; auto.
  - destruct (total String.le (parent p) (parent q)); [left | right]; left; auto.
Qed.

Global Instance path_le_trans : Transitive path_le.
Proof.
  intros p q r [[H1 N1]|[E1 H1]] [[H2 N2]|[E2 H2]]; unfold path_le.
  - left. split; [etrans; eassumption|]. intros E. rewrite E in H1.
    apply N2. apply (anti_symm String.le); assumption.
  - left. rewrite <- E2. auto.
  - left. rewrite E1. auto.
  - right. split; [congruence | etrans; eassumption].
Qed.

Global Instance path_le_antisym : AntiSymm (=) path_le.
Proof.
  intros [d1 n1] [d2 n2] [[H1 N1]|[E1 H1]] [[H2 N2]|[E2 H2]]; simpl in *.
  - exfalso. apply N1. apply (anti_symm String.le); assumption.
  - congruence.
  - congruence.
  - f_equal; [exact E1 | apply (anti_symm String.le); assumption].
Qed.

Global Instance filename_of_Inj output_dir : Inj (=) (=) (filename_of output_dir).
Proof. intros i j. apply filename_of_inj. Qed.

Lemma format_06d_fixed i : 0 <= i < 1000000 -> format_06d i = fixed_digits 6 i.
Proof.
  intros H. unfold format_06d.
  destruct (i <? 0) eqn:E; [apply Z.ltb_lt in E; lia|].
  apply zfill_fixed; [lia|]. change (10 ^ Z.of_nat 6) with 1000000. lia.
Qed.

(** Below one million the order of the names is the order of the indices. *)
Lemma filename_of_le output_dir a b :
  0 <= a -> a < b -> b < 1000000 ->
  path_le (filename_of output_dir a) (filename_of output_dir b).
Proof.
  intros Ha Hab Hb. right. split; [reflexivity|].
  rewrite !name_filename_of, !format_06d_fixed by lia.
  unfold String.le, String.leb. rewrite compare_app_same.
  rewrite fixed_digits_lt; [exact I | lia | lia |].
  change (10 ^ Z.of_nat 6) with 1000000. lia.
Qed.

Lemma StronglySorted_lt_NoDup (l : list Z) : StronglySorted Z.lt l -> NoDup l.
Proof.
  induction 1 as [|x l _ IH Hx]; constructor; [|exact IH].
  intros Hin. rewrite Forall_forall in Hx. specialize (Hx x Hin). lia.
Qed.

Lemma filename_of_sorted output_dir (idxs : list Z) :
  StronglySorted Z.lt idxs ->
  Forall (fun i => 0 <= i < 1000000) idxs ->
  StronglySorted path_le (filename_of output_dir <$> idxs).
Proof.
  induction 1 as [|x l _ IH Hx]; intros Hr; [constructor|].
  apply Forall_cons in Hr. destruct Hr as [Hrx Hrl].
  rewrite fmap_cons. constructor; [apply IH; exact Hrl|].
  apply Forall_fmap. rewrite Forall_forall in Hx, Hrl |- *.
  intros y Hy. specialize (Hx y Hy). specialize (Hrl y Hy). simpl.
  apply filename_of_le; lia.
Qed.

(** C8, as amended. Take a run of [download_images] that returns, from a
    directory without any [.jp2] file, and whose saved indices all lie between
    0 and 999999, the range where the six-digit padding gives names of one
    width. Then [get_existing_images] on the directory the run leaves returns
    exactly the list the run returned, in the same order. *)
Theorem C8_existing_images_are_the_downloaded
    (base_url : string) (pattern_format : Z -> Result string)
    (write_file : Path -> list Byte.byte -> Result unit) (output_dir : string)
    (max_consecutive_404s : Z) (responses : nat -> Response)
    (fs : gmap string (list Byte.byte)) (start : Z) (fuel : nat) (st : RunState) :
  (forall n, n ∈ dom fs -> glob_jp2 n = false) ->
  while_loop base_url pattern_format write_file output_dir max_consecutive_404s responses
    fuel (init_state fs start) = Some (Ok st) ->
  Forall (fun p => exists i, index_of p = Some i /\ 0 <= i < 1000000)
         (downloaded_files st) ->
  get_existing_images output_dir (files st) = downloaded_files st.
Proof.
  intros Hfs W Hrange.
  apply (while_returns_reachable _ _ _ _ _ _ fs start) in W; [|apply reachable_init].
  destruct (reachable_inv _ _ _ _ _ _ _ _ st W) as (idxs & Hdl & Hs & _ & _ & Hdom).
  assert (Hr : Forall (fun i => 0 <= i < 1000000) idxs).
  { rewrite Hdl in Hrange. rewrite Forall_fmap in Hrange.
    eapply Forall_impl; [exact Hrange|]. simpl. intros i (j & Hj & Hjr).
    rewrite index_of_filename_of in Hj. injection Hj as ->. exact Hjr. }
  unfold get_existing_images. rewrite Hdl.
  apply (StronglySorted_unique path_le).
  - apply StronglySorted_merge_sort; apply _.
  - apply filename_of_sorted; assumption.
  - rewrite merge_sort_Permutation. apply NoDup_Permutation.
    + apply NoDup_fmap_2.
      * intros a b E. injection E as E. exact E.
      * apply NoDup_filter, NoDup_elements.
    + apply NoDup_fmap_2; [apply _|]. apply StronglySorted_lt_NoDup. exact Hs.
    + intros p. rewrite !list_elem_of_fmap. split.
      * intros (n & -> & Hn). apply list_elem_of_filter in Hn.
        destruct Hn as [Hg Hn]. apply elem_of_elements in Hn.
        rewrite Hdom, Hdl in Hn. apply elem_of_union in Hn.
        destruct Hn as [Hn|Hn].
        -- rewrite (Hfs n Hn) in Hg. destruct Hg.
        -- apply elem_of_list_to_set, list_elem_of_fmap in Hn.
           destruct Hn as (q & -> & Hq). apply list_elem_of_fmap in Hq.
           destruct Hq as (i & -> & Hi). exists i. split; [reflexivity | exact Hi].
      * intros (i & -> & Hi). exists (name (filename_of output_dir i)).
        split; [reflexivity|]. apply list_elem_of_filter. split.
        -- rewrite glob_jp2_filename_of. exact I.
        -- apply elem_of_elements. rewrite Hdom, Hdl. apply elem_of_union. right.
           apply elem_of_list_to_set, list_elem_of_fmap.
           exists (filename_of output_dir i). split; [reflexivity|].
           apply list_elem_of_fmap. exists i. split; [reflexivity | exact Hi].
Qed.

Lemma C8_witness :
  get_existing_images "downloaded_images" (files sample_final_state) =
  downloaded_files sample_final_state.
Proof.
  pose proof (C8_existing_images_are_the_downloaded BASE_URL PATTERN_format writes_succeed
                "downloaded_images" 2 (answers [200; 404; 200]) ∅ 1 5
                sample_final_state) as H.
  apply H.
  - intros n Hn. rewrite dom_empty_L in Hn. apply not_elem_of_empty in Hn. destruct Hn.
  - vm_compute. reflexivity.
  - constructor; [|constructor; [|constructor]].
    + exists 1. split; [vm_compute; reflexivity | lia].
    + exists 3. split; [vm_compute; reflexivity | lia].
Defined.

(** C8, as stated, fails once an index passes 999999: the names are no longer
    of one width. A run from the index 999999 that saves two files returns
    [image_999999.jp2] before [image_1000000.jp2]; the scan of the directory
    it leaves returns them the other way round. *)
Lemma C8_seventh_digit_breaks_the_order :
  exists st,
    while_loop BASE_URL PATTERN_format writes_succeed "downloaded_images" 1 (answers [200; 200])
      3 (init_state ∅ 999999) = Some (Ok st) /\
    downloaded_files st =
      [mkPath "downloaded_images" "image_999999.jp2";
       mkPath "downloaded_images" "image_1000000.jp2"] /\
    get_existing_images "downloaded_images" (files st) =
      [mkPath "downloaded_images" "image_1000000.jp2";
       mkPath "downloaded_images" "image_999999.jp2"] /\
    get_existing_images "downloaded_images" (files st) <> downloaded_files st.
Proof.
  eexists. split; [vm_compute; reflexivity|].
  split; [reflexivity|]. split; [vm_compute; reflexivity|].
  vm_compute. discriminate.
Qed.

(** ** The compiler *)

Lemma mode_in_cases (img : Image) :
  mode_in img ["RGBA"; "LA"; "P"] = true <->
  mode img = "RGBA" \/ mode img = "LA" \/ mode img = "P".
Proof.
  unfold mode_in. simpl.
  destruct (String.eqb_spec (mode img) "RGBA") as [E1|E1];
  destruct (String.eqb_spec (mode img) "LA") as [E2|E2];
  destruct (String.eqb_spec (mode img) "P") as [E3|E3]; simpl;
    split; intros H; auto; try discriminate.
  destruct H as [H|[H|H]]; contradiction.
Qed.

(** C6. Whatever the mode of the image, the colour step returns an image of
    mode [RGB], three channels without alpha, of the same size. An image of
    mode [RGBA] or [LA] is pasted onto a white [RGB] image of its size with
    its own last band (the alpha) as the mask; an image of mode [P] is first
    converted to [RGBA] and then pasted in the same way; any other mode but
    [RGB] is converted directly; an [RGB] image is returned as it is. *)
Theorem C6_to_rgb_gives_flat_rgb (img : Image) :
  mode (to_rgb img) = "RGB" /\
  size (to_rgb img) = size img /\
  (mode img = "RGBA" \/ mode img = "LA" ->
   to_rgb img =
     paste (Image_new "RGB" (size img) (255, 255, 255)) img (Some (split_last img))) /\
  (mode img = "P" ->
   to_rgb img =
     paste (Image_new "RGB" (size img) (255, 255, 255)) (convert img "RGBA")
           (Some (split_last (convert img "RGBA")))) /\
  (mode img <> "RGBA" -> mode img <> "LA" -> mode img <> "P" -> mode img <> "RGB" ->
   to_rgb img = convert img "RGB") /\
  (mode img = "RGB" -> to_rgb img = img).
Proof.
  unfold to_rgb.
  destruct (mode_in img ["RGBA"; "LA"; "P"]) eqn:M.
  - apply mode_in_cases in M.
    split; [reflexivity|]. split; [reflexivity|].
    split; [|split; [|split]].
    + intros [E|E]; destruct img as [m w h px]; simpl in E; subst m; reflexivity.
    + intros E. destruct img as [m w h px]; simpl in E; subst m; reflexivity.
    + intros N1 N2 N3 _. destruct M as [E|[E|E]]; contradiction.
    + intros E. rewrite E in M. destruct M as [E'|[E'|E']]; discriminate.
  - assert (N : ~ (mode img = "RGBA" \/ mode img = "LA" \/ mode img = "P")).
    { intros H. apply mode_in_cases in H. congruence. }
    destruct (String.eqb_spec (mode img) "RGB") as [E|E]; simpl.
    + split; [exact E|]. split; [reflexivity|].
      split; [intros [H|H]; exfalso; apply N; auto|].
      split; [intros H; exfalso; apply N; auto|].
      split; [intros _ _ _ H; contradiction | reflexivity].
    + split; [reflexivity|]. split; [reflexivity|].
      split; [intros [H|H]; exfalso; apply N; auto|].
      split; [intros H; exfalso; apply N; auto|].
      split; [reflexivity | intros H; contradiction].
Qed.

Lemma C6_witness :
  to_rgb (mkImage "LA" 3 2 (FileData (mkPath "downloaded_images" "image_000001.jp2"))) =
  paste (Image_new "RGB" (3, 2) (255, 255, 255))
        (mkImage "LA" 3 2 (FileData (mkPath "downloaded_images" "image_000001.jp2")))
        (Some (split_last
           (mkImage "LA" 3 2 (FileData (mkPath "downloaded_images" "image_000001.jp2"))))).
Proof.
  apply (proj1 (proj2 (proj2 (C6_to_rgb_gives_flat_rgb
           (mkImage "LA" 3 2 (FileData (mkPath "downloaded_images" "image_000001.jp2"))))))).
  right. reflexivity.
Defined.

(** ** The error monad *)

Lemma bind_Ok {A B} (a : A) (k : A -> Result B) : (x ← Ok a; k x) = k a.
Proof. reflexivity. Qed.

Lemma bind_Raise {A B} (e : Exn) (k : A -> Result B) : (x ← Raise e; k x) = Raise e.
Proof. reflexivity. Qed.

Ltac bind_step := rewrite ?bind_Ok, ?bind_Raise.

(** ** Rounding to a float *)

Lemma rne_div_half (num den : Z) :
  0 < den -> - den <= 2 * (rne_div num den * den - num) <= den.
Proof.
  intros Hd. unfold rne_div. cbv zeta.
  pose proof (Z.div_mod num den ltac:(lia)) as E.
  pose proof (Z.mod_pos_bound num den Hd) as B.
  set (d := num / den) in *. set (r := num mod den) in *. clearbody d r.
  destruct (2 * r ?= den) eqn:C.
  - apply Z.compare_eq in C. destruct (Z.even d); lia.
  - rewrite Z.compare_lt_iff in C. lia.
  - rewrite Z.compare_gt_iff in C. lia.
Qed.

Lemma pow2_pos (k : Z) : 0 < 2 ^ Z.max k 0.
Proof. apply Z.pow_pos_nonneg; lia. Qed.

Lemma pow2_le_binade (p q : Z) : 0 < p -> 0 < q -> pow2_le (binade p q) p q = true.
Proof.
  intros Hp Hq. unfold binade.
  destruct (pow2_le (Z.log2 p - Z.log2 q) p q) eqn:E; [exact E|].
  unfold pow2_le. apply Z.leb_le.
  pose proof (Z.log2_spec p Hp) as [Lp _].
  pose proof (Z.log2_spec q Hq) as [_ Uq].
  pose proof (Z.log2_nonneg p). pose proof (Z.log2_nonneg q).
  set (lp := Z.log2 p) in *. set (lq := Z.log2 q) in *. clearbody lp lq.
  destruct (Z_le_gt_dec 1 (lp - lq)) as [H1|H1].
  - rewrite (Z.max_l (lp - lq - 1) 0), (Z.max_r (- (lp - lq - 1)) 0) by lia.
    rewrite Z.pow_0_r, Z.mul_1_r.
    assert (Hpow : 2 ^ Z.succ lq * 2 ^ (lp - lq - 1) = 2 ^ lp).
    { rewrite <- Z.pow_add_r by lia. f_equal. lia. }
    pose proof (pow2_pos (lp - lq - 1)) as P. rewrite Z.max_l in P by lia.
    nia.
  - rewrite (Z.max_r (lp - lq - 1) 0), (Z.max_l (- (lp - lq - 1)) 0) by lia.
    rewrite Z.pow_0_r, Z.mul_1_r.
    assert (Hpow : 2 ^ lp * 2 ^ (- (lp - lq - 1)) = 2 ^ Z.succ lq).
    { rewrite <- Z.pow_add_r by lia. f_equal. lia. }
    pose proof (pow2_pos (- (lp - lq - 1))) as P. rewrite Z.max_l in P by lia.
    nia.
Qed.

Lemma binade_scaled (p q : Z) :
  0 < p -> 0 < q ->
  2 ^ 52 * (q * 2 ^ Z.max (binade p q - 52) 0)
    <= p * 2 ^ Z.max (- (binade p q - 52)) 0.
Proof.
  intros Hp Hq. pose proof (pow2_le_binade p q Hp Hq) as H.
  unfold pow2_le in H. apply Z.leb_le in H.
  set (k := binade p q) in *. clearbody k.
  pose proof (pow2_pos k) as T1. pose proof (pow2_pos (- k)) as T2.
  pose proof (pow2_pos (k - 52)) as S1. pose proof (pow2_pos (- (k - 52))) as S2.
  assert (I : 2 ^ 52 * 2 ^ Z.max (k - 52) 0 * 2 ^ Z.max (- k) 0 =
              2 ^ Z.max (- (k - 52)) 0 * 2 ^ Z.max k 0).
  { rewrite <- !Z.pow_add_r by lia. f_equal. lia. }
  set (t1 := 2 ^ Z.max k 0) in *. set (t2 := 2 ^ Z.max (- k) 0) in *.
  set (s1 := 2 ^ Z.max (k - 52) 0) in *. set (s2 := 2 ^ Z.max (- (k - 52)) 0) in *.
  clearbody t1 t2 s1 s2.
  apply (Z.mul_le_mono_pos_r _ _ t2 T2).
  replace (2 ^ 52 * (q * s1) * t2) with (q * (2 ^ 52 * s1 * t2)) by ring.
  rewrite I. replace (q * (s2 * t1)) with (q * t1 * s2) by ring.
  replace (p * s2 * t2) with (p * t2 * s2) by ring.
  apply Z.mul_le_mono_pos_r; assumption.
Qed.

Lemma round_pos_err (p q : Z) :
  0 < p -> 0 < q ->
  (2 ^ 53 - 1) * p * QDen (round_pos p q) <= 2 ^ 53 * Qnum (round_pos p q) * q /\
  2 ^ 53 * Qnum (round_pos p q) * q <= (2 ^ 53 + 1) * p * QDen (round_pos p q).
Proof.
  intros Hp Hq. unfold round_pos. cbv zeta.
  pose proof (binade_scaled p q Hp Hq) as H2.
  set (e := binade p q - 52) in *. clearbody e.
  pose proof (pow2_pos e) as S1. pose proof (pow2_pos (- e)) as S2.
  set (s1 := 2 ^ Z.max e 0) in *. set (s2 := 2 ^ Z.max (- e) 0) in *.
  clearbody s1 s2.
  pose proof (rne_div_half (p * s2) (q * s1) ltac:(nia)) as H1.
  set (mant := rne_div (p * s2) (q * s1)) in *. clearbody mant.
  cbn [Qnum Qden]. rewrite Z2Pos.id by exact S2.
  change (2 ^ 53) with (2 * 2 ^ 52). change (2 ^ 52) with 4503599627370496 in *.
  nia.
Qed.

Lemma fl_bounds (x : Q) :
  (0 < x)%Q ->
  (round_down_factor * x <= fl x)%Q /\ (fl x <= round_up_factor * x)%Q.
Proof.
  destruct x as [n d]. unfold Qlt. simpl. rewrite Z.mul_1_r. intros Hn.
  unfold fl. simpl Qnum. destruct n as [|p|p]; try lia. simpl Qden.
  destruct (round_pos_err (Zpos p) (Zpos d) ltac:(lia) ltac:(lia)) as [H1 H2].
  set (r := round_pos (Z.pos p) (Z.pos d)) in *. clearbody r.
  unfold round_down_factor, round_up_factor, Qle, Qmult. cbn [Qnum Qden].
  rewrite !Pos2Z.inj_mul.
  change (2 ^ 53) with 9007199254740992 in H1, H2. simpl Z.sub in H1. simpl Z.add in H2.
  split; nia.
Qed.

Lemma fl_pos (x : Q) : (0 < x)%Q -> (0 < fl x)%Q.
Proof.
  intros H. destruct (fl_bounds x H) as [L _].
  unfold round_down_factor in L. lra.
Qed.

Lemma round_pos_pos (p q : Z) : 0 < p -> 0 < q -> (0 < round_pos p q)%Q.
Proof.
  intros Hp Hq. destruct (round_pos_err p q Hp Hq) as [H _].
  change (0 * QDen (round_pos p q) < Qnum (round_pos p q) * 1).
  rewrite Z.mul_1_r, Z.mul_0_l.
  assert (D : 0 < QDen (round_pos p q)) by lia.
  change (2 ^ 53 - 1) with 9007199254740991 in H.
  change (2 ^ 53) with 9007199254740992 in H.
  set (n := Qnum (round_pos p q)) in *. set (d := QDen (round_pos p q)) in *.
  clearbody n d.
  assert (L : 0 < 9007199254740991 * p * d).
  { apply Z.mul_pos_pos; [apply Z.mul_pos_pos; lia | exact D]. }
  destruct (Z_lt_le_dec 0 n) as [Hn|Hn]; [exact Hn|]. exfalso.
  assert (U : n * q <= 0) by (apply Z.mul_nonpos_nonneg; lia).
  lia.
Qed.

Lemma fl_neg (x : Q) : (x < 0)%Q -> (fl x < 0)%Q.
Proof.
  intros Hx.
  assert (Hn : Qnum x < 0).
  { unfold Qlt in Hx. simpl in Hx. lia. }
  unfold fl. destruct (Qnum x) as [|p|p]; try lia.
  pose proof (round_pos_pos (Zpos p) (Zpos (Qden x)) ltac:(lia) ltac:(lia)) as H.
  lra.
Qed.

Lemma fl_zero (x : Q) : Qnum x = 0 -> fl x = 0%Q.
Proof. intros H. unfold fl. rewrite H. reflexivity. Qed.


Lemma fl_opp (x : Q) : fl (- x) = (- fl x)%Q.
Proof.
  unfold fl. destruct x as [n d]. simpl Qnum. simpl Qden.
  destruct n as [|p|p]; simpl; try reflexivity.
  destruct (round_pos (Z.pos p) (Z.pos d)) as [a b]. unfold Qopp. simpl.
  rewrite Z.opp_involutive. reflexivity.
Qed.

(** One rounding moves a number by at most the factor [1 + 2 ^ -53]. *)
Lemma fl_abs_upper (x : Q) : (Qabs (fl x) <= round_up_factor * Qabs x)%Q.
Proof.
  unfold round_up_factor.
  destruct (Q_dec x 0) as [[Hneg|Hpos]|Hz].
  - pose proof (fl_neg x Hneg) as F.
    assert (P : (0 < - x)%Q) by lra.
    destruct (fl_bounds (- x) P) as [_ U]. rewrite fl_opp in U.
    unfold round_up_factor in U.
    rewrite (Qabs_neg x), (Qabs_neg (fl x)) by lra. lra.
  - pose proof (fl_pos x Hpos) as F. destruct (fl_bounds x Hpos) as [_ U].
    unfold round_up_factor in U.
    rewrite (Qabs_pos x), (Qabs_pos (fl x)) by lra. lra.
  - assert (Hn : Qnum x = 0).
    { unfold Qeq in Hz. simpl in Hz. lia. }
    rewrite (fl_zero x Hn). change (Qabs 0) with 0%Q.
    pose proof (Qabs_nonneg x). lra.
Qed.

Lemma fl_nonpos (x : Q) : (x <= 0)%Q -> (fl x <= 0)%Q.
Proof.
  intros H. destruct (Q_dec x 0) as [[Hneg|Hpos]|Hz].
  - pose proof (fl_neg x Hneg). lra.
  - lra.
  - assert (Hn : Qnum x = 0).
    { unfold Qeq in Hz. simpl in Hz. lia. }
    rewrite (fl_zero x Hn). lra.
Qed.

(** *** The exponent range *)

(** The three outcomes of a rounding. *)
Lemma round64_cases (x : Q) :
  ((min_normal <= Qabs x)%Q /\ (Qabs (fl x) < overflow_threshold)%Q /\
   round64 x = Finite (Qred (fl x))) \/
  ((min_normal <= Qabs x)%Q /\ (overflow_threshold <= Qabs (fl x))%Q /\
   round64 x = Infinite (Qnum x <? 0)) \/
  ((Qabs x < min_normal)%Q /\ round64 x = Finite (Qred (round_subnormal x))).
Proof.
  unfold round64.
  destruct (Qle_bool min_normal (Qabs x)) eqn:E1.
  - apply Qle_bool_iff in E1.
    destruct (Qle_bool overflow_threshold (Qabs (fl x))) eqn:E2.
    + apply Qle_bool_iff in E2. right. left. auto.
    + left. split; [exact E1|]. split; [|reflexivity].
      apply Qnot_le_lt. intros H. apply Qle_bool_iff in H. congruence.
  - right. right. split; [|reflexivity].
    apply Qnot_le_lt. intros H. apply Qle_bool_iff in H. congruence.
Qed.

Lemma overflow_margin :
  (round_up_factor * inject_Z (2 ^ 1023) < overflow_threshold)%Q.
Proof. unfold Qlt. vm_compute. reflexivity. Qed.

Lemma min_normal_small : (min_normal <= 1 # 1267650600228229401496703205376)%Q.
Proof. unfold Qle. vm_compute. discriminate. Qed.

Lemma mid_below_overflow :
  (1267650600228229401496703205376 <= inject_Z (2 ^ 1023))%Q.
Proof. unfold Qle. vm_compute. discriminate. Qed.

(** Below [2 ^ 1023] nothing overflows. *)
Lemma round64_finite (x : Q) :
  (Qabs x < inject_Z (2 ^ 1023))%Q -> exists y, round64 x = Finite y.
Proof.
  intros Hx.
  destruct (round64_cases x) as [(_ & _ & E)|[(_ & Hov & _)|(_ & E)]]; eauto.
  exfalso. pose proof (fl_abs_upper x) as U. pose proof overflow_margin as M.
  unfold round_up_factor in U, M.
  set (H := inject_Z (2 ^ 1023)) in *. set (T := overflow_threshold) in *.
  clearbody H T. lra.
Qed.

(** Between [2 ^ -100] and [2 ^ 100] a rounding is the rounding to 53 bits. *)
Lemma round64_mid (x : Q) :
  (1 # 1267650600228229401496703205376 <= x)%Q ->
  (x <= 1267650600228229401496703205376)%Q ->
  round64 x = Finite (Qred (fl x)).
Proof.
  intros L U.
  assert (P : (0 < x)%Q) by lra.
  pose proof (Qabs_pos x ltac:(lra)) as A.
  pose proof min_normal_small as S. pose proof mid_below_overflow as B.
  pose proof (fl_abs_upper x) as F. pose proof overflow_margin as M.
  unfold round_up_factor in F, M. rewrite A in F.
  destruct (round64_cases x) as [(_ & _ & E)|[(_ & Hov & _)|(Hsub & _)]].
  - exact E.
  - exfalso. set (H := inject_Z (2 ^ 1023)) in *. set (T := overflow_threshold) in *.
    clearbody H T. lra.
  - exfalso. rewrite A in Hsub. set (N := min_normal) in *. clearbody N. lra.
Qed.

(** The sign of a rounded number. *)
Lemma rne_div_nonpos (num den : Z) : 0 < den -> num <= 0 -> rne_div num den <= 0.
Proof.
  intros Hd Hn. pose proof (rne_div_half num den Hd) as H.
  set (r := rne_div num den) in *. clearbody r. nia.
Qed.

Lemma round_subnormal_nonpos (x : Q) : (x <= 0)%Q -> (round_subnormal x <= 0)%Q.
Proof.
  intros H. unfold round_subnormal, Qle. cbn [Qnum Qden]. rewrite Z.mul_1_r, Z.mul_0_l.
  assert (Hn : Qnum x <= 0).
  { unfold Qle in H. simpl in H. lia. }
  apply rne_div_nonpos; [lia|].
  apply Z.mul_nonpos_nonneg; [exact Hn|]. apply Z.pow_nonneg. lia.
Qed.

Lemma round64_nonpos (x : Q) :
  (x <= 0)%Q ->
  (exists y, round64 x = Finite y /\ (y <= 0)%Q) \/
  (round64 x = Infinite true /\ (x < 0)%Q).
Proof.
  intros H.
  destruct (round64_cases x) as [(_ & _ & E)|[(Hn & _ & E)|(_ & E)]].
  - left. exists (Qred (fl x)). split; [exact E|].
    rewrite Qred_correct. apply fl_nonpos. exact H.
  - right. assert (Hneg : (x < 0)%Q).
    { destruct (Q_dec x 0) as [[Hneg|Hpos]|Hz]; [exact Hneg | lra |].
      exfalso. rewrite Hz in Hn. change (Qabs 0) with 0%Q in Hn.
      assert (P : (0 < min_normal)%Q) by reflexivity. lra. }
    split; [|exact Hneg]. rewrite E. f_equal. apply Z.ltb_lt.
    unfold Qlt in Hneg. simpl in Hneg. lia.
  - left. exists (Qred (round_subnormal x)). split; [exact E|].
    rewrite Qred_correct. apply round_subnormal_nonpos. exact H.
Qed.

(** *** The operations on integers *)

Lemma Qabs_inject_Z (n : Z) : Qabs (inject_Z n) = inject_Z (Z.abs n).
Proof. reflexivity. Qed.

Lemma Qabs_quotient_le (a b : Z) :
  b <> 0 -> (Qabs (inject_Z a / inject_Z b) <= inject_Z (Z.abs a))%Q.
Proof.
  intros Hb. unfold Qdiv. rewrite Qabs_Qmult, Qabs_Qinv, !Qabs_inject_Z.
  assert (B : (1 <= inject_Z (Z.abs b))%Q).
  { change 1%Q with (inject_Z 1). rewrite <- Zle_Qle. lia. }
  assert (A : (0 <= inject_Z (Z.abs a))%Q).
  { change 0%Q with (inject_Z 0). rewrite <- Zle_Qle. lia. }
  set (x := inject_Z (Z.abs a)) in *. set (y := inject_Z (Z.abs b)) in *.
  clearbody x y.
  assert (I : (0 < / y)%Q) by (apply Qinv_lt_0_compat; lra).
  assert (E : (y * / y == 1)%Q) by (apply Qmult_inv_r; lra).
  nra.
Qed.

Lemma float_of_int_in_range (n : Z) :
  Z.abs n < 2 ^ 1023 -> exists x, float_of_int n = Ok (Finite x).
Proof.
  intros H. unfold float_of_int.
  destruct (round64_finite (inject_Z n)) as [y ->]; [|eauto].
  rewrite Qabs_inject_Z, <- Zlt_Qlt. exact H.
Qed.

(** A quotient of integers raises ZeroDivisionError for the divisor zero
    and nothing else below [2 ^ 1023]. *)
Lemma int_truediv_in_range (a b : Z) :
  b <> 0 -> Z.abs a < 2 ^ 1023 -> exists q, int_truediv a b = Ok (Finite q).
Proof.
  intros Hb Ha. unfold int_truediv.
  destruct (b =? 0) eqn:E; [apply Z.eqb_eq in E; contradiction|].
  destruct (round64_finite (inject_Z a / inject_Z b)) as [y ->]; [|eauto].
  eapply Qle_lt_trans; [apply Qabs_quotient_le; exact Hb|].
  rewrite <- Zlt_Qlt. exact Ha.
Qed.

Lemma int_truediv_raises (a b : Z) (e : Exn) :
  int_truediv a b = Raise e ->
  (b = 0 /\ e = ZeroDivisionError) \/ (b <> 0 /\ e = OverflowError).
Proof.
  unfold int_truediv. destruct (b =? 0) eqn:E.
  - apply Z.eqb_eq in E. intros H. injection H as <-. left. auto.
  - apply Z.eqb_neq in E.
    destruct (round64 (inject_Z a / inject_Z b)); try discriminate.
    intros H. injection H as <-. right. auto.
Qed.

Lemma float_of_int_raises (n : Z) (e : Exn) :
  float_of_int n = Raise e -> e = OverflowError.
Proof.
  unfold float_of_int. destruct (round64 (inject_Z n)); try discriminate.
  intros H. injection H as <-. reflexivity.
Qed.

(** The float of a small integer is that integer. *)
Lemma float_of_int_1 : float_of_int 1 = Ok (Finite 1).
Proof. vm_compute. reflexivity. Qed.

Lemma float_of_int_100 : float_of_int 100 = Ok (Finite 100).
Proof. vm_compute. reflexivity. Qed.

Lemma float_of_int_1024 : float_of_int 1024 = Ok (Finite 1024).
Proof. vm_compute. reflexivity. Qed.

Lemma float_min_finite (a b : Q) :
  float_min (Finite a) (Finite b) = Finite (Qmin_first a b).
Proof.
  unfold float_min, float_lt, Qmin_first. destruct (Qle_bool a b); reflexivity.
Qed.

Lemma Qmin_first_cases (a b : Q) :
  (Qmin_first a b <= a)%Q /\ (Qmin_first a b <= b)%Q /\
  (Qmin_first a b = a \/ Qmin_first a b = b).
Proof.
  unfold Qmin_first. destruct (Qle_bool a b) eqn:E.
  - apply Qle_bool_iff in E. split; [lra|]. split; [exact E | left; reflexivity].
  - assert (~ (a <= b)%Q) by (intros H; apply Qle_bool_iff in H; congruence).
    split; [lra|]. split; [lra | right; reflexivity].
Qed.

Lemma Qtrunc_floor (x : Q) :
  (0 <= x)%Q ->
  (inject_Z (Qtrunc x) <= x)%Q /\ (x < inject_Z (Qtrunc x) + 1)%Q.
Proof.
  intros H. unfold Qtrunc.
  assert (Hn : 0 <= Qnum x).
  { unfold Qle in H. simpl in H. lia. }
  rewrite Z.quot_div_nonneg by lia.
  replace (Qnum x / Z.pos (Qden x)) with (Qfloor x) by (destruct x; reflexivity).
  split; [apply Qfloor_le|].
  pose proof (Qlt_floor x) as L. rewrite inject_Z_plus in L. exact L.
Qed.

Lemma Qtrunc_nonpos (x : Q) : (x <= 0)%Q -> Qtrunc x <= 0.
Proof.
  intros H. unfold Qtrunc.
  assert (Hn : Qnum x <= 0).
  { unfold Qle in H. simpl in H. lia. }
  rewrite <- (Z.opp_involutive (Qnum x)), Z.quot_opp_l by lia.
  pose proof (Z.quot_pos (- Qnum x) (Z.pos (Qden x)) ltac:(lia) ltac:(lia)). lia.
Qed.

Lemma Qtrunc_zero (x : Q) : (x == 0)%Q -> Qtrunc x = 0.
Proof.
  intros H. unfold Qtrunc.
  assert (Hn : Qnum x = 0).
  { unfold Qeq in H. simpl in H. lia. }
  rewrite Hn. reflexivity.
Qed.

(** On sample sizes the model computes what [SFdiv] and [SFmul] compute, in
    the middle of the range and at its two ends. *)
Lemma round64_agrees_with_binary64_on_samples :
  forallb (fun '(w, h, m) => agrees_with_binary64 w h m)
    [(2105, 1000, 2000); (3000, 1000, 2000); (49, 1, 1); (6000, 4000, 2000);
     (2001, 2001, 2000); (33554431, 7, 33554430); (9999, 12345, 777)] = true /\
  forallb (fun '(p, q, r, t) => extremes_agree_with_binary64 p q r t)
    [(1, 2 ^ 600, 3, 2 ^ 470); (1, 2 ^ 600, 2 ^ 53 - 1, 2 ^ 500);
     (7, 2 ^ 540, 5, 2 ^ 540); (2 ^ 600, 1, 2 ^ 600, 3); (2 ^ 1000, 3, 1, 2 ^ 60);
     (- (2 ^ 700), 1, 2 ^ 400, 7); (1, 3, 2 ^ 1000, 1)] = true.
Proof. split; vm_compute; reflexivity. Qed.

Lemma prod_upper (a b A B : Q) :
  (0 <= a -> a <= A -> 0 <= b -> b <= B -> a * b <= A * B)%Q.
Proof. intros. nra. Qed.

Lemma prod_lower (a b A B : Q) :
  (0 <= A -> A <= a -> 0 <= B -> B <= b -> A * B <= a * b)%Q.
Proof. intros. nra. Qed.

Lemma scale_chain (X M Wq r0 ratio fx C N : Q) :
  (0 < X -> X <= Wq -> 0 < M -> M <= Wq -> Wq <= 33554432 ->
  r0 * Wq == M ->
  round_down_factor * r0 <= ratio -> ratio <= round_up_factor * r0 ->
  round_down_factor * X <= fx -> fx <= round_up_factor * X ->
  round_down_factor * (fx * ratio) <= C -> C <= round_up_factor * (fx * ratio) ->
  N <= C -> C < N + 1 ->
  Wq * N < X * M + 1 /\ X * M - Wq - 1 < Wq * N)%Q.
Proof.
  unfold round_down_factor, round_up_factor.
  intros HX HXW HM HMW HW Hr0 Hr1 Hr2 Hf1 Hf2 HC1 HC2 HN1 HN2.
  assert (HWpos : (0 < Wq)%Q) by lra.
  assert (Hr0pos : (0 < r0)%Q) by nra.
  assert (HXM : (X * M <= 1125899906842624)%Q) by nra.
  assert (U : (fx * ratio <= ((9007199254740993 # 9007199254740992) * X)
                           * ((9007199254740993 # 9007199254740992) * r0))%Q).
  { apply prod_upper; lra. }
  assert (L : (((9007199254740991 # 9007199254740992) * X)
               * ((9007199254740991 # 9007199254740992) * r0) <= fx * ratio)%Q).
  { apply prod_lower; lra. }
  assert (E : (Wq * (X * r0) == X * M)%Q) by (rewrite <- Hr0; ring).
  set (y := (fx * ratio)%Q) in *. clearbody y.
  set (P := (X * r0)%Q) in *.
  assert (U' : (y <= (9007199254740993 # 9007199254740992)
                     * (9007199254740993 # 9007199254740992) * P)%Q) by (unfold P; lra).
  assert (L' : ((9007199254740991 # 9007199254740992)
                * (9007199254740991 # 9007199254740992) * P <= y)%Q) by (unfold P; lra).
  clearbody P.
  assert (WC1 : (Wq * C <= (9007199254740993 # 9007199254740992)
                           * (9007199254740993 # 9007199254740992)
                           * (9007199254740993 # 9007199254740992) * (Wq * P))%Q) by nra.
  assert (WC2 : ((9007199254740991 # 9007199254740992)
                 * (9007199254740991 # 9007199254740992)
                 * (9007199254740991 # 9007199254740992) * (Wq * P) <= Wq * C)%Q) by nra.
  assert (WN1 : (Wq * N <= Wq * C)%Q) by nra.
  assert (WN2 : (Wq * C < Wq * N + Wq)%Q) by nra.
  set (T := (Wq * P)%Q) in *. set (WC := (Wq * C)%Q) in *. set (WN := (Wq * N)%Q) in *.
  set (XM := (X * M)%Q) in *. clearbody T WC WN XM.
  split; lra.
Qed.

Lemma inject_Z_pos (n : Z) : 0 < n -> (0 < inject_Z n)%Q.
Proof. intros H. unfold Qlt. simpl. lia. Qed.

Lemma quotient_times (a b : Z) : 0 < b -> (inject_Z a / inject_Z b * inject_Z b == inject_Z a)%Q.
Proof.
  intros H. field. pose proof (inject_Z_pos b H). lra.
Qed.

(** ** The report *)

Lemma float_truediv_int_1024 (x : float) : exists y, float_truediv_int x 1024 = Ok y.
Proof.
  unfold float_truediv_int. rewrite float_of_int_1024. simpl.
  unfold float_truediv. change (Qeq_bool 1024 0) with false. cbv iota.
  destruct x; eauto.
Qed.

Lemma int_sub_float_1 (x : float) : exists y, int_sub_float 1 x = Ok y.
Proof. unfold int_sub_float. rewrite float_of_int_1. simpl. eauto. Qed.

Lemma float_mul_int_100 (x : float) : exists y, float_mul_int x 100 = Ok y.
Proof. unfold float_mul_int. rewrite float_of_int_100. simpl. eauto. Qed.

(** A size in bytes told in megabytes: the two divisions by 1024. *)
Lemma megabytes_raises (n : Z) (e : Exn) :
  (kb ← int_truediv n 1024; float_truediv_int kb 1024) = Raise e -> e = OverflowError.
Proof.
  destruct (int_truediv n 1024) as [kb|e'] eqn:E; bind_step.
  - destruct (float_truediv_int_1024 kb) as [mb ->]. discriminate.
  - intros H. injection H as <-.
    apply int_truediv_raises in E. destruct E as [[E _]|[_ E]]; [discriminate | exact E].
Qed.

Lemma megabytes_in_range (n : Z) :
  Z.abs n < 2 ^ 1023 ->
  exists mb, (kb ← int_truediv n 1024; float_truediv_int kb 1024) = Ok mb.
Proof.
  intros H. destruct (int_truediv_in_range n 1024 ltac:(lia) H) as [kb ->].
  bind_step. apply float_truediv_int_1024.
Qed.

(** Without a positive total nothing is divided. *)
Lemma report_not_positive (st : CompileState) :
  total_original_size st <= 0 -> report st = Ok [].
Proof.
  intros Hle. unfold report. destruct (0 <? total_original_size st) eqn:E;
    [apply Z.ltb_lt in E; lia | reflexivity].
Qed.

(** The only exception of [report] is the overflow of a quotient. *)
Lemma report_raises (st : CompileState) (e : Exn) :
  report st = Raise e -> e = OverflowError /\ 0 < total_original_size st.
Proof.
  unfold report. destruct (0 <? total_original_size st) eqn:E; [|discriminate].
  apply Z.ltb_lt in E. intros H. split; [|exact E]. revert H.
  destruct (int_truediv (total_compressed_size st) (total_original_size st))
    as [q|e1] eqn:E1; bind_step.
  - destruct (int_sub_float_1 q) as [d ->]. bind_step.
    destruct (float_mul_int_100 d) as [r ->]. bind_step.
    destruct (int_truediv (total_original_size st) 1024) as [o1|e2] eqn:E2; bind_step.
    + destruct (float_truediv_int_1024 o1) as [o2 ->]. bind_step.
      destruct (int_truediv (total_compressed_size st) 1024) as [c1|e3] eqn:E3;
        bind_step.
      * destruct (float_truediv_int_1024 c1) as [c2 ->]. discriminate.
      * intros H. injection H as <-. apply int_truediv_raises in E3.
        destruct E3 as [[E3 _]|[_ E3]]; [discriminate | exact E3].
    + intros H. injection H as <-. apply int_truediv_raises in E2.
      destruct E2 as [[E2 _]|[_ E2]]; [discriminate | exact E2].
  - intros H. injection H as <-. apply int_truediv_raises in E1.
    destruct E1 as [[E1 _]|[_ E1]]; [lia | exact E1].
Qed.

(** With totals below [2 ^ 1023] the report is printed. *)
Lemma report_in_range (st : CompileState) :
  0 < total_original_size st < 2 ^ 1023 ->
  Z.abs (total_compressed_size st) < 2 ^ 1023 ->
  exists q d compression_ratio original_mb compressed_mb,
    int_truediv (total_compressed_size st) (total_original_size st) = Ok q /\
    int_sub_float 1 q = Ok d /\
    float_mul_int d 100 = Ok compression_ratio /\
    report st = Ok [CompressionReport compression_ratio original_mb compressed_mb].
Proof.
  intros Ho Hc. unfold report.
  destruct (0 <? total_original_size st) eqn:E; [|apply Z.ltb_ge in E; lia].
  destruct (int_truediv_in_range (total_compressed_size st) (total_original_size st)
              ltac:(lia) Hc) as [q Hq].
  destruct (int_sub_float_1 (Finite q)) as [d Hd].
  destruct (float_mul_int_100 d) as [r Hr].
  destruct (int_truediv_in_range (total_original_size st) 1024 ltac:(lia) ltac:(lia))
    as [o1 Ho1].
  destruct (float_truediv_int_1024 (Finite o1)) as [o2 Ho2].
  destruct (int_truediv_in_range (total_compressed_size st) 1024 ltac:(lia) Hc)
    as [c1 Hc1].
  destruct (float_truediv_int_1024 (Finite c1)) as [c2 Hc2].
  exists (Finite q), d, r, o2, c2.
  rewrite Hq. bind_step. rewrite Hd. bind_step. rewrite Hr. bind_step.
  rewrite Ho1. bind_step. rewrite Ho2. bind_step. rewrite Hc1. bind_step.
  rewrite Hc2. bind_step. auto.
Qed.

Section CompilerFacts.

Variable image_open : Path -> Result Image.
Variable st_size : Path -> Z.
Variable jpeg_encode : Image -> Z -> Result (list Byte.byte).
Variable pdf_save : string -> Pdf -> Result unit.
Variable pdf_stat : string -> Result Z.

Local Abbreviation process :=
  (process_image image_open st_size jpeg_encode).
Local Abbreviation pages_of := (page_sequence image_open st_size jpeg_encode).
Local Abbreviation final := (final_state image_open st_size jpeg_encode).
Local Abbreviation pdf :=
  (create_pdf image_open st_size jpeg_encode pdf_save pdf_stat).

Lemma process_image_undecodable max_dimension jpeg_quality count st i p e :
  image_open p = Raise e ->
  images (process max_dimension jpeg_quality count st (i, p)) = images st.
Proof. intros H. unfold process_image. rewrite H. reflexivity. Qed.

Lemma fold_process_undecodable max_dimension jpeg_quality count items : forall st,
  Forall (fun item => exists e, image_open (snd item) = Raise e) items ->
  images (fold_left (process max_dimension jpeg_quality count) items st) = images st.
Proof.
  induction items as [|[i p] items IH]; intros st H; [reflexivity|].
  apply Forall_cons in H. destruct H as [[e He] H]. simpl fold_left.
  rewrite (IH _ H). apply (process_image_undecodable _ _ _ _ _ _ e). exact He.
Qed.

Lemma enumerate1_snd (P : Path -> Prop) (l : list Path) :
  Forall P l -> Forall (fun item => P (snd item)) (enumerate1 l).
Proof.
  unfold enumerate1. generalize 1%nat.
  induction l as [|p l IH]; intros n H; [constructor|].
  apply Forall_cons in H. destruct H as [Hp H].
  simpl. constructor; [exact Hp | apply IH; exact H].
Qed.

Lemma page_sequence_undecodable image_files max_dimension jpeg_quality :
  Forall (fun p => exists e, image_open p = Raise e) image_files ->
  pages_of image_files max_dimension jpeg_quality = [].
Proof.
  intros H. unfold page_sequence. rewrite fold_process_undecodable; [reflexivity|].
  apply (enumerate1_snd (fun p => exists e, image_open p = Raise e)). exact H.
Qed.

Lemma page_sequence_final image_files max_dimension jpeg_quality :
  pages_of image_files max_dimension jpeg_quality =
  images (final image_files max_dimension jpeg_quality).
Proof. reflexivity. Qed.

(** [create_pdf] in terms of the state its loop ends in. *)
Lemma create_pdf_unfold image_files output_pdf max_dimension jpeg_quality :
  pdf image_files output_pdf max_dimension jpeg_quality =
    match image_files with
    | [] => Ok (mkPdfRun [NoImagesToConvert] None)
    | _ =>
        let st := final image_files max_dimension jpeg_quality in
        match images st with
        | [] => Ok (mkPdfRun (console st ++ [NoValidImages]) None)
        | _ =>
            lines ← report st;
            let doc := mkPdf (images st) jpeg_quality 100 in
            _ ← pdf_save output_pdf doc;
            nbytes ← pdf_stat output_pdf;
            mb ← (kb ← int_truediv nbytes 1024; float_truediv_int kb 1024);
            Ok (mkPdfRun (console st ++ lines ++
                            [SavingPdf output_pdf; PdfCreated output_pdf; FileSize mb])
                         (Some (output_pdf, doc)))
        end
    end.
Proof.
  unfold create_pdf, final_state. destruct image_files as [|p l]; [reflexivity|].
  cbv zeta.
  destruct (images (fold_left _ _ _)) as [|first rest]; [reflexivity|].
  destruct (report _) as [lines|e]; simpl; [|reflexivity].
  destruct (pdf_save _ _) as [u|e]; simpl; [|reflexivity].
  destruct (pdf_stat _) as [n|e]; simpl; [|reflexivity].
  destruct (int_truediv n 1024) as [kb|e]; simpl; [|reflexivity].
  destruct (float_truediv_int kb 1024) as [mb|e]; reflexivity.
Qed.

(** With an empty page sequence [create_pdf] prints its message and returns
    without writing. *)
Lemma create_pdf_empty image_files output_pdf max_dimension jpeg_quality :
  pages_of image_files max_dimension jpeg_quality = [] ->
  exists msgs,
    pdf image_files output_pdf max_dimension jpeg_quality = Ok (mkPdfRun msgs None) /\
    (image_files = [] /\ msgs = [NoImagesToConvert] \/
     image_files <> [] /\ last msgs = Some NoValidImages).
Proof.
  intros H. rewrite create_pdf_unfold. destruct image_files as [|p l].
  - eexists. split; [reflexivity|]. left. split; reflexivity.
  - rewrite page_sequence_final in H. cbv zeta. rewrite H.
    eexists. split; [reflexivity|]. right. split; [discriminate|].
    apply last_snoc.
Qed.

(** With pages, a call that returns has saved the document of exactly those
    pages, after the report. *)
Lemma create_pdf_written image_files output_pdf max_dimension jpeg_quality run :
  pages_of image_files max_dimension jpeg_quality <> [] ->
  pdf image_files output_pdf max_dimension jpeg_quality = Ok run ->
  written run =
    Some (output_pdf, mkPdf (pages_of image_files max_dimension jpeg_quality)
                            jpeg_quality 100) /\
  pdf_save output_pdf (mkPdf (pages_of image_files max_dimension jpeg_quality)
                             jpeg_quality 100) = Ok tt /\
  exists lines nbytes mb,
    report (final image_files max_dimension jpeg_quality) = Ok lines /\
    pdf_stat output_pdf = Ok nbytes /\
    printed run =
      console (final image_files max_dimension jpeg_quality) ++ lines ++
        [SavingPdf output_pdf; PdfCreated output_pdf; FileSize mb].
Proof.
  intros Hne. rewrite create_pdf_unfold, page_sequence_final in *.
  destruct image_files as [|p l]; [contradiction Hne; reflexivity|]. cbv zeta.
  set (st := final (p :: l) max_dimension jpeg_quality) in *.
  destruct (images st) as [|first rest] eqn:E; [contradiction Hne; reflexivity|].
  destruct (report st) as [lines|e]; simpl; [|discriminate].
  destruct (pdf_save output_pdf _) as [[]|e]; simpl; [|discriminate].
  destruct (pdf_stat output_pdf) as [n|e]; simpl; [|discriminate].
  destruct (int_truediv n 1024) as [kb|e]; simpl; [|discriminate].
  destruct (float_truediv_int kb 1024) as [mb|e]; simpl; [|discriminate].
  intros H. injection H as <-. simpl. split; [reflexivity|]. split; [reflexivity|].
  exists lines, n, mb. auto.
Qed.

(** With pages, [create_pdf] returns when the report, the save and the size
    of the file raise nothing. *)
Lemma create_pdf_writes image_files output_pdf max_dimension jpeg_quality lines nbytes :
  pages_of image_files max_dimension jpeg_quality <> [] ->
  report (final image_files max_dimension jpeg_quality) = Ok lines ->
  pdf_save output_pdf (mkPdf (pages_of image_files max_dimension jpeg_quality)
                             jpeg_quality 100) = Ok tt ->
  pdf_stat output_pdf = Ok nbytes ->
  Z.abs nbytes < 2 ^ 1023 ->
  exists mb,
    pdf image_files output_pdf max_dimension jpeg_quality =
    Ok (mkPdfRun (console (final image_files max_dimension jpeg_quality) ++ lines ++
                    [SavingPdf output_pdf; PdfCreated output_pdf; FileSize mb])
          (Some (output_pdf,
                 mkPdf (pages_of image_files max_dimension jpeg_quality)
                       jpeg_quality 100))).
Proof.
  intros Hne Hrep Hsave Hstat Hn.
  rewrite create_pdf_unfold, page_sequence_final in *.
  destruct image_files as [|p l]; [contradiction Hne; reflexivity|]. cbv zeta.
  set (st := final (p :: l) max_dimension jpeg_quality) in *.
  destruct (images st) as [|first rest] eqn:E; [contradiction Hne; reflexivity|].
  rewrite Hrep. simpl. rewrite Hsave. simpl. rewrite Hstat. simpl.
  destruct (megabytes_in_range nbytes Hn) as [mb Hmb].
  exists mb. rewrite Hmb. reflexivity.
Qed.

(** An exception of [create_pdf] is the overflow of one of its quotients, or
    what the save or the size of the file raises; there are pages then. *)
Lemma create_pdf_raises image_files output_pdf max_dimension jpeg_quality e :
  pdf image_files output_pdf max_dimension jpeg_quality = Raise e ->
  pages_of image_files max_dimension jpeg_quality <> [] /\
  (e = OverflowError \/
   pdf_save output_pdf (mkPdf (pages_of image_files max_dimension jpeg_quality)
                              jpeg_quality 100) = Raise e \/
   pdf_stat output_pdf = Raise e).
Proof.
  rewrite create_pdf_unfold, page_sequence_final.
  destruct image_files as [|p l]; [discriminate|]. cbv zeta.
  set (st := final (p :: l) max_dimension jpeg_quality) in *.
  destruct (images st) as [|first rest] eqn:E; [discriminate|].
  intros H. split; [discriminate|]. revert H.
  destruct (report st) as [lines|e1] eqn:R; simpl.
  - destruct (pdf_save output_pdf _) as [u|e2]; simpl.
    + destruct (pdf_stat output_pdf) as [n|e3]; simpl.
      * destruct (kb ← int_truediv n 1024; float_truediv_int kb 1024)
          as [mb|e4] eqn:M; simpl; [discriminate|].
        intros H. injection H as <-. left. exact (megabytes_raises n e4 M).
      * intros H. injection H as <-. auto.
    + intros H. injection H as <-. auto.
  - intros H. injection H as <-. left. apply (report_raises st e1 R).
Qed.

End CompilerFacts.

(** C9. The quotient [total_compressed_size / total_original_size] is taken
    exactly when [total_original_size] is positive: with a total that is zero
    (or less) [report] prints nothing and divides nothing, and with a positive
    total the quotient never raises ZeroDivisionError, nor does [report]. With
    totals below [2 ^ 1023] no quotient overflows either, and [report] prints
    the percentage built on that quotient. An exception of [create_pdf] is
    never one of its own divisions by zero: it is the overflow of a quotient,
    or what the save or the size of the written file raises. *)
Theorem C9_ratio_divides_by_positive_total :
  (forall st,
     (total_original_size st <= 0 -> report st = Ok []) /\
     (0 < total_original_size st ->
      int_truediv (total_compressed_size st) (total_original_size st)
        <> Raise ZeroDivisionError) /\
     report st <> Raise ZeroDivisionError /\
     (0 < total_original_size st < 2 ^ 1023 ->
      Z.abs (total_compressed_size st) < 2 ^ 1023 ->
      exists q d compression_ratio original_mb compressed_mb,
        int_truediv (total_compressed_size st) (total_original_size st) = Ok q /\
        int_sub_float 1 q = Ok d /\
        float_mul_int d 100 = Ok compression_ratio /\
        report st =
          Ok [CompressionReport compression_ratio original_mb compressed_mb])) /\
  (forall (image_open : Path -> Result Image) (st_size : Path -> Z)
          (jpeg_encode : Image -> Z -> Result (list Byte.byte))
          (pdf_save : string -> Pdf -> Result unit) (pdf_stat : string -> Result Z)
          image_files output_pdf max_dimension jpeg_quality e,
     create_pdf image_open st_size jpeg_encode pdf_save pdf_stat image_files
       output_pdf max_dimension jpeg_quality = Raise e ->
     e = OverflowError \/
     pdf_save output_pdf
       (mkPdf (page_sequence image_open st_size jpeg_encode image_files
                 max_dimension jpeg_quality) jpeg_quality 100) = Raise e \/
     pdf_stat output_pdf = Raise e).
Proof.
  split.
  - intros st. split; [apply report_not_positive|]. split; [|split].
    + intros Hpos H. apply int_truediv_raises in H.
      destruct H as [[H _]|[_ H]]; [lia | discriminate].
    + intros H. apply report_raises in H. destruct H as [H _]. discriminate.
    + apply report_in_range.
  - intros image_open st_size jpeg_encode pdf_save pdf_stat image_files output_pdf
      max_dimension jpeg_quality e H.
    apply create_pdf_raises in H. destruct H as [_ H]. exact H.
Qed.

Lemma C9_witness :
  exists q d compression_ratio original_mb compressed_mb,
    int_truediv 40 100 = Ok q /\
    int_sub_float 1 q = Ok d /\
    float_mul_int d 100 = Ok compression_ratio /\
    report (mkCompileState [] 100 40 []) =
      Ok [CompressionReport compression_ratio original_mb compressed_mb].
Proof.
  apply (proj2 (proj2 (proj2 (proj1 C9_ratio_divides_by_positive_total
                                (mkCompileState [] 100 40 []))))).
  - simpl. split; [lia | reflexivity].
  - reflexivity.
Defined.

(** C4, as amended. When the page sequence of a call of [create_pdf] is
    empty, which is the case for an empty path list and when every input
    fails to decode, no PDF is written; [create_pdf] prints its message ("No
    images to convert to PDF!" or "No valid images to create PDF!") and
    returns normally, as it does after writing a PDF, so the caller gets no
    failure value. With a page sequence that is not empty a call that returns
    has saved the PDF, with exactly those pages, and the call returns when
    the report, the save and the size of the file raise nothing. The process
    exits with status 1 when the path list itself is empty, which [main]
    checks before it calls [create_pdf]; when the list is not empty and the
    page sequence is, the process exits with status 0. *)
Theorem C4_empty_page_sequence_writes_no_pdf
    (image_open : Path -> Result Image) (st_size : Path -> Z)
    (jpeg_encode : Image -> Z -> Result (list Byte.byte))
    (pdf_save : string -> Pdf -> Result unit) (pdf_stat : string -> Result Z) :
  (forall image_files max_dimension jpeg_quality,
     image_files = [] \/
     Forall (fun p => exists e, image_open p = Raise e) image_files ->
     page_sequence image_open st_size jpeg_encode image_files
       max_dimension jpeg_quality = []) /\
  (forall image_files output_pdf max_dimension jpeg_quality,
     page_sequence image_open st_size jpeg_encode image_files
       max_dimension jpeg_quality = [] ->
     exists msgs,
       create_pdf image_open st_size jpeg_encode pdf_save pdf_stat image_files
         output_pdf max_dimension jpeg_quality = Ok (mkPdfRun msgs None) /\
       (image_files = [] /\ msgs = [NoImagesToConvert] \/
        image_files <> [] /\ last msgs = Some NoValidImages)) /\
  (forall image_files output_pdf max_dimension jpeg_quality,
     page_sequence image_open st_size jpeg_encode image_files
       max_dimension jpeg_quality <> [] ->
     (forall run,
        create_pdf image_open st_size jpeg_encode pdf_save pdf_stat image_files
          output_pdf max_dimension jpeg_quality = Ok run ->
        written run =
          Some (output_pdf,
                mkPdf (page_sequence image_open st_size jpeg_encode image_files
                         max_dimension jpeg_quality) jpeg_quality 100) /\
        pdf_save output_pdf
          (mkPdf (page_sequence image_open st_size jpeg_encode image_files
                    max_dimension jpeg_quality) jpeg_quality 100) = Ok tt) /\
     (forall lines nbytes,
        report (final_state image_open st_size jpeg_encode image_files
                  max_dimension jpeg_quality) = Ok lines ->
        pdf_save output_pdf
          (mkPdf (page_sequence image_open st_size jpeg_encode image_files
                    max_dimension jpeg_quality) jpeg_quality 100) = Ok tt ->
        pdf_stat output_pdf = Ok nbytes ->
        Z.abs nbytes < 2 ^ 1023 ->
        exists msgs,
          create_pdf image_open st_size jpeg_encode pdf_save pdf_stat image_files
            output_pdf max_dimension jpeg_quality =
          Ok (mkPdfRun msgs
                (Some (output_pdf,
                       mkPdf (page_sequence image_open st_size jpeg_encode image_files
                                max_dimension jpeg_quality) jpeg_quality 100))))) /\
  (forall mkdir responses write_file fuel args fs,
     (skip_download args = true /\
      get_existing_images (arg_output_dir args) fs = [] \/
      skip_download args = false /\
      download_images BASE_URL PATTERN_format write_file (arg_output_dir args) 5
        responses fuel fs 1 (Some EXPECTED_COUNT) = Some (Ok [])) ->
     main mkdir responses write_file image_open st_size jpeg_encode pdf_save pdf_stat
       fuel args fs = Some (mkExit 1 None)) /\
  (forall mkdir responses write_file fuel args fs image_files,
     mkdir (arg_output_dir args) = Ok tt ->
     image_files <> [] ->
     (skip_download args = true /\
      get_existing_images (arg_output_dir args) fs = image_files \/
      skip_download args = false /\
      download_images BASE_URL PATTERN_format write_file (arg_output_dir args) 5
        responses fuel fs 1 (Some EXPECTED_COUNT) = Some (Ok image_files)) ->
     page_sequence image_open st_size jpeg_encode image_files
       (arg_max_dimension args) (arg_quality args) = [] ->
     exists msgs,
       main mkdir responses write_file image_open st_size jpeg_encode pdf_save pdf_stat
         fuel args fs = Some (mkExit 0 (Some (mkPdfRun msgs None)))).
Proof.
  split; [|split; [|split; [|split]]].
  - intros image_files max_dimension jpeg_quality [->|H]; [reflexivity|].
    apply page_sequence_undecodable. exact H.
  - intros image_files output_pdf max_dimension jpeg_quality H.
    apply create_pdf_empty. exact H.
  - intros image_files output_pdf max_dimension jpeg_quality H. split.
    + intros run Hrun.
      destruct (create_pdf_written image_open st_size jpeg_encode pdf_save pdf_stat
                  image_files output_pdf max_dimension jpeg_quality run H Hrun)
        as (W1 & W2 & _).
      split; assumption.
    + intros lines nbytes Hrep Hsave Hstat Hn.
      destruct (create_pdf_writes image_open st_size jpeg_encode pdf_save pdf_stat
                  image_files output_pdf max_dimension jpeg_quality lines nbytes
                  H Hrep Hsave Hstat Hn) as [mb Hrun].
      eexists. exact Hrun.
  - intros mkdir responses write_file fuel args fs [[Hs Hl]|[Hs Hl]];
      unfold main, ImageDownloader_init;
      destruct (mkdir (arg_output_dir args)); try reflexivity;
      rewrite Hs, Hl; reflexivity.
  - intros mkdir responses write_file fuel args fs image_files Hdir Hne Hfrom Hpages.
    destruct (create_pdf_empty image_open st_size jpeg_encode pdf_save pdf_stat
                image_files (arg_output_pdf args) (arg_max_dimension args)
                (arg_quality args) Hpages) as (msgs & Hrun & _).
    exists msgs.
    assert (Hc : compile image_open st_size jpeg_encode pdf_save pdf_stat args
                   image_files = mkExit 0 (Some (mkPdfRun msgs None))).
    { unfold compile. rewrite Hrun. reflexivity. }
    destruct image_files as [|p l]; [contradiction|].
    destruct Hfrom as [[Hs Hl]|[Hs Hl]]; unfold main, ImageDownloader_init;
      rewrite Hdir, Hs, Hl, Hc; reflexivity.
Qed.

Lemma C4_witness :
  exists msgs,
    create_pdf undecodable no_size empty_jpeg refuses_pdf pdf_of_2048_bytes
      [mkPath "downloaded_images" "image_000001.jp2"]
      "library_of_congress_images.pdf" 2000 85 = Ok (mkPdfRun msgs None) /\
    ([mkPath "downloaded_images" "image_000001.jp2"] = [] /\
     msgs = [NoImagesToConvert] \/
     [mkPath "downloaded_images" "image_000001.jp2"] <> [] /\
     last msgs = Some NoValidImages).
Proof.
  apply (proj1 (proj2 (C4_empty_page_sequence_writes_no_pdf
                         undecodable no_size empty_jpeg refuses_pdf
                         pdf_of_2048_bytes))).
  reflexivity.
Defined.

(** C4, as stated, fails: with one file in the directory that does not
    decode, [main] with [--skip-download] calls [create_pdf], whose page
    sequence is empty and which writes no PDF, and the process then ends with
    the exit status 0, not with a non-zero one. *)
Lemma C4_undecodable_images_exit_status_zero :
  page_sequence undecodable no_size empty_jpeg
    (get_existing_images "downloaded_images" {["image_000001.jp2" := []]})
    2000 85 = [] /\
  exists run,
    main makes_dir always_500 writes_succeed undecodable no_size empty_jpeg
      saves_pdf pdf_of_2048_bytes 0 skip_download_args
      {["image_000001.jp2" := []]} = Some (mkExit 0 (Some run)) /\
    written run = None.
Proof.
  split; [vm_compute; reflexivity|].
  eexists. split; [vm_compute; reflexivity | reflexivity].
Qed.

(** ** The resize step *)

(** One side [x] of an image, scaled by the factor of [new_size]: below
    [2 ^ 25] nothing leaves the normal range, every operation is one rounding
    to 53 bits, and the truncated product is within one pixel of the exact
    value. *)
Lemma scaled_side (x w h m : Z) :
  0 < w < 2 ^ 25 -> 0 < h < 2 ^ 25 -> 0 < m -> m < Z.max w h ->
  x = w \/ x = h ->
  exists a b product,
    int_truediv m w = Ok (Finite a) /\
    int_truediv m h = Ok (Finite b) /\
    int_mul_float x (float_min (Finite a) (Finite b)) = Ok (Finite product) /\
    (inject_Z (Qtrunc product) <= product)%Q /\
    (product < inject_Z (Qtrunc product) + 1)%Q /\
    Z.max w h * Qtrunc product <= x * m <= Z.max w h * Qtrunc product + Z.max w h.
Proof.
  intros Hw Hh Hm HmW Hx.
  set (W := Z.max w h) in *.
  assert (HWw : w <= W) by (unfold W; lia).
  assert (HWh : h <= W) by (unfold W; lia).
  assert (HW25 : W < 2 ^ 25) by (unfold W; lia).
  assert (HxW : 0 < x <= W) by (destruct Hx; subst x; lia).
  pose proof (inject_Z_pos w ltac:(lia)) as Qw.
  pose proof (inject_Z_pos h ltac:(lia)) as Qh.
  pose proof (inject_Z_pos m Hm) as Qm.
  pose proof (inject_Z_pos W ltac:(lia)) as QW.
  pose proof (inject_Z_pos x ltac:(lia)) as Qx.
  pose proof (quotient_times m w ltac:(lia)) as Tw.
  pose proof (quotient_times m h ltac:(lia)) as Th.
  pose proof (quotient_times m W ltac:(lia)) as TW.
  assert (LwW : (inject_Z w <= inject_Z W)%Q) by (rewrite <- Zle_Qle; lia).
  assert (LhW : (inject_Z h <= inject_Z W)%Q) by (rewrite <- Zle_Qle; lia).
  assert (LxW : (inject_Z x <= inject_Z W)%Q) by (rewrite <- Zle_Qle; lia).
  assert (LmW : (inject_Z m <= inject_Z W)%Q) by (rewrite <- Zle_Qle; lia).
  assert (L1w : (1 <= inject_Z w)%Q)
    by (change 1%Q with (inject_Z 1); rewrite <- Zle_Qle; lia).
  assert (L1h : (1 <= inject_Z h)%Q)
    by (change 1%Q with (inject_Z 1); rewrite <- Zle_Qle; lia).
  assert (L1x : (1 <= inject_Z x)%Q)
    by (change 1%Q with (inject_Z 1); rewrite <- Zle_Qle; lia).
  assert (L1m : (1 <= inject_Z m)%Q)
    by (change 1%Q with (inject_Z 1); rewrite <- Zle_Qle; lia).
  assert (LW25 : (inject_Z W <= 33554432)%Q).
  { change 33554432%Q with (inject_Z 33554432). rewrite <- Zle_Qle.
    change (2 ^ 25) with 33554432 in HW25. lia. }
  set (qa := (inject_Z m / inject_Z w)%Q) in *.
  set (qb := (inject_Z m / inject_Z h)%Q) in *.
  set (r0 := (inject_Z m / inject_Z W)%Q) in *.
  assert (Pqa : (0 < qa)%Q) by nra.
  assert (Pqb : (0 < qb)%Q) by nra.
  assert (Pr0 : (0 < r0)%Q) by nra.
  assert (Ra : (r0 <= qa)%Q) by nra.
  assert (Rb : (r0 <= qb)%Q) by nra.
  assert (Lr0 : (1 # 33554432 <= r0)%Q) by nra.
  assert (Uqa : (qa <= 33554432)%Q) by nra.
  assert (Uqb : (qb <= 33554432)%Q) by nra.
  destruct (fl_bounds qa Pqa) as [La Ua].
  destruct (fl_bounds qb Pqb) as [Lb Ub].
  remember (Qred (fl qa)) as a eqn:Da. remember (Qred (fl qb)) as b eqn:Db.
  assert (Ea : (a == fl qa)%Q) by (rewrite Da; apply Qred_correct).
  assert (Eb : (b == fl qb)%Q) by (rewrite Db; apply Qred_correct).
  rewrite <- Ea in La, Ua. rewrite <- Eb in Lb, Ub.
  destruct (Qmin_first_cases a b) as (Ma & Mb & Mc).
  remember (Qmin_first a b) as ratio eqn:Dr.
  assert (R1 : (round_down_factor * r0 <= ratio)%Q).
  { unfold round_down_factor in *. destruct Mc as [-> | ->]; lra. }
  assert (R2 : (ratio <= round_up_factor * r0)%Q).
  { unfold round_up_factor in *.
    destruct (Z.max_spec w h) as [[_ E]|[_ E]]; fold W in E.
    - assert (r0 = qb) as -> by (unfold r0, qb; rewrite E; reflexivity). lra.
    - assert (r0 = qa) as -> by (unfold r0, qa; rewrite E; reflexivity). lra. }
  destruct (fl_bounds (inject_Z x) Qx) as [Lx Ux].
  remember (Qred (fl (inject_Z x))) as fx eqn:Dx.
  assert (Ex : (fx == fl (inject_Z x))%Q) by (rewrite Dx; apply Qred_correct).
  rewrite <- Ex in Lx, Ux.
  assert (Pratio : (0 < ratio)%Q) by (unfold round_down_factor in R1; lra).
  assert (Pfx : (0 < fx)%Q) by (unfold round_down_factor in Lx; lra).
  assert (Py : (0 < fx * ratio)%Q) by nra.
  destruct (fl_bounds _ Py) as [Lc Uc].
  remember (Qred (fl (fx * ratio))) as product eqn:Dp.
  assert (Ep : (product == fl (fx * ratio))%Q) by (rewrite Dp; apply Qred_correct).
  rewrite <- Ep in Lc, Uc.
  assert (Pc : (0 < product)%Q) by (unfold round_down_factor in Lc; nra).
  (* the operations of the code *)
  assert (Hqa : int_truediv m w = Ok (Finite a)).
  { unfold int_truediv. destruct (w =? 0) eqn:Ew; [apply Z.eqb_eq in Ew; lia|].
    fold qa. rewrite round64_mid, <- Da; [reflexivity | lra | lra]. }
  assert (Hqb : int_truediv m h = Ok (Finite b)).
  { unfold int_truediv. destruct (h =? 0) eqn:Eh; [apply Z.eqb_eq in Eh; lia|].
    fold qb. rewrite round64_mid, <- Db; [reflexivity | lra | lra]. }
  assert (Hfx : float_of_int x = Ok (Finite fx)).
  { unfold float_of_int. rewrite round64_mid, <- Dx; [reflexivity | lra | lra]. }
  assert (Hprod : int_mul_float x (float_min (Finite a) (Finite b)) = Ok (Finite product)).
  { unfold int_mul_float. rewrite Hfx, float_min_finite, <- Dr. simpl.
    assert (B1 : ((1 # 2) <= fx)%Q) by (unfold round_down_factor in Lx; lra).
    assert (B2 : (fx <= 67108864)%Q) by (unfold round_up_factor in Ux; lra).
    assert (B3 : ((1 # 67108864) <= ratio)%Q) by (unfold round_down_factor in R1; lra).
    assert (B4 : (ratio <= 67108864)%Q).
    { assert (r0 <= 1)%Q by (clear -TW LmW QW; nra). unfold round_up_factor in R2. lra. }
    pose proof (prod_lower fx ratio (1 # 2) (1 # 67108864)
                  ltac:(lra) B1 ltac:(lra) B3) as B5.
    pose proof (prod_upper fx ratio 67108864 67108864
                  ltac:(lra) B2 ltac:(lra) B4) as B6.
    set (y := (fx * ratio)%Q) in *. clearbody y.
    rewrite round64_mid, <- Dp; [reflexivity | lra | lra]. }
  exists a, b, product.
  split; [exact Hqa|]. split; [exact Hqb|]. split; [exact Hprod|].
  destruct (Qtrunc_floor product ltac:(lra)) as [N1 N2].
  remember (Qtrunc product) as n eqn:Dn.
  split; [exact N1|]. split; [exact N2|].
  destruct (scale_chain (inject_Z x) (inject_Z m) (inject_Z W) r0 ratio
              fx product (inject_Z n)) as [C1 C2];
    try assumption.
  change 1%Q with (inject_Z 1) in C1, C2.
  rewrite <- !inject_Z_mult, <- !inject_Z_plus in C1.
  unfold Qminus in C2.
  rewrite <- !inject_Z_mult, <- !inject_Z_opp, <- !inject_Z_plus in C2.
  rewrite <- Zlt_Qlt in C1, C2. lia.
Qed.


Lemma new_size_within (max_dimension : Z) (img : Image) :
  width img <= max_dimension -> height img <= max_dimension ->
  new_size max_dimension img = Ok None /\ resize_step max_dimension img = Ok img.
Proof.
  intros Hw Hh. unfold resize_step, new_size.
  destruct (max_dimension <? width img) eqn:E1; [apply Z.ltb_lt in E1; lia|].
  destruct (max_dimension <? height img) eqn:E2; [apply Z.ltb_lt in E2; lia|].
  split; reflexivity.
Qed.

(** Beyond the maximum: the two quotients, their minimum, the two products
    and their truncations, as the code computes them. *)
Lemma new_size_beyond (max_dimension : Z) (img : Image) :
  0 < width img < 2 ^ 25 -> 0 < height img < 2 ^ 25 -> 0 < max_dimension ->
  max_dimension < width img \/ max_dimension < height img ->
  exists a b pw ph,
    int_truediv max_dimension (width img) = Ok (Finite a) /\
    int_truediv max_dimension (height img) = Ok (Finite b) /\
    int_mul_float (width img) (float_min (Finite a) (Finite b)) = Ok (Finite pw) /\
    int_mul_float (height img) (float_min (Finite a) (Finite b)) = Ok (Finite ph) /\
    new_size max_dimension img = Ok (Some (Qtrunc pw, Qtrunc ph)) /\
    (inject_Z (Qtrunc pw) <= pw)%Q /\ (pw < inject_Z (Qtrunc pw) + 1)%Q /\
    (inject_Z (Qtrunc ph) <= ph)%Q /\ (ph < inject_Z (Qtrunc ph) + 1)%Q /\
    Z.max (width img) (height img) * Qtrunc pw <= width img * max_dimension
      <= Z.max (width img) (height img) * Qtrunc pw + Z.max (width img) (height img) /\
    Z.max (width img) (height img) * Qtrunc ph <= height img * max_dimension
      <= Z.max (width img) (height img) * Qtrunc ph + Z.max (width img) (height img).
Proof.
  intros Hw Hh Hm Hbig.
  assert (HmW : max_dimension < Z.max (width img) (height img)) by lia.
  destruct (scaled_side (width img) (width img) (height img) max_dimension
              Hw Hh Hm HmW (or_introl eq_refl))
    as (a & b & pw & Ha & Hb & Hpw & W1 & W2 & W3).
  destruct (scaled_side (height img) (width img) (height img) max_dimension
              Hw Hh Hm HmW (or_intror eq_refl))
    as (a' & b' & ph & Ha' & Hb' & Hph & H1 & H2 & H3).
  rewrite Ha in Ha'. injection Ha' as <-. rewrite Hb in Hb'. injection Hb' as <-.
  exists a, b, pw, ph.
  split; [exact Ha|]. split; [exact Hb|]. split; [exact Hpw|]. split; [exact Hph|].
  split; [|auto 10].
  unfold new_size.
  assert (E : (max_dimension <? width img) || (max_dimension <? height img) = true).
  { apply orb_true_iff. rewrite !Z.ltb_lt. exact Hbig. }
  rewrite E, Ha, Hb. simpl. rewrite Hpw. simpl. rewrite Hph. reflexivity.
Qed.

(** C5, as amended. If both sides are within [max_dimension] the resize step
    returns the image as it is. Otherwise, for positive sides below [2 ^ 25]
    and a positive [max_dimension], the code takes the two float quotients
    [a = m / w] and [b = m / h], multiplies each side by the one factor
    [min(a, b)] in float arithmetic, and the new side is the product
    truncated toward zero by [int], not rounded to the nearest integer: the
    new side [n] satisfies [n <= product < n + 1]. Against the exact scaled
    value [x * m / max(w, h)] the new side is at most that value and at least
    that value minus one pixel. So the larger new side is [m] or [m - 1], and
    no side grows. *)
Theorem C5_resize_identity_or_truncated_scale (img : Image) (max_dimension : Z) :
  (width img <= max_dimension -> height img <= max_dimension ->
   new_size max_dimension img = Ok None /\ resize_step max_dimension img = Ok img) /\
  (0 < width img < 2 ^ 25 -> 0 < height img < 2 ^ 25 -> 0 < max_dimension ->
   max_dimension < width img \/ max_dimension < height img ->
   exists a b pw ph,
     int_truediv max_dimension (width img) = Ok (Finite a) /\
     int_truediv max_dimension (height img) = Ok (Finite b) /\
     int_mul_float (width img) (float_min (Finite a) (Finite b)) = Ok (Finite pw) /\
     int_mul_float (height img) (float_min (Finite a) (Finite b)) = Ok (Finite ph) /\
     new_size max_dimension img = Ok (Some (Qtrunc pw, Qtrunc ph)) /\
     (inject_Z (Qtrunc pw) <= pw)%Q /\ (pw < inject_Z (Qtrunc pw) + 1)%Q /\
     (inject_Z (Qtrunc ph) <= ph)%Q /\ (ph < inject_Z (Qtrunc ph) + 1)%Q /\
     Z.max (width img) (height img) * Qtrunc pw <= width img * max_dimension
       <= Z.max (width img) (height img) * Qtrunc pw + Z.max (width img) (height img) /\
     Z.max (width img) (height img) * Qtrunc ph <= height img * max_dimension
       <= Z.max (width img) (height img) * Qtrunc ph + Z.max (width img) (height img) /\
     (Z.max (Qtrunc pw) (Qtrunc ph) = max_dimension \/
      Z.max (Qtrunc pw) (Qtrunc ph) = max_dimension - 1) /\
     Qtrunc pw <= width img /\ Qtrunc ph <= height img).
Proof.
  split; [apply new_size_within|].
  intros Hw Hh Hm Hbig.
  destruct (new_size_beyond max_dimension img Hw Hh Hm Hbig)
    as (a & b & pw & ph & Ha & Hb & Hpw & Hph & Hsize & W1 & W2 & H1 & H2 & W3 & H3).
  exists a, b, pw, ph.
  split; [exact Ha|]. split; [exact Hb|]. split; [exact Hpw|]. split; [exact Hph|].
  split; [exact Hsize|]. split; [exact W1|]. split; [exact W2|].
  split; [exact H1|]. split; [exact H2|]. split; [exact W3|]. split; [exact H3|].
  set (w' := Qtrunc pw) in *. set (h' := Qtrunc ph) in *. clearbody w' h'.
  clear Ha Hb Hpw Hph Hsize W1 W2 H1 H2.
  set (w := width img) in *. set (h := height img) in *. clearbody w h.
  set (W := Z.max w h) in *.
  assert (HW : 0 < W) by (unfold W; lia).
  assert (Hww : w <= W) by (unfold W; lia).
  assert (Hhw : h <= W) by (unfold W; lia).
  assert (HmW : max_dimension < W) by (unfold W; lia).
  assert (Bw : w' <= max_dimension /\ w' < w) by (clearbody W; nia).
  assert (Bh : h' <= max_dimension /\ h' < h) by (clearbody W; nia).
  split; [|lia].
  destruct (Z.max_spec w h) as [[_ E]|[_ E]]; fold W in E.
  - assert (max_dimension - 1 <= h') by (clearbody W; subst h; nia). lia.
  - assert (max_dimension - 1 <= w') by (clearbody W; subst w; nia). lia.
Qed.

Lemma C5_witness :
  exists a b pw ph,
    int_truediv 2000 2105 = Ok (Finite a) /\
    int_truediv 2000 1000 = Ok (Finite b) /\
    int_mul_float 2105 (float_min (Finite a) (Finite b)) = Ok (Finite pw) /\
    int_mul_float 1000 (float_min (Finite a) (Finite b)) = Ok (Finite ph) /\
    new_size 2000 (sample_image 2105 1000) = Ok (Some (Qtrunc pw, Qtrunc ph)) /\
    (inject_Z (Qtrunc pw) <= pw)%Q /\ (pw < inject_Z (Qtrunc pw) + 1)%Q /\
    (inject_Z (Qtrunc ph) <= ph)%Q /\ (ph < inject_Z (Qtrunc ph) + 1)%Q /\
    Z.max 2105 1000 * Qtrunc pw <= 2105 * 2000
      <= Z.max 2105 1000 * Qtrunc pw + Z.max 2105 1000 /\
    Z.max 2105 1000 * Qtrunc ph <= 1000 * 2000
      <= Z.max 2105 1000 * Qtrunc ph + Z.max 2105 1000 /\
    (Z.max (Qtrunc pw) (Qtrunc ph) = 2000 \/ Z.max (Qtrunc pw) (Qtrunc ph) = 2000 - 1) /\
    Qtrunc pw <= 2105 /\ Qtrunc ph <= 1000.
Proof.
  apply (proj2 (C5_resize_identity_or_truncated_scale (sample_image 2105 1000) 2000)).
  - simpl. lia.
  - simpl. lia.
  - lia.
  - left. simpl. lia.
Defined.

(** C5, as stated, fails: [int] truncates. An image of 2105 by 1000 with
    [max_dimension = 2000] gets the size 1999 by 950, where rounding the same
    products to the nearest integer gives 2000 by 950, so the larger side is
    not [max_dimension]; an image of 3000 by 1000 gets 2000 by 666, where the
    nearest integers are 2000 and 667. *)
Lemma C5_int_truncates_below_nearest :
  new_size 2000 (sample_image 2105 1000) = Ok (Some (1999, 950)) /\
  new_size_spec 2000 (sample_image 2105 1000) = Ok (Some (2000, 950)) /\
  new_size 2000 (sample_image 3000 1000) = Ok (Some (2000, 666)) /\
  new_size_spec 2000 (sample_image 3000 1000) = Ok (Some (2000, 667)) /\
  new_size 2000 (sample_image 2105 1000) <> new_size_spec 2000 (sample_image 2105 1000).
Proof.
  assert (E1 : new_size 2000 (sample_image 2105 1000) = Ok (Some (1999, 950)))
    by (vm_compute; reflexivity).
  assert (E2 : new_size_spec 2000 (sample_image 2105 1000) = Ok (Some (2000, 950)))
    by (vm_compute; reflexivity).
  split; [exact E1|]. split; [exact E2|].
  split; [vm_compute; reflexivity|]. split; [vm_compute; reflexivity|].
  rewrite E1, E2. discriminate.
Qed.

(** * Further properties of the code *)

(** ** The run of the download loop, request by request *)

Section RunFacts.

Variable base_url : string.
Variable pattern_format : Z -> Result string.
Variable write_file : Path -> list Byte.byte -> Result unit.
Variable output_dir : string.
Variable max_consecutive_404s : Z.
Variable responses : nat -> Response.

Local Abbreviation guard := (loop_guard max_consecutive_404s).
Local Abbreviation body := (loop_body base_url pattern_format write_file output_dir responses).
Local Abbreviation iter := (iterate base_url pattern_format write_file output_dir responses).
Local Abbreviation while := (while_loop base_url pattern_format write_file output_dir
                                        max_consecutive_404s responses).
Local Abbreviation fname := (filename_of output_dir).


(** The request and the file of one iteration. *)
Lemma body_ok_request st st' :
  body st = Ok st' ->
  exists p,
    pattern_format (current st) = Ok p /\
    requested st' = requested st ++ [base_url +:+ p] /\
    files st' =
      match responses (length (requested st)) with
      | HttpResponse status_code content =>
          if status_code =? 200
          then <[name (fname (current st)) := content]> (files st)
          else files st
      | _ => files st
      end.
Proof.
  unfold loop_body. destruct (pattern_format (current st)) as [p|e]; bind_step;
    [|discriminate].
  match goal with
  | |- context [handle_response write_file ?s ?f ?r] =>
      destruct (handle_response write_file s f r) as [st2|e2] eqn:H2
  end; bind_step; [|discriminate].
  apply handle_response_ok in H2. destruct H2 as (_ & _ & _ & Hf & _ & Hreq & _).
  intros H. injection H as <-. exists p. split; [reflexivity|]. simpl.
  rewrite Hreq, Hf. split; reflexivity.
Qed.

Lemma iterate_ok_inv k : forall st st',
  iter k st = Ok st' ->
  current st' = current st + Z.of_nat k /\
  length (requested st') = (length (requested st) + k)%nat /\
  consecutive_404s st' <= Z.max 0 (consecutive_404s st) + Z.of_nat k.
Proof.
  induction k as [|k IH]; intros st st' H.
  - simpl in H. injection H as <-. repeat split; lia.
  - rewrite iterate_S_r in H.
    destruct (iter k st) as [st1|e] eqn:E; simpl in H; [|discriminate].
    destruct (IH st st1 E) as (I1 & I2 & I3).
    apply body_ok_inv in H. destruct H as (B1 & _ & B3 & B4 & _).
    split; [lia|]. split; [lia|]. rewrite B4.
    destruct (status_of (responses (length (requested st1)))) as [c|]; [|lia].
    destruct c as [|c|c]; try lia.
    repeat (destruct c as [c|c|]; try lia).
Qed.


(** Whatever the loop does, it only appends. *)
Lemma while_only_appends fuel : forall st st',
  while fuel st = Some (Ok st') ->
  downloaded_files st `prefix_of` downloaded_files st' /\
  requested st `prefix_of` requested st' /\
  dom (files st) ⊆ dom (files st') /\
  current st <= current st'.
Proof.
  induction fuel as [|fuel IH]; intros st st' H; simpl in H;
    destruct (guard st) eqn:G; try discriminate.
  - injection H as <-. repeat split; reflexivity || lia.
  - destruct (body st) as [st1|e] eqn:B; [|discriminate].
    destruct (IH st1 st' H) as (I1 & I2 & I3 & I4).
    destruct (body_ok_request st st1 B) as (p & _ & Hreq & _).
    apply body_ok_inv in B. destruct B as (B1 & _ & _ & _ & B5 & B6).
    split; [|split; [|split]].
    + etrans; [|exact I1]. rewrite B5. case_decide; [|reflexivity].
      apply prefix_app_r. reflexivity.
    + etrans; [|exact I2]. rewrite Hreq. apply prefix_app_r. reflexivity.
    + etrans; [|exact I3]. rewrite B6. case_decide; [|reflexivity].
      apply union_subseteq_r.
    + lia.
  - injection H as <-. repeat split; reflexivity || lia.
Qed.

End RunFacts.

Lemma name_filename_of_inj output_dir i j :
  name (filename_of output_dir i) = name (filename_of output_dir j) -> i = j.
Proof.
  intros H. apply (filename_of_inj output_dir). unfold filename_of in *.
  simpl in H. rewrite H. reflexivity.
Qed.

Section RunLog.

Variable base_url : string.
Variable pattern_format : Z -> Result string.
Variable write_file : Path -> list Byte.byte -> Result unit.
Variable output_dir : string.
Variable max_consecutive_404s : Z.
Variable responses : nat -> Response.
Variable fs : gmap string (list Byte.byte).
Variable start : Z.

Local Abbreviation reach :=
  (reachable base_url pattern_format write_file output_dir max_consecutive_404s responses fs start).
Local Abbreviation fname := (filename_of output_dir).

(** The cursor and the request log at the head of the loop. *)
Lemma reachable_requests st :
  reach st ->
  current st = start + Z.of_nat (length (requested st)) /\
  forall j url, requested st !! j = Some url ->
    exists p, pattern_format (start + Z.of_nat j) = Ok p /\ url = base_url +:+ p.
Proof.
  induction 1 as [|st st' _ (Hcur & Hreq) _ B].
  - split; [simpl; lia|]. intros j url H. simpl in H. discriminate.
  - destruct (body_ok_request _ _ _ _ _ _ _ B) as (p & Hp & Hlog & _).
    apply body_ok_inv in B. destruct B as (B1 & _ & B3 & _).
    split; [lia|]. intros j url H. rewrite Hlog in H.
    apply lookup_app_Some in H. destruct H as [H|[Hlen H]].
    + apply Hreq. exact H.
    + apply list_lookup_singleton_Some in H. destruct H as [Hj <-].
      exists p. split; [|reflexivity].
      replace (start + Z.of_nat j) with (current st) by lia. exact Hp.
Qed.

(** The saved list and the directory at the head of the loop. *)
Lemma reachable_files st :
  reach st ->
  downloaded_files st =
    fname <$> saved_indices responses start (length (requested st)) /\
  (forall j content,
     (j < length (requested st))%nat ->
     responses j = HttpResponse 200 content ->
     files st !! name (fname (start + Z.of_nat j)) = Some content) /\
  (forall n,
     (forall j, (j < length (requested st))%nat ->
                status_of (responses j) = Some 200 ->
                n <> name (fname (start + Z.of_nat j))) ->
     files st !! n = fs !! n).
Proof.
  induction 1 as [|st st' R (Hdl & Hin & Hout) G B].
  - split; [reflexivity|]. split; [intros j content Hj; simpl in Hj; lia|].
    intros n _. reflexivity.
  - destruct (reachable_requests st R) as (Hcur & _).
    destruct (body_ok_request _ _ _ _ _ _ _ B) as (p & _ & _ & Hfiles).
    apply body_ok_inv in B. destruct B as (B1 & _ & B3 & _ & B5 & _).
    rewrite B3. set (len := length (requested st)) in *.
    split; [|split].
    + rewrite saved_indices_S, B5, Hdl, Hcur.
      case_decide; [rewrite fmap_app; reflexivity | reflexivity].
    + intros j content Hj Hresp. rewrite Hfiles.
      destruct (decide (j = len)) as [->|Hne].
      * rewrite Hresp. simpl. rewrite Hcur. apply lookup_insert_eq.
      * assert (Hold : files st !! name (fname (start + Z.of_nat j)) = Some content)
          by (apply Hin; [lia | exact Hresp]).
        destruct (responses len) as [c content'| |msg]; try exact Hold.
        destruct (c =? 200); [|exact Hold].
        rewrite lookup_insert_ne; [exact Hold|].
        intros E. apply name_filename_of_inj in E. lia.
    + intros n Hn. rewrite Hfiles.
      assert (Hold : files st !! n = fs !! n).
      { apply Hout. intros j Hj. apply Hn. lia. }
      destruct (responses len) as [c content'| |msg] eqn:Er; try exact Hold.
      destruct (c =? 200) eqn:Ec; [|exact Hold].
      apply Z.eqb_eq in Ec. subst c.
      rewrite lookup_insert_ne; [exact Hold|].
      intros E. apply (Hn len); [lia | rewrite Er; reflexivity |].
      rewrite <- Hcur. symmetry. exact E.
Qed.

End RunLog.

Lemma sample_final_state_reachable :
  reachable BASE_URL PATTERN_format writes_succeed "downloaded_images" 2 (answers [200; 404; 200])
    ∅ 1 sample_final_state.
Proof.
  apply (while_returns_reachable BASE_URL PATTERN_format writes_succeed "downloaded_images" 2
           (answers [200; 404; 200]) ∅ 1 5 (init_state ∅ 1)).
  - apply reachable_init.
  - vm_compute. reflexivity.
Qed.

(** X1. At the head of the loop the cursor is the start index plus the number
    of requests made, and the request log lists, in order, the URLs
    [base_url + pattern.format(number=i)] of the indices from the start index
    on: every index is requested once, none is skipped and none is retried. *)
Theorem X1_requests_follow_the_indices
    (base_url : string) (pattern_format : Z -> Result string)
    (write_file : Path -> list Byte.byte -> Result unit) (output_dir : string)
    (max_consecutive_404s : Z) (responses : nat -> Response)
    (fs : gmap string (list Byte.byte)) (start : Z) (st : RunState) :
  reachable base_url pattern_format write_file output_dir max_consecutive_404s responses
    fs start st ->
  current st = start + Z.of_nat (length (requested st)) /\
  forall j url, requested st !! j = Some url ->
    exists p, pattern_format (start + Z.of_nat j) = Ok p /\ url = base_url +:+ p.
Proof. apply reachable_requests. Qed.

Lemma X1_witness :
  current sample_final_state = 1 + Z.of_nat (length (requested sample_final_state)) /\
  forall j url, requested sample_final_state !! j = Some url ->
    exists p, PATTERN_format (1 + Z.of_nat j) = Ok p /\ url = BASE_URL +:+ p.
Proof.
  apply (X1_requests_follow_the_indices BASE_URL PATTERN_format writes_succeed "downloaded_images"
           2 (answers [200; 404; 200]) ∅ 1 sample_final_state).
  apply sample_final_state_reachable.
Defined.

(** X2. At the head of the loop the saved list names exactly the indices
    answered with status 200 so far, in order; the file of each such index
    holds the body of its answer; and every other entry of the directory is as
    it was when the run started. *)
Theorem X2_saved_files_hold_the_bodies
    (base_url : string) (pattern_format : Z -> Result string)
    (write_file : Path -> list Byte.byte -> Result unit) (output_dir : string)
    (max_consecutive_404s : Z) (responses : nat -> Response)
    (fs : gmap string (list Byte.byte)) (start : Z) (st : RunState) :
  reachable base_url pattern_format write_file output_dir max_consecutive_404s responses
    fs start st ->
  downloaded_files st =
    filename_of output_dir <$> saved_indices responses start (length (requested st)) /\
  (forall j content,
     (j < length (requested st))%nat ->
     responses j = HttpResponse 200 content ->
     files st !! name (filename_of output_dir (start + Z.of_nat j)) = Some content) /\
  (forall n,
     (forall j, (j < length (requested st))%nat ->
                status_of (responses j) = Some 200 ->
                n <> name (filename_of output_dir (start + Z.of_nat j))) ->
     files st !! n = fs !! n).
Proof. apply reachable_files. Qed.

Lemma X2_witness :
  downloaded_files sample_final_state =
    filename_of "downloaded_images" <$>
      saved_indices (answers [200; 404; 200]) 1 (length (requested sample_final_state)) /\
  (forall j content,
     (j < length (requested sample_final_state))%nat ->
     answers [200; 404; 200] j = HttpResponse 200 content ->
     files sample_final_state !! name (filename_of "downloaded_images" (1 + Z.of_nat j))
       = Some content) /\
  (forall n,
     (forall j, (j < length (requested sample_final_state))%nat ->
                status_of (answers [200; 404; 200] j) = Some 200 ->
                n <> name (filename_of "downloaded_images" (1 + Z.of_nat j))) ->
     files sample_final_state !! n = (∅ : gmap string (list Byte.byte)) !! n).
Proof.
  apply (X2_saved_files_hold_the_bodies BASE_URL PATTERN_format writes_succeed "downloaded_images"
           2 (answers [200; 404; 200]) ∅ 1 sample_final_state).
  apply sample_final_state_reachable.
Defined.


(** X4. A run of the loop only appends: the saved list and the request log it
    ends with extend the ones it started from, no entry of the directory is
    removed, and the cursor does not go back. *)
Theorem X4_run_only_appends
    (base_url : string) (pattern_format : Z -> Result string)
    (write_file : Path -> list Byte.byte -> Result unit) (output_dir : string)
    (max_consecutive_404s : Z) (responses : nat -> Response)
    (fuel : nat) (st st' : RunState) :
  while_loop base_url pattern_format write_file output_dir max_consecutive_404s responses
    fuel st = Some (Ok st') ->
  downloaded_files st `prefix_of` downloaded_files st' /\
  requested st `prefix_of` requested st' /\
  dom (files st) ⊆ dom (files st') /\
  current st <= current st'.
Proof. apply while_only_appends. Qed.

Lemma X4_witness :
  downloaded_files (init_state ∅ 1) `prefix_of` downloaded_files sample_final_state /\
  requested (init_state ∅ 1) `prefix_of` requested sample_final_state /\
  dom (files (init_state ∅ 1)) ⊆ dom (files sample_final_state) /\
  current (init_state ∅ 1) <= current sample_final_state.
Proof.
  apply (X4_run_only_appends BASE_URL PATTERN_format writes_succeed "downloaded_images" 2
           (answers [200; 404; 200]) 5).
  vm_compute. reflexivity.
Defined.

(** X5. With a positive threshold a run that returns has made at least as
    many requests as the threshold asks for, its last request was answered
    with status 404, and the counter it ends with is the threshold exactly. *)
Theorem X5_run_ends_on_a_404
    (base_url : string) (pattern_format : Z -> Result string)
    (write_file : Path -> list Byte.byte -> Result unit) (output_dir : string)
    (max_consecutive_404s : Z) (responses : nat -> Response)
    (fuel : nat) (fs : gmap string (list Byte.byte)) (start : Z) (st : RunState) :
  0 < max_consecutive_404s ->
  while_loop base_url pattern_format write_file output_dir max_consecutive_404s responses
    fuel (init_state fs start) = Some (Ok st) ->
  exists k,
    length (requested st) = S k /\
    status_of (responses k) = Some 404 /\
    max_consecutive_404s <= Z.of_nat (S k) /\
    consecutive_404s st = max_consecutive_404s.
Proof.
  intros Hpos W. apply while_returns_iff in W.
  destruct W as (k & _ & Hit & Hg & Hlt).
  apply guard_false_iff in Hg.
  destruct k as [|k]; [simpl in Hit; injection Hit as <-; simpl in Hg; lia|].
  destruct (Hlt k ltac:(lia)) as (st1 & Hit1 & G1). apply guard_true_iff in G1.
  rewrite iterate_S_r, Hit1 in Hit. simpl in Hit.
  destruct (iterate_ok_inv _ _ _ _ _ _ _ _ Hit1) as (_ & Hlen1 & Hc1).
  simpl in Hlen1, Hc1.
  apply body_ok_inv in Hit. destruct Hit as (_ & _ & B3 & B4 & _).
  rewrite Hlen1 in B3, B4. exists k. split; [exact B3|].
  destruct (status_of (responses k)) as [c|] eqn:Es; [|lia].
  assert (Hc : c = 404).
  { destruct (Z.eq_dec c 404) as [E|E]; [exact E|]. exfalso.
    destruct c as [|c|c]; try lia.
    repeat (destruct c as [c|c|]; try lia). }
  subst c. split; [reflexivity|]. split; lia.
Qed.

Lemma X5_witness :
  exists k,
    length (requested sample_final_state) = S k /\
    status_of (answers [200; 404; 200] k) = Some 404 /\
    2 <= Z.of_nat (S k) /\
    consecutive_404s sample_final_state = 2.
Proof.
  apply (X5_run_ends_on_a_404 BASE_URL PATTERN_format writes_succeed "downloaded_images" 2
           (answers [200; 404; 200]) 5 ∅ 1 sample_final_state).
  - lia.
  - vm_compute. reflexivity.
Defined.

(** ** The directory scan on any directory *)

Lemma get_existing_images_elem output_dir (fs : gmap string (list Byte.byte)) p :
  p ∈ get_existing_images output_dir fs <->
  parent p = output_dir /\ name p ∈ dom fs /\ glob_jp2 (name p) = true.
Proof.
  unfold get_existing_images. rewrite merge_sort_Permutation, list_elem_of_fmap.
  split.
  - intros (n & -> & Hn). apply list_elem_of_filter in Hn. destruct Hn as [Hg Hn].
    apply elem_of_elements in Hn. simpl. split; [reflexivity|]. split; [exact Hn|].
    apply Is_true_true. exact Hg.
  - intros (Hp & Hn & Hg). exists (name p). split; [destruct p; simpl in *; congruence|].
    apply list_elem_of_filter. split; [apply Is_true_true; exact Hg|].
    apply elem_of_elements. exact Hn.
Qed.

Lemma get_existing_images_NoDup output_dir (fs : gmap string (list Byte.byte)) :
  NoDup (get_existing_images output_dir fs).
Proof.
  unfold get_existing_images. rewrite merge_sort_Permutation.
  apply NoDup_fmap_2.
  - intros a b E. injection E as E. exact E.
  - apply NoDup_filter, NoDup_elements.
Qed.

(** X6. On any directory [get_existing_images] returns a list sorted by path
    and without repetition, whose members are exactly the paths
    [output_dir / n] of the entries [n] that end in [.jp2]; it is empty exactly
    when the directory has no such entry. *)
Theorem X6_scan_lists_the_jp2_entries_sorted
    (output_dir : string) (fs : gmap string (list Byte.byte)) :
  StronglySorted path_le (get_existing_images output_dir fs) /\
  NoDup (get_existing_images output_dir fs) /\
  (forall p, p ∈ get_existing_images output_dir fs <->
             parent p = output_dir /\ name p ∈ dom fs /\ glob_jp2 (name p) = true) /\
  (get_existing_images output_dir fs = [] <->
   forall n, n ∈ dom fs -> glob_jp2 n = false).
Proof.
  split; [|split; [|split]].
  - unfold get_existing_images. apply StronglySorted_merge_sort; apply _.
  - apply get_existing_images_NoDup.
  - apply get_existing_images_elem.
  - split.
    + intros H n Hn. destruct (glob_jp2 n) eqn:G; [|reflexivity]. exfalso.
      assert (Hin : mkPath output_dir n ∈ get_existing_images output_dir fs)
        by (apply get_existing_images_elem; auto).
      rewrite H in Hin. apply not_elem_of_nil in Hin. exact Hin.
    + intros H. destruct (get_existing_images output_dir fs) as [|p l] eqn:E;
        [reflexivity|]. exfalso.
      assert (Hin : p ∈ get_existing_images output_dir fs)
        by (rewrite E; apply list_elem_of_here).
      apply get_existing_images_elem in Hin. destruct Hin as (_ & Hn & Hg).
      rewrite (H _ Hn) in Hg. discriminate.
Qed.

(** X7. After any run, whatever the range of the indices, every saved path is
    among the paths the scan of the directory returns; when the directory held
    no [.jp2] entry at the start, the scan returns the saved paths and no
    other, each once, so only their order can differ. *)
Theorem X7_scan_finds_every_saved_file
    (base_url : string) (pattern_format : Z -> Result string)
    (write_file : Path -> list Byte.byte -> Result unit) (output_dir : string)
    (max_consecutive_404s : Z) (responses : nat -> Response)
    (fs : gmap string (list Byte.byte)) (start : Z) (st : RunState) :
  reachable base_url pattern_format write_file output_dir max_consecutive_404s responses
    fs start st ->
  (forall p, p ∈ downloaded_files st ->
             p ∈ get_existing_images output_dir (files st)) /\
  NoDup (downloaded_files st) /\
  ((forall n, n ∈ dom fs -> glob_jp2 n = false) ->
   get_existing_images output_dir (files st) ≡ₚ downloaded_files st).
Proof.
  intros R.
  destruct (reachable_inv _ _ _ _ _ _ _ _ st R) as (idxs & Hdl & Hs & _ & _ & Hdom).
  assert (Hin : forall p, p ∈ downloaded_files st ->
                          p ∈ get_existing_images output_dir (files st)).
  { intros p Hp. apply get_existing_images_elem.
    assert (Hp' := Hp). rewrite Hdl in Hp'. apply list_elem_of_fmap in Hp'.
    destruct Hp' as (i & -> & Hi). split; [reflexivity|]. split.
    - rewrite Hdom. apply elem_of_union. right.
      apply elem_of_list_to_set, list_elem_of_fmap.
      exists (filename_of output_dir i). split; [reflexivity | exact Hp].
    - apply glob_jp2_filename_of. }
  assert (Hnd : NoDup (downloaded_files st)).
  { rewrite Hdl. apply NoDup_fmap_2; [apply _|]. apply StronglySorted_lt_NoDup.
    exact Hs. }
  split; [exact Hin|]. split; [exact Hnd|].
  intros Hfs. apply NoDup_Permutation.
  - apply get_existing_images_NoDup.
  - exact Hnd.
  - intros p. split; [|apply Hin].
    intros Hp. apply get_existing_images_elem in Hp. destruct Hp as (Hpar & Hn & Hg).
    rewrite Hdom in Hn. apply elem_of_union in Hn. destruct Hn as [Hn|Hn].
    + rewrite (Hfs _ Hn) in Hg. discriminate.
    + apply elem_of_list_to_set, list_elem_of_fmap in Hn.
      destruct Hn as (q & Hq & Hqin).
      assert (p = q); [|subst; exact Hqin].
      assert (Hq' := Hqin). rewrite Hdl in Hq'. apply list_elem_of_fmap in Hq'.
      destruct Hq' as (i & -> & _). destruct p as [d n]. simpl in *. subst.
      reflexivity.
Qed.

Lemma X7_witness :
  (forall p, p ∈ downloaded_files sample_final_state ->
             p ∈ get_existing_images "downloaded_images" (files sample_final_state)) /\
  NoDup (downloaded_files sample_final_state) /\
  ((forall n, n ∈ dom (∅ : gmap string (list Byte.byte)) -> glob_jp2 n = false) ->
   get_existing_images "downloaded_images" (files sample_final_state)
     ≡ₚ downloaded_files sample_final_state).
Proof.
  apply (X7_scan_finds_every_saved_file BASE_URL PATTERN_format writes_succeed "downloaded_images"
           2 (answers [200; 404; 200]) ∅ 1 sample_final_state).
  apply sample_final_state_reachable.
Defined.

(** ** The loop of the compiler, path by path *)

Section CompileLoop.

Variable image_open : Path -> Result Image.
Variable st_size : Path -> Z.
Variable jpeg_encode : Image -> Z -> Result (list Byte.byte).

Local Abbreviation process := (process_image image_open st_size jpeg_encode).
Local Abbreviation outcome := (process_path image_open jpeg_encode).
Local Abbreviation page := (page_of image_open jpeg_encode).
Local Abbreviation good := (succeeds image_open jpeg_encode).

(** One iteration, told by the outcome of the [try] block. *)
Lemma process_image_outcome max_dimension jpeg_quality count st i p :
  process max_dimension jpeg_quality count st (i, p) =
    match outcome max_dimension jpeg_quality p with
    | Ok (pg, nbytes) =>
        mkCompileState (images st ++ [pg]) (total_original_size st + st_size p)
                       (total_compressed_size st + nbytes)
                       (console st ++ [Processing i count])
    | Raise e =>
        mkCompileState (images st)
                       (if opens image_open p
                        then total_original_size st + st_size p
                        else total_original_size st)
                       (total_compressed_size st)
                       ((console st ++ [Processing i count]) ++ [Warning p e])
    end.
Proof.
  unfold process_image, process_path, opens.
  destruct (image_open p) as [img|e]; simpl; [|reflexivity].
  destruct (compress jpeg_encode max_dimension jpeg_quality img) as [[pg n]|e];
    reflexivity.
Qed.

Lemma warned_paths_app l1 l2 :
  warned_paths (l1 ++ l2) = warned_paths l1 ++ warned_paths l2.
Proof. unfold warned_paths. apply omap_app. Qed.

Lemma sum_Z_app l1 l2 : sum_Z (l1 ++ l2) = sum_Z l1 + sum_Z l2.
Proof.
  unfold sum_Z. induction l1 as [|x l1 IH]; simpl; [reflexivity|]. rewrite IH. lia.
Qed.

(** The four fields after the loop has gone through a list of paths. *)
Lemma fold_process_fields max_dimension jpeg_quality count (l : list Path) :
  forall (a : nat) (st : CompileState),
  let st' := fold_left (process max_dimension jpeg_quality count)
                       (combine (seq a (length l)) l) st in
  images st' = images st ++ (fst <$> omap (page max_dimension jpeg_quality) l) /\
  total_original_size st' =
    total_original_size st
    + sum_Z (st_size <$> filter (fun p => opens image_open p = true) l) /\
  total_compressed_size st' =
    total_compressed_size st
    + sum_Z (snd <$> omap (page max_dimension jpeg_quality) l) /\
  warned_paths (console st') =
    warned_paths (console st)
    ++ filter (fun p => good max_dimension jpeg_quality p = false) l.
Proof.
  induction l as [|p l IH]; intros a st.
  - simpl. rewrite !app_nil_r. unfold sum_Z. simpl. repeat split; reflexivity || lia.
  - cbn [length seq combine fold_left].
    specialize (IH (S a) (process max_dimension jpeg_quality count st (a, p))).
    cbv zeta in IH. destruct IH as (I1 & I2 & I3 & I4).
    cbv zeta. rewrite I1, I2, I3, I4. clear I1 I2 I3 I4.
    rewrite process_image_outcome.
    rewrite !filter_cons. cbn [omap list_omap].
    unfold page_of, succeeds, opens, process_path.
    destruct (image_open p) as [img|e]; simpl.
    + destruct (compress jpeg_encode max_dimension jpeg_quality img) as [[pg n]|e];
        simpl.
      * rewrite !warned_paths_app. simpl. rewrite !app_nil_r.
        rewrite <- !app_assoc. simpl. unfold sum_Z. simpl.
        repeat split; try reflexivity; symmetry; apply Z.add_assoc.
      * rewrite !warned_paths_app. simpl. rewrite !app_nil_r.
        rewrite <- !app_assoc. simpl. unfold sum_Z. simpl.
        repeat split; try reflexivity; symmetry; apply Z.add_assoc.
    + rewrite !warned_paths_app. simpl. rewrite !app_nil_r.
      rewrite <- !app_assoc. simpl.
      repeat split; reflexivity.
Qed.

End CompileLoop.

Section CompileResults.

Variable image_open : Path -> Result Image.
Variable st_size : Path -> Z.
Variable jpeg_encode : Image -> Z -> Result (list Byte.byte).

Local Abbreviation page := (page_of image_open jpeg_encode).
Local Abbreviation good := (succeeds image_open jpeg_encode).
Local Abbreviation pages_of := (page_sequence image_open st_size jpeg_encode).
Local Abbreviation final := (final_state image_open st_size jpeg_encode).

Lemma final_state_fields image_files max_dimension jpeg_quality :
  images (final image_files max_dimension jpeg_quality) =
    fst <$> omap (page max_dimension jpeg_quality) image_files /\
  total_original_size (final image_files max_dimension jpeg_quality) =
    sum_Z (st_size <$> filter (fun p => opens image_open p = true) image_files) /\
  total_compressed_size (final image_files max_dimension jpeg_quality) =
    sum_Z (snd <$> omap (page max_dimension jpeg_quality) image_files) /\
  warned_paths (console (final image_files max_dimension jpeg_quality)) =
    filter (fun p => good max_dimension jpeg_quality p = false) image_files.
Proof.
  unfold final_state, enumerate1.
  destruct (fold_process_fields image_open st_size jpeg_encode max_dimension
              jpeg_quality (length image_files) image_files 1%nat
              (mkCompileState [] 0 0
                 [CreatingPdf (length image_files) max_dimension jpeg_quality]))
    as (I1 & I2 & I3 & I4).
  cbv zeta in I1, I2, I3, I4. rewrite I1, I2, I3, I4. simpl.
  repeat split; reflexivity.
Qed.

Lemma page_or_warning max_dimension jpeg_quality (l : list Path) :
  (length (omap (page max_dimension jpeg_quality) l)
   + length (filter (fun p => good max_dimension jpeg_quality p = false) l))%nat
  = length l.
Proof.
  induction l as [|p l IH]; [reflexivity|].
  rewrite filter_cons. cbn [omap list_omap]. unfold page_of, succeeds in *.
  destruct (process_path image_open jpeg_encode max_dimension jpeg_quality p);
    simpl; lia.
Qed.

Lemma page_of_bytes max_dimension jpeg_quality p pg n :
  page max_dimension jpeg_quality p = Some (pg, n) -> 0 <= n.
Proof.
  unfold page_of, process_path. destruct (image_open p) as [img|e]; simpl;
    [|discriminate].
  unfold compress.
  destruct (resize_step max_dimension img) as [img1|e]; simpl; [|discriminate].
  destruct (jpeg_encode (to_rgb img1) jpeg_quality) as [buffer|e]; simpl;
    [|discriminate].
  intros H. injection H as _ <-. lia.
Qed.

(** The messages of [report] are no warnings. *)
Lemma report_no_warning st lines : report st = Ok lines -> warned_paths lines = [].
Proof.
  unfold report.
  destruct (0 <? total_original_size st); [|intros H; injection H as <-; reflexivity].
  destruct (int_truediv (total_compressed_size st) (total_original_size st)) as [q|e];
    bind_step; [|discriminate].
  destruct (int_sub_float 1 q) as [d|e]; bind_step; [|discriminate].
  destruct (float_mul_int d 100) as [r|e]; bind_step; [|discriminate].
  destruct (int_truediv (total_original_size st) 1024) as [o1|e]; bind_step;
    [|discriminate].
  destruct (float_truediv_int o1 1024) as [o2|e]; bind_step; [|discriminate].
  destruct (int_truediv (total_compressed_size st) 1024) as [c1|e]; bind_step;
    [|discriminate].
  destruct (float_truediv_int c1 1024) as [c2|e]; bind_step; [|discriminate].
  intros H. injection H as <-. reflexivity.
Qed.

End CompileResults.

Lemma omap_length_le {A B} (f : A -> option B) (l : list A) :
  (length (omap f l) <= length l)%nat.
Proof.
  induction l as [|x l IH]; [reflexivity|].
  cbn [omap list_omap]. destruct (f x); simpl; lia.
Qed.

Lemma filter_false_nil {A} (f : A -> bool) (l : list A) :
  Forall (fun x => f x = true) l -> filter (fun x => f x = false) l = [].
Proof.
  induction 1 as [|x l Hx _ IH]; [reflexivity|].
  rewrite filter_cons. rewrite Hx. simpl. exact IH.
Qed.

(** X8. The pages [create_pdf] holds after its loop are the pages of the
    inputs that pass the [try] block, in the order of the input list; an input
    that raises is left out and the others keep their order. There are never
    more pages than inputs, and as many when no input raises. The PDF that is
    written has exactly these pages, at [output_pdf], with the given quality
    and the resolution 100. *)
Theorem X8_pages_are_the_inputs_that_pass_in_order
    (image_open : Path -> Result Image) (st_size : Path -> Z)
    (jpeg_encode : Image -> Z -> Result (list Byte.byte))
    (pdf_save : string -> Pdf -> Result unit) (pdf_stat : string -> Result Z)
    (image_files : list Path) (max_dimension jpeg_quality : Z) :
  page_sequence image_open st_size jpeg_encode image_files max_dimension jpeg_quality =
    fst <$> omap (page_of image_open jpeg_encode max_dimension jpeg_quality)
                 image_files /\
  (length (page_sequence image_open st_size jpeg_encode image_files
             max_dimension jpeg_quality) <= length image_files)%nat /\
  (Forall (fun p => succeeds image_open jpeg_encode max_dimension jpeg_quality p = true)
          image_files ->
   length (page_sequence image_open st_size jpeg_encode image_files
             max_dimension jpeg_quality) = length image_files) /\
  (forall output_pdf run doc_path doc,
     create_pdf image_open st_size jpeg_encode pdf_save pdf_stat image_files output_pdf
       max_dimension jpeg_quality = Ok run ->
     written run = Some (doc_path, doc) ->
     doc_path = output_pdf /\
     pages doc =
       fst <$> omap (page_of image_open jpeg_encode max_dimension jpeg_quality)
                    image_files /\
     pdf_quality doc = jpeg_quality /\ pdf_resolution doc = 100).
Proof.
  destruct (final_state_fields image_open st_size jpeg_encode image_files
              max_dimension jpeg_quality) as (I1 & _).
  rewrite page_sequence_final, I1.
  split; [reflexivity|]. split; [|split].
  - rewrite length_fmap. apply omap_length_le.
  - intros Hall. rewrite length_fmap.
    pose proof (page_or_warning image_open jpeg_encode max_dimension jpeg_quality
                  image_files) as Hsum.
    rewrite (filter_false_nil _ image_files Hall) in Hsum. simpl in Hsum. lia.
  - intros output_pdf run doc_path doc Hrun Hw.
    destruct (page_sequence image_open st_size jpeg_encode image_files
                max_dimension jpeg_quality) as [|pg l] eqn:E.
    + destruct (create_pdf_empty image_open st_size jpeg_encode pdf_save pdf_stat
                  image_files output_pdf max_dimension jpeg_quality E)
        as (msgs & Hrun' & _).
      rewrite Hrun' in Hrun. injection Hrun as <-. discriminate.
    + destruct (create_pdf_written image_open st_size jpeg_encode pdf_save pdf_stat
                  image_files output_pdf max_dimension jpeg_quality run)
        as (Hw' & _); [rewrite E; discriminate | exact Hrun |].
      rewrite Hw' in Hw. injection Hw as <- <-. simpl.
      rewrite page_sequence_final, I1.
      repeat split; reflexivity.
Qed.

Lemma X8_witness :
  length (page_sequence sample_open sample_size sample_jpeg
            [mkPath "downloaded_images" "image_000001.jp2";
             mkPath "downloaded_images" "image_000003.jp2"] 2000 85) = 2%nat.
Proof.
  apply (proj1 (proj2 (proj2 (X8_pages_are_the_inputs_that_pass_in_order
           sample_open sample_size sample_jpeg saves_pdf pdf_of_2048_bytes
           [mkPath "downloaded_images" "image_000001.jp2";
            mkPath "downloaded_images" "image_000003.jp2"] 2000 85)))).
  repeat constructor.
Defined.

(** X9. When the loop of [create_pdf] is over, [total_original_size] is the
    sum of the file sizes of the inputs that [Image.open] reads, also of those
    that raise later in the [try] block and give no page, and
    [total_compressed_size] is the sum of the JPEG sizes of the pages only.
    The compressed total is never negative, and neither is the original total
    when no file size is. *)
Theorem X9_totals_are_sums_over_the_inputs
    (image_open : Path -> Result Image) (st_size : Path -> Z)
    (jpeg_encode : Image -> Z -> Result (list Byte.byte))
    (image_files : list Path) (max_dimension jpeg_quality : Z) :
  total_original_size
    (final_state image_open st_size jpeg_encode image_files max_dimension jpeg_quality)
    = sum_Z (st_size <$> filter (fun p => opens image_open p = true) image_files) /\
  total_compressed_size
    (final_state image_open st_size jpeg_encode image_files max_dimension jpeg_quality)
    = sum_Z (snd <$> omap (page_of image_open jpeg_encode max_dimension jpeg_quality)
                          image_files) /\
  0 <= total_compressed_size
         (final_state image_open st_size jpeg_encode image_files
            max_dimension jpeg_quality) /\
  ((forall p, 0 <= st_size p) ->
   0 <= total_original_size
          (final_state image_open st_size jpeg_encode image_files
             max_dimension jpeg_quality)).
Proof.
  destruct (final_state_fields image_open st_size jpeg_encode image_files
              max_dimension jpeg_quality) as (_ & I2 & I3 & _).
  rewrite I2, I3. clear I2 I3. split; [reflexivity|]. split; [reflexivity|]. split.
  - induction image_files as [|p l IH]; [unfold sum_Z; simpl; lia|].
    cbn [omap list_omap].
    destruct (page_of image_open jpeg_encode max_dimension jpeg_quality p)
      as [[pg n]|] eqn:E; [|exact IH].
    apply page_of_bytes in E. rewrite fmap_cons. unfold sum_Z in *. simpl. lia.
  - intros Hsize. induction image_files as [|p l IH]; [unfold sum_Z; simpl; lia|].
    rewrite filter_cons. destruct (decide (opens image_open p = true)); [|exact IH].
    rewrite fmap_cons. unfold sum_Z in *. simpl. specialize (Hsize p). lia.
Qed.

Lemma X9_witness :
  0 <= total_original_size
         (final_state sample_open sample_size sample_jpeg sample_paths 2000 85).
Proof.
  apply (proj2 (proj2 (proj2 (X9_totals_are_sums_over_the_inputs
           sample_open sample_size sample_jpeg sample_paths 2000 85)))).
  intros p. unfold sample_size. lia.
Defined.

(** X10. Every input of [create_pdf] ends as a page or as a warning: the
    warnings printed by a call on a list that is not empty name exactly the
    inputs that raise in the [try] block, in input order, and the number of
    pages plus the number of warnings is the number of inputs. *)
Theorem X10_every_input_is_a_page_or_a_warning
    (image_open : Path -> Result Image) (st_size : Path -> Z)
    (jpeg_encode : Image -> Z -> Result (list Byte.byte))
    (pdf_save : string -> Pdf -> Result unit) (pdf_stat : string -> Result Z)
    (image_files : list Path) (output_pdf : string) (max_dimension jpeg_quality : Z)
    (run : PdfRun) :
  image_files <> [] ->
  create_pdf image_open st_size jpeg_encode pdf_save pdf_stat image_files output_pdf
    max_dimension jpeg_quality = Ok run ->
  warned_paths (printed run) =
    filter (fun p => succeeds image_open jpeg_encode max_dimension jpeg_quality p = false)
           image_files /\
  (length (page_sequence image_open st_size jpeg_encode image_files
             max_dimension jpeg_quality)
   + length (warned_paths (printed run)))%nat = length image_files.
Proof.
  intros Hne Hrun.
  destruct (final_state_fields image_open st_size jpeg_encode image_files
              max_dimension jpeg_quality) as (I1 & _ & _ & I4).
  assert (Hw : warned_paths (printed run) =
               warned_paths (console (final_state image_open st_size jpeg_encode
                                        image_files max_dimension jpeg_quality))).
  { revert Hrun. rewrite create_pdf_unfold.
    destruct image_files as [|p l]; [contradiction|]. cbv zeta.
    set (st := final_state _ _ _ _ _ _).
    destruct (images st) as [|first rest].
    - intros H. injection H as <-. simpl. rewrite warned_paths_app. simpl.
      apply app_nil_r.
    - destruct (report st) as [lines|e] eqn:R; bind_step; [|discriminate].
      destruct (pdf_save output_pdf _) as [u|e]; bind_step; [|discriminate].
      destruct (pdf_stat output_pdf) as [n|e]; bind_step; [|discriminate].
      destruct (kb ← int_truediv n 1024; float_truediv_int kb 1024) as [mb|e];
        bind_step; [|discriminate].
      intros H. injection H as <-. simpl.
      rewrite !warned_paths_app, (report_no_warning st lines R). simpl.
      apply app_nil_r. }
  rewrite Hw, I4. split; [reflexivity|].
  rewrite page_sequence_final, I1, length_fmap.
  apply page_or_warning.
Qed.

Lemma X10_witness :
  exists run,
    create_pdf sample_open sample_size sample_jpeg saves_pdf pdf_of_2048_bytes
      sample_paths "out.pdf" 2000 85 = Ok run /\
    warned_paths (printed run) = [mkPath "downloaded_images" "image_000002.jp2"] /\
    (length (page_sequence sample_open sample_size sample_jpeg sample_paths 2000 85)
     + length (warned_paths (printed run)))%nat = 3%nat.
Proof.
  destruct (create_pdf sample_open sample_size sample_jpeg saves_pdf pdf_of_2048_bytes
              sample_paths "out.pdf" 2000 85) as [run|e] eqn:Hrun;
    [|vm_compute in Hrun; discriminate].
  exists run. split; [reflexivity|].
  destruct (X10_every_input_is_a_page_or_a_warning sample_open sample_size sample_jpeg
              saves_pdf pdf_of_2048_bytes sample_paths "out.pdf" 2000 85 run
              ltac:(discriminate) Hrun)
    as [H1 H2].
  split; [rewrite H1; vm_compute; reflexivity | exact H2].
Defined.

(** ** The resize step at its edges *)

(** X11. When a decoded image reports a side of zero and the other side, or
    the zero side itself, is beyond [max_dimension], the resize step raises:
    the quotient for the zero side raises ZeroDivisionError, unless the
    height is the zero side and the quotient for the width, which is taken
    first, overflows. Below [2 ^ 1023] nothing overflows. The [try] block
    catches the exception: the image gives no page, its file size is counted,
    and a warning with that exception is printed. *)
Theorem X11_zero_side_is_caught_as_a_warning
    (img : Image) (max_dimension : Z) :
  width img = 0 \/ height img = 0 ->
  max_dimension < width img \/ max_dimension < height img ->
  exists e,
    new_size max_dimension img = Raise e /\
    resize_step max_dimension img = Raise e /\
    (e = ZeroDivisionError \/
     e = OverflowError /\ width img <> 0 /\
     int_truediv max_dimension (width img) = Raise OverflowError) /\
    (width img = 0 \/ Z.abs max_dimension < 2 ^ 1023 -> e = ZeroDivisionError) /\
    forall (image_open : Path -> Result Image) (st_size : Path -> Z)
           (jpeg_encode : Image -> Z -> Result (list Byte.byte))
           jpeg_quality count st i p,
      image_open p = Ok img ->
      process_image image_open st_size jpeg_encode max_dimension jpeg_quality count
        st (i, p) =
      mkCompileState (images st) (total_original_size st + st_size p)
                     (total_compressed_size st)
                     ((console st ++ [Processing i count]) ++ [Warning p e]).
Proof.
  intros Hzero Hbig.
  assert (E : (max_dimension <? width img) || (max_dimension <? height img) = true).
  { apply orb_true_iff. rewrite !Z.ltb_lt. exact Hbig. }
  assert (N : exists e,
            new_size max_dimension img = Raise e /\
            (e = ZeroDivisionError \/
             e = OverflowError /\ width img <> 0 /\
             int_truediv max_dimension (width img) = Raise OverflowError) /\
            (width img = 0 \/ Z.abs max_dimension < 2 ^ 1023 -> e = ZeroDivisionError)).
  { unfold new_size. rewrite E.
    destruct (Z.eq_dec (width img) 0) as [Ew|Ew].
    - rewrite Ew. exists ZeroDivisionError. repeat split; auto.
    - assert (Eh : height img = 0) by (destruct Hzero; [contradiction | assumption]).
      destruct (int_truediv max_dimension (width img)) as [a|e1] eqn:Ha; bind_step.
      + rewrite Eh. exists ZeroDivisionError. repeat split; auto.
      + pose proof (int_truediv_raises _ _ _ Ha) as [[H _]|[_ ->]]; [contradiction|].
        exists OverflowError. split; [reflexivity|]. split; [right; auto|].
        intros [H|H]; [contradiction|].
        destruct (int_truediv_in_range max_dimension (width img) Ew H) as [q Hq].
        congruence. }
  destruct N as (e & N & Hcase & Hrange).
  assert (R : resize_step max_dimension img = Raise e).
  { unfold resize_step. rewrite N. reflexivity. }
  exists e. split; [exact N|]. split; [exact R|]. split; [exact Hcase|].
  split; [exact Hrange|].
  intros image_open st_size jpeg_encode jpeg_quality count st i p Hopen.
  unfold process_image. rewrite Hopen. unfold compress. rewrite R. reflexivity.
Qed.

Lemma X11_witness :
  exists e,
    new_size 5 (sample_image 0 10) = Raise e /\
    resize_step 5 (sample_image 0 10) = Raise e /\
    (e = ZeroDivisionError \/
     e = OverflowError /\ width (sample_image 0 10) <> 0 /\
     int_truediv 5 (width (sample_image 0 10)) = Raise OverflowError) /\
    (width (sample_image 0 10) = 0 \/ Z.abs 5 < 2 ^ 1023 -> e = ZeroDivisionError) /\
    forall (image_open : Path -> Result Image) (st_size : Path -> Z)
           (jpeg_encode : Image -> Z -> Result (list Byte.byte))
           jpeg_quality count st i p,
      image_open p = Ok (sample_image 0 10) ->
      process_image image_open st_size jpeg_encode 5 jpeg_quality count st (i, p) =
      mkCompileState (images st) (total_original_size st + st_size p)
                     (total_compressed_size st)
                     ((console st ++ [Processing i count]) ++ [Warning p e]).
Proof.
  apply (X11_zero_side_is_caught_as_a_warning (sample_image 0 10) 5).
  - left. reflexivity.
  - right. simpl. lia.
Defined.

Lemma rne_div_nonneg (num den : Z) : 0 < den -> 0 <= num -> 0 <= rne_div num den.
Proof.
  intros Hd Hn. pose proof (rne_div_half num den Hd) as H.
  set (r := rne_div num den) in *. clearbody r. nia.
Qed.

Lemma round_subnormal_nonneg (x : Q) : (0 <= x)%Q -> (0 <= round_subnormal x)%Q.
Proof.
  intros H. unfold round_subnormal, Qle. cbn [Qnum Qden]. rewrite Z.mul_1_r, Z.mul_0_l.
  assert (Hn : 0 <= Qnum x).
  { unfold Qle in H. simpl in H. lia. }
  apply rne_div_nonneg; [lia|].
  apply Z.mul_nonneg_nonneg; [exact Hn|]. apply Z.pow_nonneg. lia.
Qed.

Lemma fl_nonneg (x : Q) : (0 <= x)%Q -> (0 <= fl x)%Q.
Proof.
  intros H. destruct (Q_dec x 0) as [[Hneg|Hpos]|Hz].
  - lra.
  - pose proof (fl_pos x Hpos). lra.
  - assert (Hn : Qnum x = 0).
    { unfold Qeq in Hz. simpl in Hz. lia. }
    rewrite (fl_zero x Hn). lra.
Qed.

Lemma round64_nonneg (x : Q) (y : Q) :
  (0 <= x)%Q -> round64 x = Finite y -> (0 <= y)%Q.
Proof.
  intros H E.
  destruct (round64_cases x) as [(_ & _ & E')|[(_ & _ & E')|(_ & E')]];
    rewrite E' in E; try discriminate; injection E as <-; rewrite Qred_correct.
  - apply fl_nonneg. exact H.
  - apply round_subnormal_nonneg. exact H.
Qed.

(** A subnormal rounding moves a number by less than one. *)
Lemma round_subnormal_abs (x : Q) : (Qabs (round_subnormal x) <= Qabs x + 1)%Q.
Proof.
  unfold round_subnormal.
  pose proof (rne_div_half (Qnum x * 2 ^ 1074) (QDen x) ltac:(lia)) as H.
  set (r := rne_div (Qnum x * 2 ^ 1074) (QDen x)) in *. clearbody r.
  destruct x as [n d]. cbn [Qnum Qden] in *.
  unfold Qabs, Qle, Qplus. cbn [Qnum Qden].
  rewrite !Pos2Z.inj_mul. change (Z.pos (2 ^ 1074)) with (2 ^ 1074).
  assert (K : 0 < 2 ^ 1074) by (apply Z.pow_pos_nonneg; lia).
  set (k := 2 ^ 1074) in *. clearbody k.
  assert (D : 0 < Z.pos d) by lia. set (dd := Z.pos d) in *. clearbody dd.
  nia.
Qed.

Lemma round64_abs_bound (x y : Q) :
  round64 x = Finite y -> (Qabs y <= 2 * Qabs x + 1)%Q.
Proof.
  intros E. pose proof (Qabs_nonneg x) as P.
  destruct (round64_cases x) as [(_ & _ & E')|[(_ & _ & E')|(_ & E')]];
    rewrite E' in E; try discriminate; injection E as <-; rewrite Qred_correct.
  - pose proof (fl_abs_upper x) as U. unfold round_up_factor in U. lra.
  - pose proof (round_subnormal_abs x) as U. lra.
Qed.

Lemma int_truediv_ok_inv (a b : Z) (x : float) :
  int_truediv a b = Ok x ->
  b <> 0 /\ exists q, x = Finite q /\ round64 (inject_Z a / inject_Z b) = Finite q.
Proof.
  unfold int_truediv. destruct (b =? 0) eqn:E; [discriminate|].
  apply Z.eqb_neq in E. intros H. split; [exact E|].
  destruct (round64_cases (inject_Z a / inject_Z b))
    as [(_ & _ & E')|[(_ & _ & E')|(_ & E')]]; rewrite E' in H |- *;
    try discriminate; injection H as <-; eauto.
Qed.

Lemma float_of_int_ok_inv (n : Z) (x : float) :
  float_of_int n = Ok x -> exists q, x = Finite q /\ round64 (inject_Z n) = Finite q.
Proof.
  unfold float_of_int. intros H.
  destruct (round64_cases (inject_Z n))
    as [(_ & _ & E')|[(_ & _ & E')|(_ & E')]]; rewrite E' in H |- *;
    try discriminate; injection H as <-; eauto.
Qed.

(** The truncated product of a positive integer and a float that is not
    positive: OverflowError, or an integer that is not positive. *)
Lemma nonpos_product (n : Z) (r : Q) :
  0 < n -> (r <= 0)%Q ->
  (pw ← int_mul_float n (Finite r); int_of_float pw) = Raise OverflowError \/
  exists k,
    (pw ← int_mul_float n (Finite r); int_of_float pw) = Ok k /\ k <= 0 /\
    ((r == 0)%Q -> k = 0).
Proof.
  intros Hn Hr. unfold int_mul_float.
  destruct (float_of_int n) as [fn|e] eqn:F; bind_step.
  - apply float_of_int_ok_inv in F. destruct F as (q & -> & Fq).
    assert (Pq : (0 <= q)%Q).
    { apply (round64_nonneg (inject_Z n)); [|exact Fq].
      pose proof (inject_Z_pos n Hn). lra. }
    unfold float_mul.
    assert (Hqr : (q * r <= 0)%Q) by nra.
    pose proof (round64_nonpos (q * r) Hqr) as S.
    destruct (round64 (q * r)) as [y|s|] eqn:E.
    + destruct S as [(y' & Ey & Hy)|(Ey & _)]; [injection Ey as <- | discriminate].
      right. exists (Qtrunc y). split; [reflexivity|].
      split; [apply Qtrunc_nonpos; exact Hy|].
      intros Hz. apply Qtrunc_zero. apply Qle_antisym; [exact Hy|].
      apply (round64_nonneg (q * r)); [rewrite Hz; lra | exact E].
    + left. reflexivity.
    + destruct S as [(y' & Ey & _)|(Ey & _)]; discriminate.
  - left. apply float_of_int_raises in F. subst e. reflexivity.
Qed.

(** Below [2 ^ 500] the product does not overflow. *)
Lemma product_bound_500 :
  ((2 * inject_Z (2 ^ 500) + 1) * (2 * inject_Z (2 ^ 500) + 1) < inject_Z (2 ^ 1023))%Q.
Proof. unfold Qlt. vm_compute. reflexivity. Qed.

Lemma product_in_range (n : Z) (r : Q) :
  Z.abs n < 2 ^ 500 -> (Qabs r <= 2 * inject_Z (2 ^ 500) + 1)%Q ->
  exists k, (pw ← int_mul_float n (Finite r); int_of_float pw) = Ok k.
Proof.
  intros Hn Hr. unfold int_mul_float.
  destruct (float_of_int_in_range n ltac:(lia)) as [q F].
  pose proof F as F'. apply float_of_int_ok_inv in F'.
  destruct F' as (q' & Eq & Fq). injection Eq as <-.
  rewrite F. bind_step. unfold float_mul.
  destruct (round64_finite (q * r)) as [y ->]; [|simpl; eauto].
  pose proof (round64_abs_bound _ _ Fq) as Bq.
  rewrite Qabs_inject_Z in Bq.
  assert (Bn : (inject_Z (Z.abs n) <= inject_Z (2 ^ 500))%Q)
    by (rewrite <- Zle_Qle; lia).
  pose proof product_bound_500 as P.
  rewrite Qabs_Qmult.
  pose proof (Qabs_nonneg q) as Nq. pose proof (Qabs_nonneg r) as Nr.
  set (B := inject_Z (2 ^ 500)) in *. set (H := inject_Z (2 ^ 1023)) in *.
  set (aq := Qabs q) in *. set (ar := Qabs r) in *. set (an := inject_Z (Z.abs n)) in *.
  clearbody B H aq ar an.
  assert (U : (aq * ar <= (2 * B + 1) * (2 * B + 1))%Q).
  { apply prod_upper; lra. }
  lra.
Qed.

(** X12. With a [max_dimension] that is zero or negative every image with
    positive sides is beyond it, and the resize step never gets a positive
    side: the size computed has no positive side, and is 0 by 0 for
    [max_dimension = 0], unless a conversion or a product overflows and
    OverflowError is raised. Below [2 ^ 500] nothing overflows and the size
    is computed. *)
Theorem X12_nonpositive_max_dimension_gives_no_positive_side
    (img : Image) (max_dimension : Z) :
  0 < width img -> 0 < height img -> max_dimension <= 0 ->
  (new_size max_dimension img = Raise OverflowError \/
   exists w' h',
     new_size max_dimension img = Ok (Some (w', h')) /\
     w' <= 0 /\ h' <= 0 /\
     (max_dimension = 0 -> w' = 0 /\ h' = 0)) /\
  (- 2 ^ 500 < max_dimension -> width img < 2 ^ 500 -> height img < 2 ^ 500 ->
   exists w' h', new_size max_dimension img = Ok (Some (w', h'))).
Proof.
  intros Hw Hh Hm.
  assert (E : (max_dimension <? width img) || (max_dimension <? height img) = true).
  { apply orb_true_iff. rewrite !Z.ltb_lt. lia. }
  assert (Qm : (inject_Z max_dimension <= 0)%Q).
  { change 0%Q with (inject_Z 0). rewrite <- Zle_Qle. exact Hm. }
  assert (Hquot : forall x, 0 < x -> (inject_Z max_dimension / inject_Z x <= 0)%Q /\
            (max_dimension = 0 -> (inject_Z max_dimension / inject_Z x == 0)%Q)).
  { intros x Hx. pose proof (inject_Z_pos x Hx) as Px.
    pose proof (quotient_times max_dimension x Hx) as T.
    split; [nra|]. intros ->. unfold Qdiv. change (inject_Z 0) with 0%Q. ring. }
  split.
  - unfold new_size. rewrite E.
    destruct (int_truediv max_dimension (width img)) as [a|e] eqn:Ha; bind_step;
      [|apply int_truediv_raises in Ha; destruct Ha as [[Ha _]|[_ ->]];
        [lia | left; reflexivity]].
    destruct (int_truediv max_dimension (height img)) as [b|e] eqn:Hb; bind_step;
      [|apply int_truediv_raises in Hb; destruct Hb as [[Hb _]|[_ ->]];
        [lia | left; reflexivity]].
    apply int_truediv_ok_inv in Ha. destruct Ha as (_ & qa & -> & Ra).
    apply int_truediv_ok_inv in Hb. destruct Hb as (_ & qb & -> & Rb).
    destruct (Hquot (width img) Hw) as [Na Za].
    destruct (Hquot (height img) Hh) as [Nb Zb].
    assert (Sa : (qa <= 0)%Q).
    { destruct (round64_nonpos _ Na) as [(y & Ey & Hy)|(Ey & _)]; [|congruence].
      rewrite Ra in Ey. injection Ey as <-. exact Hy. }
    assert (Sb : (qb <= 0)%Q).
    { destruct (round64_nonpos _ Nb) as [(y & Ey & Hy)|(Ey & _)]; [|congruence].
      rewrite Rb in Ey. injection Ey as <-. exact Hy. }
    rewrite float_min_finite.
    destruct (Qmin_first_cases qa qb) as (_ & _ & Mc).
    set (ratio := Qmin_first qa qb) in *.
    assert (Sr : (ratio <= 0)%Q) by (destruct Mc as [-> | ->]; assumption).
    assert (Zr : max_dimension = 0 -> (ratio == 0)%Q).
    { intros Hz. apply Qle_antisym; [exact Sr|].
      destruct Mc as [-> | ->].
      - apply (round64_nonneg (inject_Z max_dimension / inject_Z (width img)));
          [rewrite (Za Hz); lra | exact Ra].
      - apply (round64_nonneg (inject_Z max_dimension / inject_Z (height img)));
          [rewrite (Zb Hz); lra | exact Rb]. }
    clearbody ratio.
    destruct (nonpos_product (width img) ratio Hw Sr) as [Pw|(w' & Pw & Lw & Zw)].
    + left. revert Pw.
      destruct (int_mul_float (width img) (Finite ratio)) as [pw|e]; bind_step.
      * intros ->. reflexivity.
      * intros H. injection H as ->. reflexivity.
    + revert Pw.
      destruct (int_mul_float (width img) (Finite ratio)) as [pw|e]; bind_step;
        [|discriminate].
      intros ->. bind_step.
      destruct (nonpos_product (height img) ratio Hh Sr) as [Ph|(h' & Ph & Lh & Zh)].
      * left. revert Ph.
        destruct (int_mul_float (height img) (Finite ratio)) as [ph|e]; bind_step.
        -- intros ->. reflexivity.
        -- intros H. injection H as ->. reflexivity.
      * revert Ph.
        destruct (int_mul_float (height img) (Finite ratio)) as [ph|e]; bind_step;
          [|discriminate].
        intros ->. bind_step. right. exists w', h'.
        split; [reflexivity|]. split; [exact Lw|]. split; [exact Lh|].
        intros Hz. split; [apply Zw | apply Zh]; apply Zr; exact Hz.
  - intros Rm Rw Rh. unfold new_size. rewrite E.
    destruct (int_truediv_in_range max_dimension (width img) ltac:(lia)
                ltac:(assert (2 ^ 500 < 2 ^ 1023) by reflexivity; lia)) as [qa Ha].
    destruct (int_truediv_in_range max_dimension (height img) ltac:(lia)
                ltac:(assert (2 ^ 500 < 2 ^ 1023) by reflexivity; lia)) as [qb Hb].
    rewrite Ha, Hb. bind_step. rewrite float_min_finite.
    assert (Bm : (inject_Z (Z.abs max_dimension) <= inject_Z (2 ^ 500))%Q)
      by (rewrite <- Zle_Qle; lia).
    assert (Ba : (Qabs qa <= 2 * inject_Z (2 ^ 500) + 1)%Q).
    { apply int_truediv_ok_inv in Ha. destruct Ha as (Hne & q & Eq & Rq).
      injection Eq as <-. pose proof (round64_abs_bound _ _ Rq) as B.
      pose proof (Qabs_quotient_le max_dimension (width img) Hne) as Q.
      set (B500 := inject_Z (2 ^ 500)) in *. clearbody B500. lra. }
    assert (Bb : (Qabs qb <= 2 * inject_Z (2 ^ 500) + 1)%Q).
    { apply int_truediv_ok_inv in Hb. destruct Hb as (Hne & q & Eq & Rq).
      injection Eq as <-. pose proof (round64_abs_bound _ _ Rq) as B.
      pose proof (Qabs_quotient_le max_dimension (height img) Hne) as Q.
      set (B500 := inject_Z (2 ^ 500)) in *. clearbody B500. lra. }
    destruct (Qmin_first_cases qa qb) as (_ & _ & Mc).
    set (ratio := Qmin_first qa qb) in *.
    assert (Br : (Qabs ratio <= 2 * inject_Z (2 ^ 500) + 1)%Q)
      by (destruct Mc as [-> | ->]; assumption).
    clearbody ratio.
    destruct (product_in_range (width img) ratio ltac:(lia) Br) as [w' Pw].
    destruct (product_in_range (height img) ratio ltac:(lia) Br) as [h' Ph].
    revert Pw. destruct (int_mul_float (width img) (Finite ratio)) as [pw|e];
      bind_step; [|discriminate].
    intros ->. bind_step.
    revert Ph. destruct (int_mul_float (height img) (Finite ratio)) as [ph|e];
      bind_step; [|discriminate].
    intros ->. bind_step. eauto.
Qed.

Lemma X12_witness :
  exists w' h', new_size (-1) (sample_image 10 5) = Ok (Some (w', h')).
Proof.
  apply (X12_nonpositive_max_dimension_gives_no_positive_side (sample_image 10 5) (-1)).
  - simpl. lia.
  - simpl. lia.
  - lia.
  - reflexivity.
  - reflexivity.
  - reflexivity.
Defined.

(** ** The pages *)

Lemma to_rgb_shape (img : Image) :
  mode (to_rgb img) = "RGB" /\
  width (to_rgb img) = width img /\ height (to_rgb img) = height img.
Proof.
  unfold to_rgb. destruct (mode_in img ["RGBA"; "LA"; "P"]).
  - repeat split; reflexivity.
  - destruct (String.eqb_spec (mode img) "RGB") as [E|E]; simpl;
      repeat split; try reflexivity. exact E.
Qed.

Lemma resize_beyond_fits (img img1 : Image) (max_dimension : Z) :
  0 < width img < 2 ^ 25 -> 0 < height img < 2 ^ 25 -> 0 < max_dimension ->
  max_dimension < width img \/ max_dimension < height img ->
  resize_step max_dimension img = Ok img1 ->
  width img1 <= max_dimension /\ height img1 <= max_dimension /\
  width img1 <= width img /\ height img1 <= height img /\
  mode img1 = mode img.
Proof.
  intros Hw Hh Hm Hbig H.
  destruct (new_size_beyond max_dimension img Hw Hh Hm Hbig)
    as (a & b & pw & ph & _ & _ & _ & _ & Hsize & _ & _ & _ & _ & W3 & H3).
  unfold resize_step in H. rewrite Hsize in H. rewrite bind_Ok in H.
  set (w' := Qtrunc pw) in *. set (h' := Qtrunc ph) in *.
  clearbody w' h'. unfold resize in H. simpl in H.
  destruct ((1 <=? w') && (1 <=? h')); [|discriminate].
  injection H as <-. simpl.
  set (w := width img) in *. set (h := height img) in *. clearbody w h.
  set (W := Z.max w h) in *.
  assert (HW : 0 < W) by (unfold W; lia).
  assert (Hww : w <= W) by (unfold W; lia).
  assert (Hhw : h <= W) by (unfold W; lia).
  assert (HmW : max_dimension < W) by (unfold W; lia).
  clearbody W.
  assert (Bw : w' <= max_dimension /\ w' < w) by nia.
  assert (Bh : h' <= max_dimension /\ h' < h) by nia.
  repeat split; lia || reflexivity.
Qed.

(** The image the resize step hands on is within the maximum and no larger
    than the image it got. *)
Lemma resize_step_fits (img img1 : Image) (max_dimension : Z) :
  0 < width img < 2 ^ 25 -> 0 < height img < 2 ^ 25 -> 0 < max_dimension ->
  resize_step max_dimension img = Ok img1 ->
  width img1 <= max_dimension /\ height img1 <= max_dimension /\
  width img1 <= width img /\ height img1 <= height img /\
  mode img1 = mode img.
Proof.
  intros Hw Hh Hm H.
  destruct (Z_le_gt_dec (width img) max_dimension) as [Lw|Lw];
    [destruct (Z_le_gt_dec (height img) max_dimension) as [Lh|Lh]|].
  - destruct (new_size_within max_dimension img Lw Lh) as [_ R].
    rewrite R in H. injection H as <-. repeat split; lia.
  - apply (resize_beyond_fits img img1 max_dimension); auto. right. lia.
  - apply (resize_beyond_fits img img1 max_dimension); auto. left. lia.
Qed.

(** X13. For images with positive sides below [2 ^ 25] and a positive
    [max_dimension], every page [create_pdf] holds after its loop has mode
    [RGB] and is at most [max_dimension] wide and at most [max_dimension]
    high. *)
Theorem X13_every_page_fits_max_dimension
    (image_open : Path -> Result Image) (st_size : Path -> Z)
    (jpeg_encode : Image -> Z -> Result (list Byte.byte))
    (image_files : list Path) (max_dimension jpeg_quality : Z) :
  (forall p img, image_open p = Ok img ->
     0 < width img < 2 ^ 25 /\ 0 < height img < 2 ^ 25) ->
  0 < max_dimension ->
  Forall (fun pg => mode pg = "RGB" /\
                    width pg <= max_dimension /\ height pg <= max_dimension)
         (page_sequence image_open st_size jpeg_encode image_files
            max_dimension jpeg_quality).
Proof.
  intros Hsizes Hm.
  destruct (final_state_fields image_open st_size jpeg_encode image_files
              max_dimension jpeg_quality) as (I1 & _).
  rewrite page_sequence_final, I1. clear I1.
  induction image_files as [|p l IH]; [constructor|].
  cbn [omap list_omap].
  destruct (page_of image_open jpeg_encode max_dimension jpeg_quality p)
    as [[pg n]|] eqn:E; [|exact IH].
  rewrite fmap_cons. constructor; [|exact IH]. simpl.
  unfold page_of, process_path in E.
  destruct (image_open p) as [img|e] eqn:Hopen; simpl in E; [|discriminate].
  destruct (Hsizes p img Hopen) as [Hw Hh].
  unfold compress in E.
  destruct (resize_step max_dimension img) as [img1|e] eqn:R; simpl in E;
    [|discriminate].
  destruct (jpeg_encode (to_rgb img1) jpeg_quality) as [buffer|e]; simpl in E;
    [|discriminate].
  injection E as <- _. simpl.
  destruct (resize_step_fits img img1 max_dimension Hw Hh Hm R) as (F1 & F2 & _).
  destruct (to_rgb_shape img1) as (_ & S1 & S2).
  rewrite S1, S2. auto.
Qed.

Lemma X13_witness :
  Forall (fun pg => mode pg = "RGB" /\ width pg <= 2000 /\ height pg <= 2000)
         (page_sequence sample_open sample_size sample_jpeg sample_paths 2000 85).
Proof.
  apply (X13_every_page_fits_max_dimension sample_open sample_size sample_jpeg
           sample_paths 2000 85).
  - intros p img H. unfold sample_open in H.
    destruct (String.eqb (name p) "image_000002.jp2"); [discriminate|].
    injection H as <-. simpl. lia.
  - lia.
Defined.

(** X14. The colour step applied twice is the colour step applied once, and
    it changes neither side of the image. *)
Theorem X14_to_rgb_is_idempotent (img : Image) :
  to_rgb (to_rgb img) = to_rgb img /\
  width (to_rgb img) = width img /\ height (to_rgb img) = height img.
Proof.
  destruct (to_rgb_shape img) as (M & S1 & S2).
  split; [|split; assumption].
  set (r := to_rgb img) in *. clearbody r.
  unfold to_rgb, mode_in. rewrite M. reflexivity.
Qed.

(** ** The exit status *)



